(** * Community dashboard: leaderboard generation and cross-snapshot merge

    A shallow embedding of [src/scripts/generateLeaderboard.ts] (the batch
    generator: scoring, deduplication, incremental merge, period projection,
    the paged listings of the source; and [generateLeaderboard], the
    generator from a list of activities) and of the people route ([GET],
    the serving-time cross-snapshot merge), with the properties of the
    specification and further properties of the code stated over it.

    Conventions of the embedding.
    - JavaScript numbers that hold points, counts and millisecond timestamps
      are integers ([Z]); the data model of the specification types points
      as integers.
    - JavaScript strings are [string]; [toLowerCase] folds the ASCII letters.
    - A [Map] is an association list in insertion order with unique keys
      ([JsMap]); a plain object used as a record of counters is the list of
      its own properties in insertion order; the object keyed by username
      of [generateLeaderboard] also has the properties it inherits and the
      order of [Object.values].
    - A [Set<string>] is a [gset string].
    - [Array.prototype.sort] is a stable sort ([js_sort]).
    - What the platform decides (date parsing, [localeCompare], the clock
      and the local calendar, the answers of the activity source) is an
      input of the model. *)

From Stdlib Require Import ZArith String Ascii List Lia DecimalString Sorted.
From stdpp Require Import base decidable list strings gmap.

Local Open Scope Z_scope.

(** ** JavaScript helpers *)

Module Js.

(** A property typed [T | null] that may also be absent. *)
Inductive nullable (A : Type) : Type :=
  | undefined : nullable A
  | null : nullable A
  | val : A -> nullable A.
Arguments undefined {A}.
Arguments null {A}.
Arguments val {A} _.

#[global] Instance nullable_eq_dec {A} `{EqDecision A} : EqDecision (nullable A).
Proof. solve_decision. Defined.

(** [a ?? b] *)
Definition coalesce {A} (a b : nullable A) : nullable A :=
  match a with
  | val x => val x
  | _ => b
  end.

(** [option] is used for a property typed [T | null] that is always set. *)
Definition of_option {A} (o : option A) : nullable A :=
  match o with
  | Some x => val x
  | None => null
  end.

(** [a ?? null] *)
Definition or_null {A} (a : nullable A) : option A :=
  match a with
  | val x => Some x
  | _ => None
  end.

(** A value interpolated in a template literal. *)
Definition template (a : nullable string) : string :=
  match a with
  | undefined => "undefined"
  | null => "null"
  | val s => s
  end.

Definition template_num (n : Z) : string :=
  NilZero.string_of_int (Z.to_int n).

(** Truthiness of a string: only the empty string is falsy. *)
Definition truthy (s : string) : bool :=
  match s with
  | EmptyString => false
  | _ => true
  end.

Definition streq (a b : string) : bool := bool_decide (a = b).

Definition lower_ascii (c : ascii) : ascii :=
  let n := nat_of_ascii c in
  if ((65 <=? n) && (n <=? 90))%nat then ascii_of_nat (n + 32) else c.

Fixpoint toLowerCase (s : string) : string :=
  match s with
  | EmptyString => EmptyString
  | String c r => String (lower_ascii c) (toLowerCase r)
  end.

Definition startsWith (s p : string) : bool := String.prefix p s.

Definition endsWith (s p : string) : bool :=
  let n := String.length s in
  let m := String.length p in
  ((m <=? n)%nat && streq (String.substring (n - m) m s) p).

Definition includes (s p : string) : bool :=
  match String.index 0 p s with
  | Some _ => true
  | None => false
  end.

(** [s.slice(0, n)] *)
Definition slice0 (n : nat) (s : string) : string := String.substring 0 n s.

(** [s.split(c)[0]]: the part of [s] before the first [c]. *)
Fixpoint split_head (c : ascii) (s : string) : string :=
  match s with
  | EmptyString => EmptyString
  | String a r => if Ascii.eqb a c then EmptyString else String a (split_head c r)
  end.

Example template_num_sample :
  (template_num 0, template_num 42, template_num (-5)) = ("0", "42", "-5").
Proof. reflexivity. Qed.

Example includes_sample :
  (includes "needs-security-review" "security", includes "ci-label" "stale",
   includes "abc" "") = (true, false, true).
Proof. reflexivity. Qed.

Example endsWith_sample :
  (endsWith "dependabot[bot]" "[bot]", endsWith "bot]" "[bot]",
   startsWith "renovate[bot]" "renovate[") = (true, false, true).
Proof. reflexivity. Qed.

Example day_of_timestamp_sample :
  (slice0 10 "2024-03-05T12:00:00Z", split_head "T" "2024-03-05T12:00:00Z") =
  ("2024-03-05", "2024-03-05").
Proof. reflexivity. Qed.

(** [Array.prototype.sort(cmp)]: the sort is stable, so for a comparator
    that is a consistent ordering the result is the one stable insertion
    sort gives: [x] goes before the first [y] with [cmp x y <= 0]. *)
Section Sort.
Context {A : Type} (cmp : A -> A -> Z).

Fixpoint insert_sorted (x : A) (l : list A) : list A :=
  match l with
  | [] => [x]
  | y :: r => if cmp x y <=? 0 then x :: y :: r else y :: insert_sorted x r
  end.

Fixpoint js_sort (l : list A) : list A :=
  match l with
  | [] => []
  | x :: r => insert_sorted x (js_sort r)
  end.

Lemma insert_sorted_perm x l : insert_sorted x l ≡ₚ x :: l.
Proof.
  induction l as [|y r IH]; simpl; [done|].
  destruct (cmp x y <=? 0); [done|].
  rewrite IH. apply Permutation_swap.
Qed.

Lemma js_sort_perm l : js_sort l ≡ₚ l.
Proof.
  induction l as [|x r IH]; simpl; [done|].
  by rewrite insert_sorted_perm, IH.
Qed.

Lemma elem_of_js_sort x l : x ∈ js_sort l <-> x ∈ l.
Proof. by rewrite js_sort_perm. Qed.

End Sort.

(** The order [js_sort] establishes when the comparator is the difference
    of an integer rank, as in [(a, b) => b.total_points - a.total_points]. *)
Section SortByRank.
Context {A : Type} (rank : A -> Z).

Definition by_rank_desc (a b : A) : Z := rank b - rank a.

Definition rank_ge (a b : A) : Prop := rank b <= rank a.

Lemma insert_sorted_rank x l :
  Sorted rank_ge l -> Sorted rank_ge (insert_sorted by_rank_desc x l).
Proof.
  induction 1 as [|y r Hs IH Hhd]; simpl.
  - repeat constructor.
  - unfold by_rank_desc at 1.
    destruct (Z.leb_spec (rank y - rank x) 0) as [Hle|Hgt].
    + constructor; [by constructor|]. constructor. unfold rank_ge. lia.
    + constructor; [done|].
      destruct Hhd as [|z r' Hz]; simpl.
      * constructor. unfold rank_ge. lia.
      * destruct (by_rank_desc x z <=? 0); constructor; unfold rank_ge in *; lia.
Qed.

Lemma js_sort_rank l : Sorted rank_ge (js_sort by_rank_desc l).
Proof.
  induction l as [|x r IH]; simpl; [constructor|].
  by apply insert_sorted_rank.
Qed.
End SortByRank.

(** An invariant of the state of a loop. *)
Lemma foldl_preserves {S X} (P : S -> Prop) (step : S -> X -> S) (items : list X) (s : S) :
  P s -> (forall s x, P s -> P (step s x)) -> P (foldl step s items).
Proof.
  intros Hs Hstep. revert s Hs.
  induction items as [|x r IH]; intros s Hs; simpl; [done|]. by apply IH, Hstep.
Qed.

(** [Map<string, V>]: entries in insertion order, keys unique. *)
Definition JsMap (V : Type) : Type := list (string * V).

Section JsMap.
Context {V : Type}.

Fixpoint map_get (m : JsMap V) (k : string) : option V :=
  match m with
  | [] => None
  | (k', v) :: r => if decide (k = k') then Some v else map_get r k
  end.

Definition map_has (m : JsMap V) (k : string) : bool :=
  match map_get m k with
  | Some _ => true
  | None => false
  end.

(** [m.set(k, v)]: an existing key keeps its position. *)
Fixpoint map_set (m : JsMap V) (k : string) (v : V) : JsMap V :=
  match m with
  | [] => [(k, v)]
  | (k', v') :: r =>
      if decide (k = k') then (k', v) :: r else (k', v') :: map_set r k v
  end.

(** Mutation, through the reference [m.get(k)] returned, of the object
    stored under [k]. *)
Fixpoint map_mutate (m : JsMap V) (k : string) (f : V -> V) : JsMap V :=
  match m with
  | [] => []
  | (k', v) :: r =>
      if decide (k = k') then (k', f v) :: r else (k', v) :: map_mutate r k f
  end.

Definition map_keys (m : JsMap V) : list string := fst <$> m.
Definition map_values (m : JsMap V) : list V := snd <$> m.

Lemma map_keys_set m k v :
  map_keys (map_set m k v) =
    if map_has m k then map_keys m else map_keys m ++ [k].
Proof.
  unfold map_has, map_keys.
  induction m as [|[k' v'] r IH]; csimpl; [done|].
  destruct (decide (k = k')); csimpl; [done|].
  rewrite IH. by destruct (map_get r k).
Qed.

Lemma map_keys_mutate m k f : map_keys (map_mutate m k f) = map_keys m.
Proof.
  unfold map_keys.
  induction m as [|[k' v'] r IH]; csimpl; [done|].
  destruct (decide (k = k')); csimpl; [done|]. by rewrite IH.
Qed.

Lemma map_get_None m k : map_get m k = None <-> k ∉ map_keys m.
Proof.
  unfold map_keys.
  induction m as [|[k' v'] r IH]; csimpl.
  - split; [intros _; apply not_elem_of_nil|done].
  - rewrite not_elem_of_cons. destruct (decide (k = k')); [|tauto].
    split; [done|]. intros [? _]. done.
Qed.

Lemma map_get_set_eq m k v : map_get (map_set m k v) k = Some v.
Proof.
  induction m as [|[k' v'] r IH]; simpl.
  - by rewrite decide_True.
  - destruct (decide (k = k')) as [->|Hne]; simpl.
    + by rewrite decide_True.
    + by rewrite decide_False.
Qed.

Lemma map_get_set_ne m k k' v :
  k ≠ k' -> map_get (map_set m k v) k' = map_get m k'.
Proof.
  intros Hne.
  induction m as [|[k0 v0] r IH]; simpl.
  - by rewrite decide_False.
  - destruct (decide (k = k0)) as [->|]; simpl.
    + by rewrite !decide_False.
    + destruct (decide (k' = k0)); [done|apply IH].
Qed.

Lemma map_get_mutate_eq m k f :
  map_get (map_mutate m k f) k = f <$> map_get m k.
Proof.
  induction m as [|[k' v'] r IH]; simpl; [done|].
  destruct (decide (k = k')) as [->|Hne]; simpl.
  - by rewrite decide_True.
  - by rewrite decide_False.
Qed.

Lemma map_get_mutate_ne m k k' f :
  k ≠ k' -> map_get (map_mutate m k f) k' = map_get m k'.
Proof.
  intros Hne.
  induction m as [|[k0 v0] r IH]; simpl; [done|].
  destruct (decide (k = k0)) as [->|]; simpl.
  - by rewrite !decide_False.
  - destruct (decide (k' = k0)); [done|apply IH].
Qed.

Lemma map_get_elem_of m k v : map_get m k = Some v -> (k, v) ∈ m.
Proof.
  induction m as [|[k' v'] r IH]; simpl; [done|].
  destruct (decide (k = k')) as [->|].
  - intros [= ->]. apply elem_of_cons. by left.
  - intros H. apply elem_of_cons. right. by apply IH.
Qed.

Lemma elem_of_map_get m k v :
  NoDup (map_keys m) -> (k, v) ∈ m -> map_get m k = Some v.
Proof.
  unfold map_keys.
  induction m as [|[k' v'] r IH]; csimpl; intros Hnd Hin.
  - by apply elem_of_nil in Hin.
  - apply NoDup_cons in Hnd as [Hk Hnd].
    apply elem_of_cons in Hin as [[= -> ->]|Hin].
    + by rewrite decide_True.
    + destruct (decide (k = k')) as [->|]; [|by apply IH].
      exfalso. apply Hk. apply list_elem_of_fmap. by exists (k', v).
Qed.
End JsMap.

End Js.


(** ** The leaderboard generator ([src/scripts/generateLeaderboard.ts]) *)

Module Leaderboard.
Import Js.

(** *** Data model *)

(** [RawActivity["type"]]: the seven activity labels. *)
Inductive ActivityType : Type :=
  | PR_opened
  | PR_merged
  | Issue_opened
  | Review_submitted
  | Issue_labeled
  | Issue_assigned
  | Issue_closed.

#[global] Instance ActivityType_eq_dec : EqDecision ActivityType.
Proof. solve_decision. Defined.

Definition label (t : ActivityType) : string :=
  match t with
  | PR_opened => "PR opened"
  | PR_merged => "PR merged"
  | Issue_opened => "Issue opened"
  | Review_submitted => "Review submitted"
  | Issue_labeled => "Issue labeled"
  | Issue_assigned => "Issue assigned"
  | Issue_closed => "Issue closed"
  end.

(** The scoring table [POINTS]. *)
Definition POINTS (t : ActivityType) : Z :=
  match t with
  | PR_opened => 2
  | PR_merged => 5
  | Issue_opened => 1
  | Review_submitted => 4
  | Issue_labeled => 2
  | Issue_assigned => 2
  | Issue_closed => 1
  end.

Record RawActivity : Type := {
  act_type : ActivityType;
  occured_at : string;
  act_title : nullable string;
  act_link : nullable string;
  act_points : Z
}.

#[global] Instance RawActivity_eq_dec : EqDecision RawActivity.
Proof. solve_decision. Defined.

(** The value [{ count, points }] of a breakdown or of a day. *)
Record Stat : Type := {
  count : Z;
  points : Z
}.

Record DailyActivity : Type := {
  date : string;
  day_count : Z;
  day_points : Z
}.

(** [Record<string, { count; points }>] keyed by activity label: the own
    properties in insertion order. *)
Definition ActivityBreakdown : Type := list (ActivityType * Stat).

Record Contributor : Type := {
  username : string;
  name : option string;
  avatar_url : option string;
  role : string;
  total_points : Z;
  activity_breakdown : ActivityBreakdown;
  daily_activity : list DailyActivity;
  raw_activities : list RawActivity
}.

(** [UserEntry], the entry of a derived period: [activities] in place of
    [raw_activities]. *)
Record UserEntry : Type := {
  ue_username : string;
  ue_name : option string;
  ue_avatar_url : option string;
  ue_role : string;
  ue_total_points : Z;
  ue_activity_breakdown : ActivityBreakdown;
  ue_daily_activity : list DailyActivity;
  ue_activities : list RawActivity
}.

(** The [user], [actor] object of a platform item. *)
Record GitHubUser : Type := {
  login : string;
  gh_name : option string;
  gh_avatar_url : option string;
  gh_type : option string
}.

Record GitHubSearchItem : Type := {
  item_user : GitHubUser;
  item_title : string;
  html_url : string;
  created_at : string;
  closed_at : option string
}.

Record GitHubPR : Type := {
  number : Z;
  pr_user : GitHubUser;
  updated_at : option string
}.

Record GitHubReview : Type := {
  review_user : GitHubUser;
  state : string;
  submitted_at : string
}.

Record GitHubIssueEvent : Type := {
  event : string;
  actor : GitHubUser;
  event_created_at : string;
  event_label : option string;
  assignee : option string
}.

(** [ExistingYearData] and the object written to [year.json]. *)
Record YearData : Type := {
  period : string;
  updatedAt : Z;
  lastFetchedAt : option Z;
  startDate : string;
  endDate : string;
  entries : list Contributor
}.

(** The object written to [week.json] and [month.json]. *)
Record PeriodData : Type := {
  pd_period : string;
  pd_updatedAt : Z;
  pd_startDate : string;
  pd_endDate : string;
  pd_entries : list UserEntry
}.

Record RecentActivityItem : Type := {
  rai_username : string;
  rai_name : option string;
  rai_title : option string;
  rai_link : option string;
  rai_avatar_url : option string;
  rai_points : Z
}.

(** *** Utilities *)

Definition ORG : string := "CircuitVerse".

Definition is_space (c : ascii) : bool :=
  let n := nat_of_ascii c in
  ((9 <=? n) && (n <=? 13) || (n =? 32))%nat.

Definition strip_brackets_colons (c : ascii) : list ascii :=
  if (Ascii.eqb c "["%char || Ascii.eqb c "]"%char)%bool then []
  else if Ascii.eqb c ":"%char then [" "%char; "-"%char; " "%char]
  else [c].

Fixpoint collapse_spaces (in_run : bool) (l : list ascii) : list ascii :=
  match l with
  | [] => []
  | c :: r =>
      if is_space c
      then (if in_run then collapse_spaces true r
            else " "%char :: collapse_spaces true r)
      else c :: collapse_spaces false r
  end.

Fixpoint trim_start (l : list ascii) : list ascii :=
  match l with
  | [] => []
  | c :: r => if is_space c then trim_start r else l
  end.

Definition trim (l : list ascii) : list ascii :=
  rev (trim_start (rev (trim_start l))).

(** [sanitizeTitle]: brackets removed, [:] turned into [ - ], runs of
    white space collapsed, ends trimmed (white space is the ASCII one). *)
Definition sanitizeTitle (title : option string) : option string :=
  match title with
  | None => None
  | Some t =>
      if truthy t
      then Some (string_of_list_ascii
                   (trim (collapse_spaces false
                            (list_ascii_of_string t ≫= strip_brackets_colons))))
      else None
  end.

Example sanitizeTitle_sample :
  (sanitizeTitle (Some "[WIP] Fix:  parser "), sanitizeTitle (Some ""), sanitizeTitle None) =
  (Some "WIP Fix - parser", None, None).
Proof. reflexivity. Qed.

(** [isBotUser]: no handle, an account type that is set and is not
    ["User"], or a handle that ends in ["[bot]"]. *)
Definition isBotUser (user : GitHubUser) : bool :=
  if negb (truthy (login user)) then true
  else if match gh_type user with
          | Some t => truthy t && negb (streq t "User")
          | None => false
          end then true
  else endsWith (login user) "[bot]".

(** [chunk(arr, size)] for [size >= 1]. *)
Fixpoint chunk_from {T} (fuel : nat) (size : nat) (arr : list T) : list (list T) :=
  match fuel with
  | O => []
  | S fuel' =>
      match arr with
      | [] => []
      | _ => take size arr :: chunk_from fuel' size (drop size arr)
      end
  end.

Definition chunk {T} (arr : list T) (size : nat) : list (list T) :=
  chunk_from (length arr) size arr.

Example chunk_sample : chunk [1; 2; 3; 4; 5; 6; 7] 3 = [[1; 2; 3]; [4; 5; 6]; [7]].
Proof. reflexivity. Qed.

(** The update [m[k] ??= { count: 0, points: 0 }; m[k].count += 1;
    m[k].points += p] of a keyed table of counters. *)
Fixpoint bump {K} `{EqDecision K} (k : K) (p : Z) (m : list (K * Stat)) : list (K * Stat) :=
  match m with
  | [] => [(k, {| count := 1; points := p |})]
  | (k', s) :: r =>
      if decide (k = k')
      then (k', {| count := count s + 1; points := points s + p |}) :: r
      else (k', s) :: bump k p r
  end.

(** The same update on a list of [DailyActivity] found by its [date]. *)
Fixpoint bump_day (day : string) (p : Z) (l : list DailyActivity) : list DailyActivity :=
  match l with
  | [] => [{| date := day; day_count := 1; day_points := p |}]
  | d :: r =>
      if decide (date d = day)
      then {| date := date d; day_count := day_count d + 1; day_points := day_points d + p |} :: r
      else d :: bump_day day p r
  end.

(** [isAutomatedLabel]: the label contains, whatever the case, one of the
    listed names. *)
Definition automatedLabels : list string :=
  ["stale"; "wontfix"; "duplicate"; "invalid"; "dependencies"; "security";
   "github_actions"].

Definition isAutomatedLabel (labelName : string) : bool :=
  existsb (fun auto => includes (toLowerCase labelName) (toLowerCase auto))
    automatedLabels.

(** The key under which [deduplicateAndRecalculate] remembers an activity:
    [`${act.type}:${act.occured_at}:${act.link ?? act.title}`]. *)
Definition act_key (act : RawActivity) : string :=
  label (act_type act) +:+ ":" +:+ occured_at act +:+ ":" +:+
  template (coalesce (act_link act) (act_title act)).

(** The identity of an activity in the data model: type, time, and the
    link if present, else the title. *)
Definition identity (act : RawActivity) : ActivityType * string * nullable string :=
  (act_type act, occured_at act, coalesce (act_link act) (act_title act)).

(** The filter of [deduplicateAndRecalculate]: the first activity of each
    key is kept. *)
Fixpoint dedup (seen : gset string) (acts : list RawActivity) : list RawActivity :=
  match acts with
  | [] => []
  | act :: rest =>
      if decide (act_key act ∈ seen) then dedup seen rest
      else act :: dedup ({[act_key act]} ∪ seen) rest
  end.

(** The three accumulators of the recalculation loop: [total_points],
    [activity_breakdown] and [dailyMap]. *)
Definition Totals : Type := Z * ActivityBreakdown * list (string * Stat).

Definition tally (acc : Totals) (act : RawActivity) : Totals :=
  let '(total, breakdown, dailyMap) := acc in
  (total + act_points act,
   bump (act_type act) (act_points act) breakdown,
   bump (slice0 10 (occured_at act)) (act_points act) dailyMap).

Definition sum_points (acts : list RawActivity) : Z :=
  foldr (fun a n => act_points a + n) 0 acts.

Definition breakdown_points {K} (b : list (K * Stat)) : Z :=
  foldr (fun e n => points e.2 + n) 0 b.

Definition breakdown_count {K} (b : list (K * Stat)) : Z :=
  foldr (fun e n => count e.2 + n) 0 b.

Definition daily_points (l : list DailyActivity) : Z :=
  foldr (fun d n => day_points d + n) 0 l.

Definition daily_count (l : list DailyActivity) : Z :=
  foldr (fun d n => day_count d + n) 0 l.

(** *** Loops

    Facts about [foldl], the shape of every loop of the run. *)

Lemma foldl_bind {A B C} (g : A -> C -> A) (f : B -> list C) (a : A) (l : list B) :
  foldl g a (l ≫= f) = foldl (fun a x => foldl g a (f x)) a l.
Proof.
  revert a. induction l as [|x r IH]; intros a; csimpl; [done|].
  by rewrite foldl_app, IH.
Qed.

Lemma foldl_ext_all {A B} (f g : A -> B -> A) (a : A) (l : list B) :
  (forall a x, f a x = g a x) -> foldl f a l = foldl g a l.
Proof.
  intros Hfg. revert a. induction l as [|x r IH]; intros a; simpl; [done|].
  by rewrite Hfg, IH.
Qed.

(** Batches only group the items: the loops over the batches of
    [chunk arr size] take the items of [arr] in order. *)
Lemma chunk_from_items {T} fuel size (arr : list T) :
  (0 < size)%nat -> (length arr <= fuel)%nat ->
  chunk_from fuel size arr ≫= id = arr.
Proof.
  intros Hsize. revert arr. induction fuel as [|fuel IH]; intros arr Hlen.
  - destruct arr; [done|simpl in Hlen; lia].
  - destruct arr as [|x r]; [done|].
    cbn [chunk_from]. csimpl. rewrite IH.
    + apply take_drop.
    + rewrite length_drop. simpl in Hlen. simpl. lia.
Qed.

Lemma foldl_chunk {A T} (g : A -> T -> A) (a : A) (arr : list T) size :
  (0 < size)%nat ->
  foldl (fun a batch => foldl g a batch) a (chunk arr size) = foldl g a arr.
Proof.
  intros Hsize.
  rewrite <- (chunk_from_items (length arr) size arr Hsize) at 2 by done.
  by rewrite foldl_bind.
Qed.

Lemma foldl_invariant {S X} (P : S -> Prop) (step : S -> X -> S) (items : list X) (s : S) :
  P s ->
  (forall s x, x ∈ items -> P s -> P (step s x)) ->
  P (foldl step s items).
Proof.
  revert s. induction items as [|x r IH]; intros s Hs Hstep; simpl; [done|].
  apply IH.
  - apply Hstep; [apply elem_of_cons; by left|done].
  - intros s' x' Hx'. apply Hstep, elem_of_cons. by right.
Qed.

(** *** Batches *)

Lemma chunk_from_concat {T} fuel size (arr : list T) :
  (0 < size)%nat -> (length arr <= fuel)%nat ->
  concat (chunk_from fuel size arr) = arr.
Proof.
  intros Hsize. revert arr. induction fuel as [|fuel IH]; intros arr Hlen.
  - destruct arr; [done|simpl in Hlen; lia].
  - destruct arr as [|x r]; [done|].
    cbn [chunk_from concat]. rewrite IH.
    + apply take_drop.
    + rewrite length_drop. simpl in Hlen. simpl. lia.
Qed.

Lemma chunk_from_lookup {T} fuel size (arr : list T) i :
  (0 < size)%nat -> (length arr <= fuel)%nat ->
  chunk_from fuel size arr !! i =
  if decide (i * size < length arr)%nat
  then Some (take size (drop (i * size) arr))
  else None.
Proof.
  intros Hsize. revert arr i. induction fuel as [|fuel IH]; intros arr i Hlen.
  - destruct arr; [|simpl in Hlen; lia]. cbn [chunk_from]. rewrite lookup_nil.
    destruct (decide _) as [Hlt|]; [simpl in Hlt; lia|done].
  - destruct arr as [|x r].
    + cbn [chunk_from]. rewrite lookup_nil.
      destruct (decide _) as [Hlt|]; [simpl in Hlt; lia|done].
    + cbn [chunk_from]. destruct i as [|i].
      * destruct (decide _) as [|Hge]; [done|simpl in Hge; lia].
      * rewrite lookup_cons.
        rewrite IH by (rewrite length_drop; simpl in *; lia).
        rewrite length_drop, drop_drop.
        change (S i * size)%nat with (size + i * size)%nat.
        destruct (decide (i * size < length (x :: r) - size)%nat);
          destruct (decide (size + i * size < length (x :: r))%nat); try done; lia.
Qed.

Lemma chunk_from_length {T} fuel size (arr : list T) :
  (0 < size)%nat -> (length arr <= fuel)%nat ->
  (length arr <= length (chunk_from fuel size arr) * size < length arr + size)%nat.
Proof.
  intros Hsize. revert arr. induction fuel as [|fuel IH]; intros arr Hlen.
  - destruct arr; [simpl; lia|simpl in Hlen; lia].
  - destruct arr as [|x r]; [simpl; lia|].
    cbn [chunk_from length].
    assert (length (drop size (x :: r)) <= fuel)%nat as Hdrop
      by (rewrite length_drop; simpl in *; lia).
    specialize (IH _ Hdrop). rewrite length_drop in IH. cbn [length] in IH.
    change (S (length (chunk_from fuel size (drop size (x :: r)))) * size)%nat
      with (size + length (chunk_from fuel size (drop size (x :: r))) * size)%nat.
    destruct (length (chunk_from fuel size (drop size (x :: r)))) as [|n]; simpl in *; lia.
Qed.

(** [chunk] cuts [arr] into ceil(length / size) consecutive batches: the
    batch of index [i] is [arr.slice(i * size, i * size + size)], every
    batch holds between 1 and [size] items, and the batches put end to end
    are [arr]. *)
Theorem chunk_partitions {T} (arr : list T) (size : nat) :
  (0 < size)%nat ->
  concat (chunk arr size) = arr /\
  (forall i,
     chunk arr size !! i =
     if decide (i * size < length arr)%nat
     then Some (take size (drop (i * size) arr))
     else None) /\
  (length arr <= length (chunk arr size) * size < length arr + size)%nat /\
  Forall (fun batch => (0 < length batch <= size)%nat) (chunk arr size).
Proof.
  intros Hsize. unfold chunk. split; [|split; [|split]].
  - by apply chunk_from_concat.
  - intros i. by apply chunk_from_lookup.
  - by apply chunk_from_length.
  - apply Forall_lookup. intros i batch.
    rewrite chunk_from_lookup by done.
    destruct (decide (i * size < length arr)%nat); [|done].
    intros [= <-]. rewrite length_take, length_drop. lia.
Qed.

Lemma chunk_partitions_witness :
  concat (chunk [1; 2; 3; 4; 5; 6; 7] 3) = [1; 2; 3; 4; 5; 6; 7] /\
  (forall i,
     chunk [1; 2; 3; 4; 5; 6; 7] 3 !! i =
     if decide (i * 3 < length [1; 2; 3; 4; 5; 6; 7])%nat
     then Some (take 3 (drop (i * 3) [1; 2; 3; 4; 5; 6; 7]))
     else None) /\
  (length [1; 2; 3; 4; 5; 6; 7] <= length (chunk [1; 2; 3; 4; 5; 6; 7] 3) * 3
     < length [1; 2; 3; 4; 5; 6; 7] + 3)%nat /\
  Forall (fun batch => (0 < length batch <= 3)%nat) (chunk [1; 2; 3; 4; 5; 6; 7] 3).
Proof. apply (chunk_partitions [1; 2; 3; 4; 5; 6; 7] 3). lia. Defined.

(** *** Titles *)



(** No white space follows white space; [prev]: white space came just
    before. *)
Fixpoint single_spaced (prev : bool) (l : list ascii) : bool :=
  match l with
  | [] => true
  | c :: r =>
      if is_space c then negb prev && single_spaced true r else single_spaced false r
  end.


Lemma single_spaced_weaken l : single_spaced true l = true -> single_spaced false l = true.
Proof. destruct l as [|c r]; simpl; [done|]. by destruct (is_space c). Qed.











(** *** Handles and feed items

    The handles of the contributors of a map, and the items of the groups
    of the recent-activity feed. *)

Definition handles (users : JsMap Contributor) : list string :=
  username <$> map_values users.

Lemma handles_set users k v h :
  h ∈ handles (map_set users k v) -> h ∈ handles users \/ h = username v.
Proof.
  unfold handles, map_values.
  induction users as [|[k' v'] r IH]; csimpl.
  - intros ->%list_elem_of_singleton. by right.
  - destruct (decide (k = k')); csimpl; rewrite !elem_of_cons; [tauto|].
    intros [->|Hin]; [tauto|]. destruct (IH Hin); tauto.
Qed.

Lemma handles_mutate users k f :
  (forall v, username (f v) = username v) ->
  handles (map_mutate users k f) = handles users.
Proof.
  intros Hf. unfold handles, map_values.
  induction users as [|[k' v'] r IH]; csimpl; [done|].
  destruct (decide (k = k')); csimpl; [by rewrite Hf|by rewrite IH].
Qed.

(** The items of the recent-activity feed. *)
Definition feed_items (groups : JsMap (list RecentActivityItem)) : list RecentActivityItem :=
  groups ≫= snd.

Lemma feed_items_set groups k v x :
  x ∈ feed_items (map_set groups k v) -> x ∈ feed_items groups \/ x ∈ v.
Proof.
  unfold feed_items.
  induction groups as [|[k' v'] r IH]; csimpl.
  - rewrite app_nil_r. tauto.
  - destruct (decide (k = k')); csimpl; rewrite !elem_of_app; [tauto|].
    intros [?|Hin]; [tauto|]. destruct (IH Hin); tauto.
Qed.

Lemma feed_items_mutate groups k f x :
  x ∈ feed_items (map_mutate groups k f) ->
  x ∈ feed_items groups \/ exists v, (k, v) ∈ groups /\ x ∈ f v.
Proof.
  unfold feed_items.
  induction groups as [|[k' v'] r IH]; csimpl; [tauto|].
  destruct (decide (k = k')) as [->|]; csimpl; rewrite !elem_of_app.
  - intros [?|?]; [|tauto]. right. exists v'. split; [|done]. apply elem_of_cons. by left.
  - intros [?|Hin]; [tauto|]. destruct (IH Hin) as [?|(v & ? & ?)]; [tauto|].
    right. exists v. split; [|done]. apply elem_of_cons. by right.
Qed.

Lemma feed_items_elem groups k v x :
  (k, v) ∈ groups -> x ∈ v -> x ∈ feed_items groups.
Proof.
  intros Hin Hx. unfold feed_items. apply list_elem_of_bind. by exists (k, v).
Qed.

(** The map invariant of the run: keys pairwise distinct, every
    contributor stored under its own handle. *)
Definition keyed (users : JsMap Contributor) : Prop :=
  NoDup (map_keys users) /\ handles users = map_keys users.

Lemma handles_set_absent (users : JsMap Contributor) k v :
  map_get users k = None -> handles (map_set users k v) = handles users ++ [username v].
Proof.
  unfold handles, map_values.
  induction users as [|[k' v'] r IH]; csimpl; [done|].
  destruct (decide (k = k')); [done|]. intros Hr. csimpl. by rewrite IH.
Qed.

Lemma keyed_set users k v :
  keyed users -> map_get users k = None -> username v = k -> keyed (map_set users k v).
Proof.
  intros [Hnd Hh] Hnone Hv. unfold keyed.
  rewrite handles_set_absent, map_keys_set by done. unfold map_has.
  rewrite Hnone, Hh, Hv. split; [|done].
  apply NoDup_app. repeat split; [done| |apply NoDup_singleton].
  intros h Hin ->%list_elem_of_singleton. by apply map_get_None in Hnone.
Qed.

Lemma keyed_mutate users k f :
  (forall v, username (f v) = username v) -> keyed users -> keyed (map_mutate users k f).
Proof.
  intros Hf [Hnd Hh]. unfold keyed. by rewrite handles_mutate, map_keys_mutate.
Qed.

(** *** The run

    The inputs the platform supplies: [parseDate s] is
    [new Date(s).getTime()], [None] for an invalid date; [localeCompare] is
    [String.prototype.localeCompare]; [iso] is [iso(new Date(t))];
    [daysAgo t n] is the instant [daysAgo(n)] returns when the clock reads
    [t] ([n] days of the local calendar before [t]);
    [coreTeamMembers] and [alumniMembers] are the handles of
    [lib/team-data]; [parse_issue_url] gives the repository and the issue
    number found in the path of an issue's [html_url], [None] when
    [processIssueTriagingEvents] returns before fetching. *)
Section Run.
Local Set Default Proof Using "Type".
Context (parseDate : string -> option Z).
Context (localeCompare : string -> string -> Z).
Context (iso : Z -> string).
Context (daysAgo : Z -> Z -> Z).
Context (coreTeamMembers alumniMembers : list string).
Context (parse_issue_url : string -> option (string * string)).

(** [new Date(s) < t], [new Date(s) > t], [new Date(s) >= t]: false on an
    invalid date. *)
Definition date_lt (s : string) (t : Z) : bool :=
  match parseDate s with
  | Some d => d <? t
  | None => false
  end.

Definition date_gt (s : string) (t : Z) : bool :=
  match parseDate s with
  | Some d => t <? d
  | None => false
  end.

Definition date_ge (s : string) (t : Z) : bool :=
  match parseDate s with
  | Some d => t <=? d
  | None => false
  end.

Definition CORE_TEAM_USERNAMES : gset string :=
  list_to_set (toLowerCase <$> coreTeamMembers).

Definition ALUMNI_USERNAMES : gset string :=
  list_to_set (toLowerCase <$> alumniMembers).

Definition resolve_role (handle : string) : string :=
  let usernameLower := toLowerCase handle in
  if decide (usernameLower ∈ CORE_TEAM_USERNAMES) then "Maintainer"
  else if decide (usernameLower ∈ ALUMNI_USERNAMES) then "Alumni"
  else "Contributor".

(** [ensureUser]: the map after the call; the contributor returned is the
    one stored under [login user]. *)
Definition ensureUser (map : JsMap Contributor) (user : GitHubUser) : JsMap Contributor :=
  if map_has map (login user) then map
  else map_set map (login user)
         {| username := login user;
            name := gh_name user;
            avatar_url := gh_avatar_url user;
            role := resolve_role (login user);
            total_points := 0;
            activity_breakdown := [];
            daily_activity := [];
            raw_activities := [] |}.

Definition addActivity (entry : Contributor) (type : ActivityType)
    (date : string) (pts : Z) (title link : option string) : Contributor :=
  let day := split_head "T"%char date in
  {| username := username entry;
     name := name entry;
     avatar_url := avatar_url entry;
     role := role entry;
     total_points := total_points entry + pts;
     activity_breakdown := bump type pts (activity_breakdown entry);
     daily_activity := bump_day day pts (daily_activity entry);
     raw_activities :=
       raw_activities entry ++
       [{| act_type := type;
           occured_at := date;
           act_title := of_option (sanitizeTitle title);
           act_link := of_option link;
           act_points := pts |}] |}.

(** [addActivity(ensureUser(users, user), ...)] *)
Definition credit (users : JsMap Contributor) (user : GitHubUser)
    (type : ActivityType) (date : string) (title link : option string)
    : JsMap Contributor :=
  map_mutate (ensureUser users user) (login user)
    (fun entry => addActivity entry type date (POINTS type) title link).

(** The loops of [generateYear] over the items of a search: pull requests
    opened, issues opened. *)
Definition credit_created (type : ActivityType) (users : JsMap Contributor)
    (item : GitHubSearchItem) : JsMap Contributor :=
  if isBotUser (item_user item) then users
  else credit users (item_user item) type (created_at item)
         (Some (item_title item)) (Some (html_url item)).

(** Pull requests merged: the date is [pr.closed_at!]; [addActivity]
    throws on a missing date, which ends the run ([None]). *)
Definition credit_merged (users : JsMap Contributor) (pr : GitHubSearchItem)
    : option (JsMap Contributor) :=
  if isBotUser (item_user pr) then Some users
  else match closed_at pr with
       | Some d =>
           Some (credit users (item_user pr) PR_merged d
                   (Some (item_title pr)) (Some (html_url pr)))
       | None => None
       end.

(** [fetchAllReviews]: what is checked of a review before the
    deduplication. *)
Definition qualifying_review (since now : Z) (pr : GitHubPR) (review : GitHubReview) : bool :=
  let user := review_user review in
  if negb (truthy (login user)) then false
  else if endsWith (login user) "[bot]" then false
  else if match gh_type user with
          | Some t => truthy t && negb (streq t "User")
          | None => false
          end then false
  else if streq (login user) (login (pr_user pr)) then false
  else if negb (streq (state review) "APPROVED" || streq (state review) "CHANGES_REQUESTED") then false
  else if date_lt (submitted_at review) since || date_gt (submitted_at review) now then false
  else true.

Definition dedupKey (review : GitHubReview) (repoName : string) (pr : GitHubPR) : string :=
  login (review_user review) +:+ ":" +:+ repoName +:+ ":" +:+ template_num (number pr).

Definition review_title (pr : GitHubPR) : string :=
  "Review on PR #" +:+ template_num (number pr).

Definition review_link (repoName : string) (pr : GitHubPR) : string :=
  "https://github.com/" +:+ ORG +:+ "/" +:+ repoName +:+ "/pull/" +:+ template_num (number pr).

(** The state of the review loops: the contributors and [reviewSeen]. *)
Definition ReviewState : Type := JsMap Contributor * gset string.

(** The body of the innermost loop of [fetchAllReviews]. *)
Definition review_step (since now : Z) (repoName : string) (pr : GitHubPR)
    (st : ReviewState) (review : GitHubReview) : ReviewState :=
  if qualifying_review since now pr review then
    if decide (dedupKey review repoName pr ∈ st.2) then st
    else (credit st.1 (review_user review) Review_submitted (submitted_at review)
            (Some (review_title pr)) (Some (review_link repoName pr)),
          {[dedupKey review repoName pr]} ∪ st.2)
  else st.

Definition BATCH_SIZE : nat := 5.

(** The reviews of the pull requests of a repository, as fetched. *)
Definition RepoReviews : Type := string * list (GitHubPR * list GitHubReview).

Definition review_pr (since now : Z) (repoName : string) (st : ReviewState)
    (result : GitHubPR * list GitHubReview) : ReviewState :=
  foldl (review_step since now repoName result.1) st result.2.

Definition review_repo (since now : Z) (st : ReviewState) (repo : RepoReviews) : ReviewState :=
  foldl (fun st batch => foldl (review_pr since now repo.1) st batch)
    st (chunk repo.2 BATCH_SIZE).

Definition review_loops (since now : Z) (allRepos : list RepoReviews) (st : ReviewState) : ReviewState :=
  foldl (review_repo since now) st allRepos.

Definition fetchAllReviews (users : JsMap Contributor) (since now : Z)
    (allRepos : list RepoReviews) : JsMap Contributor :=
  (review_loops since now allRepos (users, ∅)).1.

(** [processIssueTriagingEvents]: the body of the loop over the events of
    an issue. *)
Definition triage_event (since now : Z) (issue : GitHubSearchItem) (issueNumber : string)
    (users : JsMap Contributor) (ev : GitHubIssueEvent) : JsMap Contributor :=
  if negb (truthy (login (actor ev))) || isBotUser (actor ev) then users
  else if date_lt (event_created_at ev) since || date_gt (event_created_at ev) now then users
  else
    let user := ensureUser users (actor ev) in
    let add type title :=
      map_mutate user (login (actor ev))
        (fun entry => addActivity entry type (event_created_at ev) (POINTS type)
                        (Some title) (Some (html_url issue))) in
    if streq (event ev) "labeled" then
      match event_label ev with
      | Some labelName =>
          if truthy labelName && negb (isAutomatedLabel labelName)
          then add Issue_labeled
                 ("Labeled issue #" +:+ issueNumber +:+ ": " +:+ labelName)
          else user
      | None => user
      end
    else if streq (event ev) "assigned" then
      match assignee ev with
      | Some assigneeLogin =>
          if negb (streq (login (actor ev)) assigneeLogin)
          then add Issue_assigned
                 ("Assigned issue #" +:+ issueNumber +:+ " to " +:+ assigneeLogin)
          else user
      | None => user
      end
    else if streq (event ev) "closed" then
      if negb (streq (login (actor ev)) (login (item_user issue)))
      then add Issue_closed
             ("Closed issue #" +:+ issueNumber +:+ ": " +:+
              template (of_option (sanitizeTitle (Some (item_title issue)))))
      else user
    else user.

(** An updated issue with the answer to the request for its events
    ([None]: the request failed). *)
Definition IssueEvents : Type := GitHubSearchItem * option (list GitHubIssueEvent).

Definition processIssueTriagingEvents (since now : Z) (users : JsMap Contributor)
    (fetched : IssueEvents) : JsMap Contributor :=
  match parse_issue_url (html_url fetched.1) with
  | None => users
  | Some (repoName, issueNumber) =>
      match fetched.2 with
      | None => users
      | Some events => foldl (triage_event since now fetched.1 issueNumber) users events
      end
  end.

(** [fetchIssueTriagingActivities]; the issues of a batch are taken in the
    order in which their event loops run. *)
Definition fetchIssueTriagingActivities (users : JsMap Contributor) (since now : Z)
    (updatedIssues : list IssueEvents) : JsMap Contributor :=
  foldl (fun users batch => foldl (processIssueTriagingEvents since now) users batch)
    users (chunk updatedIssues 10).

(** [mergeExistingActivities] *)
Definition merge_existing_entry (users : JsMap Contributor) (entry : Contributor)
    : JsMap Contributor :=
  let users' :=
    if map_has users (username entry) then users
    else map_set users (username entry)
           {| username := username entry;
              name := name entry;
              avatar_url := avatar_url entry;
              role := role entry;
              total_points := 0;
              activity_breakdown := [];
              daily_activity := [];
              raw_activities := [] |} in
  map_mutate users' (username entry)
    (fun user =>
       {| username := username user;
          name := name user;
          avatar_url := avatar_url user;
          role := role user;
          total_points := total_points user;
          activity_breakdown := activity_breakdown user;
          daily_activity := daily_activity user;
          raw_activities := raw_activities user ++ raw_activities entry |}).

Definition mergeExistingActivities (users : JsMap Contributor) (existing : option YearData)
    : JsMap Contributor :=
  match existing with
  | None => users
  | Some data => foldl merge_existing_entry users (entries data)
  end.

(** [deduplicateAndRecalculate], for one contributor. *)
Definition daily_of_map (dailyMap : list (string * Stat)) : list DailyActivity :=
  js_sort (fun a b => localeCompare (date b) (date a))
    ((fun e => {| date := e.1; day_count := count e.2; day_points := points e.2 |})
       <$> dailyMap).

Definition recalculate (user : Contributor) : Contributor :=
  let acts := dedup ∅ (raw_activities user) in
  let '(total, breakdown, dailyMap) := foldl tally (0, [], []) acts in
  {| username := username user;
     name := name user;
     avatar_url := avatar_url user;
     role := role user;
     total_points := total;
     activity_breakdown := breakdown;
     daily_activity := daily_of_map dailyMap;
     raw_activities := acts |}.

Definition deduplicateAndRecalculate (users : JsMap Contributor) : JsMap Contributor :=
  (fun e => (e.1, recalculate e.2)) <$> users.

(** [derivePeriod]: the entry derived from a contributor of the year, or
    [None] (the [null] dropped by [filter(Boolean)]).  [daily] is an object
    keyed by day, and [Object.values] gives its values in insertion order
    (the keys are dates, not array indices). *)
Definition period_tally (acc : Z * ActivityBreakdown * list DailyActivity) (a : RawActivity)
    : Z * ActivityBreakdown * list DailyActivity :=
  let '(total, breakdown, daily) := acc in
  (total + act_points a,
   bump (act_type a) (act_points a) breakdown,
   bump_day (split_head "T"%char (occured_at a)) (act_points a) daily).

Definition derive_entry (cutoff : Z) (entry : Contributor) : option UserEntry :=
  let acts := filter (fun a => date_ge (occured_at a) cutoff = true) (raw_activities entry) in
  if (length acts =? 0)%nat then None
  else
    let '(total, breakdown, daily) := foldl period_tally (0, [], []) acts in
    Some {| ue_username := username entry;
            ue_name := name entry;
            ue_avatar_url := avatar_url entry;
            ue_role := role entry;
            ue_total_points := total;
            ue_activity_breakdown := breakdown;
            ue_daily_activity := daily;
            ue_activities := acts |}.

(** The clock readings of a call of [derivePeriod]: inside
    [daysAgo(days)], at [Date.now()] and at [new Date()]. *)
Record PeriodClock : Type := {
  started_at : Z;
  written_at : Z;
  ended_at : Z
}.

Definition derivePeriod (source : YearData) (days : Z) (clock : PeriodClock)
    (period : string) : PeriodData :=
  let cutoff := daysAgo (started_at clock) days in
  {| pd_period := period;
     pd_updatedAt := written_at clock;
     pd_startDate := iso cutoff;
     pd_endDate := iso (ended_at clock);
     pd_entries :=
       js_sort (by_rank_desc ue_total_points)
         (omap (derive_entry cutoff) (entries source)) |}.

(** [generateRecentActivities] *)
Record RecentData : Type := {
  recent_updatedAt : Z;
  groups : JsMap (list RecentActivityItem)
}.

Definition recent_item (entry : Contributor) (act : RawActivity) : RecentActivityItem :=
  {| rai_username := username entry;
     rai_name := name entry;
     rai_title := or_null (act_title act);
     rai_link := or_null (act_link act);
     rai_avatar_url := avatar_url entry;
     rai_points := act_points act |}.

Definition recent_step (cutoff : Z) (entry : Contributor)
    (groups : JsMap (list RecentActivityItem)) (act : RawActivity)
    : JsMap (list RecentActivityItem) :=
  let day := split_head "T"%char (occured_at act) in
  if date_lt day cutoff then groups
  else
    map_mutate
      (map_set groups day (default [] (map_get groups day)))
      day (fun items => items ++ [recent_item entry act]).

Definition generateRecentActivities (source : YearData) (days : Z) (started written : Z)
    : RecentData :=
  let cutoff := daysAgo started days in
  {| recent_updatedAt := written;
     groups :=
       foldl (fun groups entry => foldl (recent_step cutoff entry) groups (raw_activities entry))
         [] (entries source) |}.

(** [generateYear].  What the activity source answered during the run. *)
Record Fetched : Type := {
  prs_opened : list GitHubSearchItem;
  prs_merged : list GitHubSearchItem;
  issues_opened : list GitHubSearchItem;
  repo_reviews : list RepoReviews;
  updated_issues : list IssueEvents
}.

(** The clock readings of a run, in the order of the calls: [new Date()]
    at the start, inside [daysAgo(365)] for a full fetch, inside
    [daysAgo(365)] for the display range, the two [Date.now()] of
    [yearData], then those of the derived files. *)
Record Clock : Type := {
  now : Z;
  since_read : Z;
  display_read : Z;
  updated_now : Z;
  fetched_now : Z;
  week_clock : PeriodClock;
  month_clock : PeriodClock;
  recent_read : Z;
  recent_written : Z
}.

Record Output : Type := {
  year : YearData;
  week : PeriodData;
  month : PeriodData;
  recent : RecentData
}.

Definition isIncremental (existing : option YearData) : bool :=
  match existing with
  | Some data => bool_decide (is_Some (lastFetchedAt data))
  | None => false
  end.

(** The start of the fetch window: the cursor of the prior snapshot when
    there is one (and it is not [0]), else a year ago. *)
Definition since_of (clock : Clock) (existing : option YearData) : Z :=
  match existing with
  | Some data =>
      match lastFetchedAt data with
      | Some t => if t =? 0 then daysAgo (since_read clock) 365 else t
      | None => daysAgo (since_read clock) 365
      end
  | None => daysAgo (since_read clock) 365
  end.

(** The contributors after the fetch passes, the merge and the
    recalculation; [None] when the run throws. *)
Definition collect (clock : Clock) (existing : option YearData) (fetched : Fetched)
    : option (JsMap Contributor) :=
  let since := since_of clock existing in
  let users := foldl (credit_created PR_opened) [] (prs_opened fetched) in
  users ← foldl (fun acc pr => acc ≫= fun users => credit_merged users pr)
            (Some users) (prs_merged fetched);
  let users := foldl (credit_created Issue_opened) users (issues_opened fetched) in
  let users := fetchAllReviews users since (now clock) (repo_reviews fetched) in
  let users := fetchIssueTriagingActivities users since (now clock) (updated_issues fetched) in
  let users := if isIncremental existing then mergeExistingActivities users existing else users in
  Some (deduplicateAndRecalculate users).

Definition year_entries (users : JsMap Contributor) : list Contributor :=
  js_sort (by_rank_desc total_points)
    (filter (fun u => 0 < total_points u) (map_values users)).

Definition generateYear (clock : Clock) (existing : option YearData) (fetched : Fetched)
    : option Output :=
  users ← collect clock existing fetched;
  let yearData :=
    {| period := "year";
       updatedAt := updated_now clock;
       lastFetchedAt := Some (fetched_now clock);
       startDate := iso (daysAgo (display_read clock) 365);
       endDate := iso (now clock);
       entries := year_entries users |} in
  Some {| year := yearData;
          week := derivePeriod yearData 7 (week_clock clock) "week";
          month := derivePeriod yearData 30 (month_clock clock) "month";
          recent :=
            generateRecentActivities yearData 14 (recent_read clock) (recent_written clock) |}.

(** *** Deduplication and recalculation *)

Lemma dedup_fresh seen acts a : a ∈ dedup seen acts -> act_key a ∉ seen.
Proof.
  revert seen. induction acts as [|b rest IH]; intros seen; simpl.
  - by intros ?%elem_of_nil.
  - destruct (decide (act_key b ∈ seen)) as [|Hb]; [by apply IH|].
    intros [->|Hin]%elem_of_cons; [done|].
    apply IH in Hin. set_solver.
Qed.

Lemma dedup_sublist seen acts a : a ∈ dedup seen acts -> a ∈ acts.
Proof.
  revert seen. induction acts as [|b rest IH]; intros seen; simpl; [done|].
  destruct (decide (act_key b ∈ seen)).
  - intros Hin. apply elem_of_cons. right. by eapply IH.
  - intros [->|Hin]%elem_of_cons; apply elem_of_cons; [by left|right; by eapply IH].
Qed.

Lemma dedup_keys_NoDup seen acts : NoDup (act_key <$> dedup seen acts).
Proof.
  revert seen. induction acts as [|b rest IH]; intros seen; simpl.
  - constructor.
  - destruct (decide (act_key b ∈ seen)); [apply IH|].
    csimpl. apply NoDup_cons. split; [|apply IH].
    intros (a & Heq & Hin)%list_elem_of_fmap.
    apply dedup_fresh in Hin. set_solver.
Qed.

Lemma dedup_id seen acts :
  NoDup (act_key <$> acts) ->
  (forall a, a ∈ acts -> act_key a ∉ seen) ->
  dedup seen acts = acts.
Proof.
  revert seen. induction acts as [|b rest IH]; intros seen Hnd Hseen; simpl; [done|].
  csimpl in Hnd. apply NoDup_cons in Hnd as [Hb Hnd].
  rewrite decide_False by (apply Hseen, elem_of_cons; by left).
  f_equal. apply IH; [done|].
  intros a Ha. rewrite elem_of_union, elem_of_singleton.
  intros [Heq|Hin].
  - apply Hb. rewrite <- Heq. by apply list_elem_of_fmap_2.
  - eapply Hseen; [|done]. apply elem_of_cons. by right.
Qed.

Lemma dedup_idempotent acts : dedup ∅ (dedup ∅ acts) = dedup ∅ acts.
Proof.
  apply dedup_id; [apply dedup_keys_NoDup|].
  intros a _. apply not_elem_of_empty.
Qed.

(** The key is a function of the identity, so distinct keys are distinct
    identities. *)
Definition key_of_identity (i : ActivityType * string * nullable string) : string :=
  label i.1.1 +:+ ":" +:+ i.1.2 +:+ ":" +:+ template i.2.

Lemma identity_NoDup acts : NoDup (act_key <$> acts) -> NoDup (identity <$> acts).
Proof.
  intros Hnd. apply (NoDup_fmap_1 key_of_identity).
  by rewrite <- list_fmap_compose.
Qed.

Lemma breakdown_points_bump {K} `{EqDecision K} (k : K) p (m : list (K * Stat)) :
  breakdown_points (bump k p m) = breakdown_points m + p.
Proof.
  induction m as [|[k' s] r IH]; simpl; [lia|].
  destruct (decide (k = k')); simpl; lia.
Qed.

Lemma breakdown_count_bump {K} `{EqDecision K} (k : K) p (m : list (K * Stat)) :
  breakdown_count (bump k p m) = breakdown_count m + 1.
Proof.
  induction m as [|[k' s] r IH]; simpl; [lia|].
  destruct (decide (k = k')); simpl; lia.
Qed.

Lemma daily_points_bump_day day p l :
  daily_points (bump_day day p l) = daily_points l + p.
Proof.
  induction l as [|d r IH]; simpl; [lia|].
  destruct (decide (date d = day)); simpl; lia.
Qed.

Lemma daily_count_bump_day day p l :
  daily_count (bump_day day p l) = daily_count l + 1.
Proof.
  induction l as [|d r IH]; simpl; [lia|].
  destruct (decide (date d = day)); simpl; lia.
Qed.

Lemma daily_points_perm l1 l2 : l1 ≡ₚ l2 -> daily_points l1 = daily_points l2.
Proof. induction 1; simpl; lia. Qed.

Lemma sum_points_app l1 l2 : sum_points (l1 ++ l2) = sum_points l1 + sum_points l2.
Proof. induction l1; simpl; lia. Qed.

Lemma tally_sums acts acc :
  (foldl tally acc acts).1.1 = acc.1.1 + sum_points acts /\
  breakdown_points (foldl tally acc acts).1.2 = breakdown_points acc.1.2 + sum_points acts /\
  breakdown_points (foldl tally acc acts).2 = breakdown_points acc.2 + sum_points acts.
Proof.
  revert acc. induction acts as [|a rest IH]; intros acc.
  - simpl. lia.
  - change (foldl tally acc (a :: rest)) with (foldl tally (tally acc a) rest).
    destruct (IH (tally acc a)) as (-> & -> & ->).
    destruct acc as [[total breakdown] dailyMap]. simpl.
    rewrite !breakdown_points_bump. lia.
Qed.

Lemma daily_of_map_points dailyMap :
  daily_points (daily_of_map dailyMap) = breakdown_points dailyMap.
Proof.
  unfold daily_of_map. rewrite (daily_points_perm _ _ (js_sort_perm _ _)).
  induction dailyMap as [|e r IH]; csimpl; [done|]. by rewrite IH.
Qed.

(** The fields [recalculate] rebuilds, as functions of the activities. *)
Lemma recalculate_fields user :
  let r := foldl tally (0, [], []) (dedup ∅ (raw_activities user)) in
  recalculate user =
    {| username := username user;
       name := name user;
       avatar_url := avatar_url user;
       role := role user;
       total_points := r.1.1;
       activity_breakdown := r.1.2;
       daily_activity := daily_of_map r.2;
       raw_activities := dedup ∅ (raw_activities user) |}.
Proof.
  unfold recalculate.
  by destruct (foldl tally (0, [], []) (dedup ∅ (raw_activities user))) as [[? ?] ?].
Qed.

Lemma recalculate_total user :
  total_points (recalculate user) = sum_points (dedup ∅ (raw_activities user)).
Proof.
  rewrite recalculate_fields. simpl.
  pose proof (tally_sums (dedup ∅ (raw_activities user)) (0, [], [])) as (-> & _).
  simpl. lia.
Qed.

Lemma recalculate_idempotent user : recalculate (recalculate user) = recalculate user.
Proof.
  rewrite (recalculate_fields (recalculate user)).
  rewrite (recalculate_fields user). simpl.
  by rewrite dedup_idempotent.
Qed.

(** C1.  After [deduplicateAndRecalculate], for every contributor of the
    map, [total_points] is the sum of the points of [raw_activities], the
    sum of the points of [activity_breakdown] and the sum of the points of
    [daily_activity], and no two entries of [raw_activities] have the same
    identity (type, [occured_at], link if present else title). *)
Theorem recompute_invariants (users : JsMap Contributor) (user : Contributor) :
  user ∈ map_values (deduplicateAndRecalculate users) ->
  total_points user = sum_points (raw_activities user) /\
  total_points user = breakdown_points (activity_breakdown user) /\
  total_points user = daily_points (daily_activity user) /\
  NoDup (identity <$> raw_activities user).
Proof.
  unfold map_values, deduplicateAndRecalculate.
  rewrite <- list_fmap_compose.
  intros (e & -> & _)%list_elem_of_fmap. simpl.
  rewrite recalculate_fields. simpl.
  pose proof (tally_sums (dedup ∅ (raw_activities e.2)) (0, [], [])) as (Ht & Hb & Hd).
  simpl in Ht, Hb, Hd.
  rewrite daily_of_map_points, Hb, Hd, Ht.
  repeat split; try lia.
  apply identity_NoDup, dedup_keys_NoDup.
Qed.

(** C2.  [deduplicateAndRecalculate] is idempotent: a second run leaves
    every contributor of the map as the first run made it. *)
Theorem recompute_idempotent (users : JsMap Contributor) :
  deduplicateAndRecalculate (deduplicateAndRecalculate users) =
  deduplicateAndRecalculate users.
Proof.
  unfold deduplicateAndRecalculate.
  rewrite <- list_fmap_compose.
  apply list_fmap_ext. intros i [k user] _. simpl.
  by rewrite recalculate_idempotent.
Qed.

(** *** Merging a prior snapshot *)

Lemma map_get_recalculated users k :
  map_get (deduplicateAndRecalculate users) k = recalculate <$> map_get users k.
Proof.
  unfold deduplicateAndRecalculate.
  induction users as [|[k' u] r IH]; csimpl; [done|].
  by destruct (decide (k = k')).
Qed.

Lemma merge_existing_entry_other users entry k :
  k ≠ username entry ->
  map_get (merge_existing_entry users entry) k = map_get users k.
Proof.
  intros Hne. unfold merge_existing_entry.
  rewrite map_get_mutate_ne by done.
  destruct (map_has users (username entry)); [done|].
  by rewrite map_get_set_ne.
Qed.

Lemma merge_existing_entry_new users entry :
  map_get users (username entry) = None ->
  exists user,
    map_get (merge_existing_entry users entry) (username entry) = Some user /\
    username user = username entry /\
    raw_activities user = raw_activities entry.
Proof.
  intros Hnone. unfold merge_existing_entry, map_has. rewrite Hnone.
  rewrite map_get_mutate_eq, map_get_set_eq. simpl. eauto.
Qed.

Lemma merge_existing_others users prior k :
  k ∉ username <$> prior ->
  map_get (foldl merge_existing_entry users prior) k = map_get users k.
Proof.
  revert users. induction prior as [|e r IH]; intros users Hk; simpl; [done|].
  csimpl in Hk. apply not_elem_of_cons in Hk as [Hne Hk].
  rewrite IH by done. by apply merge_existing_entry_other.
Qed.

Lemma merge_existing_fresh users prior entry :
  NoDup (username <$> prior) ->
  (forall e, e ∈ prior -> map_get users (username e) = None) ->
  entry ∈ prior ->
  exists user,
    map_get (foldl merge_existing_entry users prior) (username entry) = Some user /\
    username user = username entry /\
    raw_activities user = raw_activities entry.
Proof.
  revert users. induction prior as [|e r IH]; intros users Hnd Hnew Hin.
  - by apply elem_of_nil in Hin.
  - csimpl in Hnd. apply NoDup_cons in Hnd as [He Hnd]. simpl.
    apply elem_of_cons in Hin as [->|Hin].
    + rewrite merge_existing_others by done.
      apply merge_existing_entry_new, Hnew, elem_of_cons. by left.
    + apply IH; [done| |done].
      intros e' He'. rewrite merge_existing_entry_other.
      * apply Hnew, elem_of_cons. by right.
      * intros Heq. apply He. rewrite <- Heq. by apply list_elem_of_fmap_2.
Qed.

(** A year snapshot as a run leaves it: one entry per handle, no two
    activities of an entry under the same key, and every [total_points]
    the sum of the points of the entry's activities. *)
Definition deduplicated_snapshot (prior : YearData) : Prop :=
  NoDup (username <$> entries prior) /\
  Forall (fun entry =>
            NoDup (act_key <$> raw_activities entry) /\
            total_points entry = sum_points (raw_activities entry))
    (entries prior).

(** C3.  Merging a deduplicated prior snapshot into an empty map of
    contributors (an incremental run in which nothing new was fetched) and
    recalculating gives every contributor of the snapshot the activities
    and the [total_points] the snapshot had. *)
Theorem replay_reproduces_totals (prior : YearData) (entry : Contributor) :
  deduplicated_snapshot prior ->
  entry ∈ entries prior ->
  exists user,
    map_get (deduplicateAndRecalculate (mergeExistingActivities [] (Some prior)))
      (username entry) = Some user /\
    raw_activities user = raw_activities entry /\
    total_points user = total_points entry.
Proof.
  intros [Hnd Hent] Hin.
  destruct (merge_existing_fresh [] (entries prior) entry Hnd) as (u & Hget & _ & Hraw);
    [done|done|].
  destruct (proj1 (Forall_forall _ _) Hent entry Hin) as [Hkeys Htotal].
  exists (recalculate u). rewrite map_get_recalculated. simpl. rewrite Hget. simpl.
  assert (dedup ∅ (raw_activities u) = raw_activities entry) as Hdedup.
  { rewrite Hraw. apply dedup_id; [done|]. intros a _. apply not_elem_of_empty. }
  split; [done|]. split.
  - by rewrite recalculate_fields.
  - by rewrite recalculate_total, Hdedup.
Qed.

(** *** Derived periods *)


(** The contributor has an activity in the window. *)
Definition active_since (cut : Z) (entry : Contributor) : bool :=
  existsb (fun a => date_ge (occured_at a) cut) (raw_activities entry).

Definition window_of (cut : Z) (entry : Contributor) : list RawActivity :=
  filter (fun a => date_ge (occured_at a) cut = true) (raw_activities entry).


Lemma window_empty_inactive cut entry :
  window_of cut entry = [] <-> active_since cut entry = false.
Proof.
  unfold window_of, active_since.
  induction (raw_activities entry) as [|a r IH]; [done|].
  rewrite filter_cons. simpl.
  destruct (date_ge (occured_at a) cut) eqn:Ha; simpl; [|done].
  split; discriminate.
Qed.

Lemma period_tally_sums acts acc :
  let r := foldl period_tally acc acts in
  r.1.1 = acc.1.1 + sum_points acts /\
  breakdown_points r.1.2 = breakdown_points acc.1.2 + sum_points acts /\
  daily_points r.2 = daily_points acc.2 + sum_points acts /\
  breakdown_count r.1.2 = breakdown_count acc.1.2 + Z.of_nat (length acts) /\
  daily_count r.2 = daily_count acc.2 + Z.of_nat (length acts).
Proof.
  revert acc. induction acts as [|a rest IH]; intros acc.
  - simpl. lia.
  - change (foldl period_tally acc (a :: rest))
      with (foldl period_tally (period_tally acc a) rest).
    destruct (IH (period_tally acc a)) as (H1 & H2 & H3 & H4 & H5).
    cbv zeta. rewrite H1, H2, H3, H4, H5.
    destruct acc as [[total breakdown] daily]. simpl length. simpl.
    rewrite breakdown_points_bump, daily_points_bump_day,
      breakdown_count_bump, daily_count_bump_day. lia.
Qed.

Lemma derive_entry_None cut entry :
  derive_entry cut entry = None <-> active_since cut entry = false.
Proof.
  rewrite <- window_empty_inactive. unfold derive_entry, window_of.
  destruct (filter _ (raw_activities entry)) as [|a acts]; simpl; [done|].
  by destruct (foldl period_tally _ acts) as [[? ?] ?].
Qed.

Lemma derive_entry_Some cut entry e :
  derive_entry cut entry = Some e ->
  ue_username e = username entry /\
  ue_activities e = window_of cut entry /\
  ue_activities e ≠ [] /\
  ue_total_points e = sum_points (ue_activities e) /\
  breakdown_points (ue_activity_breakdown e) = sum_points (ue_activities e) /\
  daily_points (ue_daily_activity e) = sum_points (ue_activities e) /\
  breakdown_count (ue_activity_breakdown e) = Z.of_nat (length (ue_activities e)) /\
  daily_count (ue_daily_activity e) = Z.of_nat (length (ue_activities e)).
Proof.
  unfold derive_entry, window_of.
  destruct (filter _ (raw_activities entry)) as [|a acts] eqn:Hacts; [done|].
  pose proof (period_tally_sums (a :: acts) (0, [], [])) as Hs.
  cbv zeta in Hs.
  destruct (foldl period_tally (0, [], []) (a :: acts)) as [[total breakdown] daily].
  cbn [fst snd sum_points foldr breakdown_points breakdown_count daily_points daily_count] in Hs.
  cbn [length Nat.eqb]. intros [= <-]. cbn [ue_username ue_activities ue_total_points
    ue_activity_breakdown ue_daily_activity].
  destruct Hs as (? & ? & ? & ? & ?).
  repeat split; try done; lia.
Qed.



(** *** What a contributor has been credited *)

(** The activities and the points recorded for a handle. *)
Definition log_of (users : JsMap Contributor) (handle : string) : list RawActivity :=
  from_option raw_activities [] (map_get users handle).

Definition score_of (users : JsMap Contributor) (handle : string) : Z :=
  from_option total_points 0 (map_get users handle).

Lemma ensureUser_found users user : is_Some (map_get (ensureUser users user) (login user)).
Proof.
  unfold ensureUser, map_has.
  destruct (map_get users (login user)) eqn:Hget.
  - by rewrite Hget.
  - by rewrite map_get_set_eq.
Qed.

Lemma log_of_ensureUser users user h : log_of (ensureUser users user) h = log_of users h.
Proof.
  unfold log_of, ensureUser, map_has.
  destruct (map_get users (login user)) eqn:Hget; [done|].
  destruct (decide (login user = h)) as [<-|Hne].
  - by rewrite map_get_set_eq, Hget.
  - by rewrite map_get_set_ne.
Qed.

Lemma score_of_ensureUser users user h : score_of (ensureUser users user) h = score_of users h.
Proof.
  unfold score_of, ensureUser, map_has.
  destruct (map_get users (login user)) eqn:Hget; [done|].
  destruct (decide (login user = h)) as [<-|Hne].
  - by rewrite map_get_set_eq, Hget.
  - by rewrite map_get_set_ne.
Qed.

Lemma log_of_addActivity users k type date pts title link :
  is_Some (map_get users k) ->
  log_of (map_mutate users k (fun entry => addActivity entry type date pts title link)) k =
  log_of users k ++
    [{| act_type := type; occured_at := date;
        act_title := of_option (sanitizeTitle title);
        act_link := of_option link; act_points := pts |}].
Proof.
  intros [u Hu]. unfold log_of. by rewrite map_get_mutate_eq, Hu.
Qed.

Lemma score_of_addActivity users k type date pts title link :
  is_Some (map_get users k) ->
  score_of (map_mutate users k (fun entry => addActivity entry type date pts title link)) k =
  score_of users k + pts.
Proof.
  intros [u Hu]. unfold score_of. by rewrite map_get_mutate_eq, Hu.
Qed.

Lemma log_of_mutate_other users k h f :
  k ≠ h -> log_of (map_mutate users k f) h = log_of users h.
Proof. intros Hne. unfold log_of. by rewrite map_get_mutate_ne. Qed.

Lemma score_of_mutate_other users k h f :
  k ≠ h -> score_of (map_mutate users k f) h = score_of users h.
Proof. intros Hne. unfold score_of. by rewrite map_get_mutate_ne. Qed.

Lemma log_of_credit users user type date title link :
  log_of (credit users user type date title link) (login user) =
  log_of users (login user) ++
    [{| act_type := type; occured_at := date;
        act_title := of_option (sanitizeTitle title);
        act_link := of_option link; act_points := POINTS type |}].
Proof.
  unfold credit. rewrite log_of_addActivity by apply ensureUser_found.
  by rewrite log_of_ensureUser.
Qed.

Lemma log_of_credit_other users user type date title link h :
  login user ≠ h ->
  log_of (credit users user type date title link) h = log_of users h.
Proof.
  intros Hne. unfold credit.
  by rewrite log_of_mutate_other, log_of_ensureUser.
Qed.

(** *** Label events *)

Lemma isAutomatedLabel_spec labelName :
  isAutomatedLabel labelName = true <->
  exists auto, auto ∈ automatedLabels /\ includes (toLowerCase labelName) auto = true.
Proof.
  unfold isAutomatedLabel. rewrite existsb_exists.
  assert (forall auto, auto ∈ automatedLabels -> toLowerCase auto = auto) as Hlower.
  { intros auto Hin. unfold automatedLabels in Hin.
    repeat (apply elem_of_cons in Hin as [->|Hin]; [done|]).
    by apply elem_of_nil in Hin. }
  split.
  - intros (auto & Hin%list_elem_of_In & Hinc). exists auto.
    by rewrite <- (Hlower auto Hin) at 2.
  - intros (auto & Hin & Hinc). exists auto.
    rewrite (Hlower auto Hin). split; [by apply list_elem_of_In|done].
Qed.

(** The label of the event is one that [isAutomatedLabel] rejects, or
    the event names no label. *)
Definition automated_label (ev : GitHubIssueEvent) : Prop :=
  exists labelName auto,
    event_label ev = Some labelName /\
    auto ∈ automatedLabels /\
    includes (toLowerCase labelName) auto = true.

Definition unnamed_label (ev : GitHubIssueEvent) : Prop :=
  event_label ev = None \/ event_label ev = Some "".

Definition labeled_activity (issue : GitHubSearchItem) (issueNumber : string)
    (ev : GitHubIssueEvent) (labelName : string) : RawActivity :=
  {| act_type := Issue_labeled;
     occured_at := event_created_at ev;
     act_title :=
       of_option (sanitizeTitle
                    (Some ("Labeled issue #" +:+ issueNumber +:+ ": " +:+ labelName)));
     act_link := val (html_url issue);
     act_points := 2 |}.

(** C7, as the code has it.  A ["labeled"] event of an actor that is not a
    bot, dated inside the fetch window, leaves the activities and the
    points of every contributor as they were exactly when its label is
    missing or empty or contains, whatever the case, one of [stale],
    [wontfix], [duplicate], [invalid], [dependencies], [security],
    [github_actions]; otherwise it adds to its actor one
    ["Issue labeled"] activity of 2 points. *)
Theorem labeled_event_scoring (since now : Z) (issue : GitHubSearchItem)
    (issueNumber : string) (users : JsMap Contributor) (ev : GitHubIssueEvent) :
  event ev = "labeled" ->
  isBotUser (actor ev) = false ->
  date_lt (event_created_at ev) since = false ->
  date_gt (event_created_at ev) now = false ->
  let users' := triage_event since now issue issueNumber users ev in
  (automated_label ev \/ unnamed_label ev ->
     forall h, log_of users' h = log_of users h /\ score_of users' h = score_of users h) /\
  (~ (automated_label ev \/ unnamed_label ev) ->
     exists labelName,
       event_label ev = Some labelName /\
       log_of users' (login (actor ev)) =
         log_of users (login (actor ev)) ++ [labeled_activity issue issueNumber ev labelName] /\
       score_of users' (login (actor ev)) = score_of users (login (actor ev)) + 2).
Proof.
  intros Hev Hbot Hlt Hgt. cbv zeta. unfold triage_event.
  assert (truthy (login (actor ev)) = true) as Hlogin.
  { unfold isBotUser in Hbot. by destruct (truthy (login (actor ev))). }
  rewrite Hlogin, Hbot, Hlt, Hgt, Hev. simpl.
  unfold automated_label, unnamed_label.
  destruct (event_label ev) as [labelName|] eqn:Hlabel.
  - destruct (truthy labelName) eqn:Hname; simpl.
    + destruct (isAutomatedLabel labelName) eqn:Hauto; simpl.
      * split.
        -- intros _ h. by rewrite log_of_ensureUser, score_of_ensureUser.
        -- intros Hnot. exfalso. apply Hnot. left.
           apply isAutomatedLabel_spec in Hauto as (auto & ? & ?).
           by exists labelName, auto.
      * split.
        -- intros [(l & auto & [= <-] & Hin & Hinc)|[?|[= ->]]]; [|done|done].
           assert (isAutomatedLabel labelName = true) as Htrue
             by (apply isAutomatedLabel_spec; eauto).
           congruence.
        -- intros _. exists labelName. split; [done|].
           rewrite log_of_addActivity, score_of_addActivity by apply ensureUser_found.
           by rewrite log_of_ensureUser, score_of_ensureUser.
    + split.
      * intros _ h. by rewrite log_of_ensureUser, score_of_ensureUser.
      * intros Hnot. exfalso. apply Hnot. right. right.
        destruct labelName; [done|discriminate].
  - split.
    + intros _ h. by rewrite log_of_ensureUser, score_of_ensureUser.
    + intros Hnot. exfalso. apply Hnot. right. by left.
Qed.

(** *** Reviews *)

(** The reviews in the order in which the loops of [fetchAllReviews] take
    them, each with its repository and pull request. *)
Definition ReviewItem : Type := string * GitHubPR * GitHubReview.

Definition pr_items (repoName : string) (result : GitHubPR * list GitHubReview) : list ReviewItem :=
  (fun review => (repoName, result.1, review)) <$> result.2.

Definition repo_items (repo : RepoReviews) : list ReviewItem :=
  repo.2 ≫= pr_items repo.1.

Definition review_items (allRepos : list RepoReviews) : list ReviewItem :=
  allRepos ≫= repo_items.

Definition item_step (since now : Z) (st : ReviewState) (item : ReviewItem) : ReviewState :=
  review_step since now item.1.1 item.1.2 st item.2.

(** The reviewer, the repository and the number of the pull request. *)
Definition review_triple (item : ReviewItem) : string * string * Z :=
  (login (review_user item.2), item.1.1, number item.1.2).

Definition item_key (item : ReviewItem) : string := dedupKey item.2 item.1.1 item.1.2.

(** The reviews for which [addActivity] is called, given the keys seen
    so far. *)
Fixpoint counted_reviews (since now : Z) (seen : gset string) (items : list ReviewItem)
    : list ReviewItem :=
  match items with
  | [] => []
  | item :: rest =>
      if qualifying_review since now item.1.2 item.2 then
        if decide (item_key item ∈ seen) then counted_reviews since now seen rest
        else item :: counted_reviews since now ({[item_key item]} ∪ seen) rest
      else counted_reviews since now seen rest
  end.

(** The ["Review submitted"] activities recorded for a handle. *)
Definition reviews_of (users : JsMap Contributor) (handle : string) : list RawActivity :=
  filter (fun a => act_type a = Review_submitted) (log_of users handle).

Lemma review_loops_items since now allRepos st :
  review_loops since now allRepos st = foldl (item_step since now) st (review_items allRepos).
Proof.
  unfold review_loops, review_items. rewrite foldl_bind.
  apply foldl_ext_all. intros st' repo.
  unfold review_repo, repo_items.
  rewrite foldl_chunk by (unfold BATCH_SIZE; lia).
  rewrite foldl_bind.
  apply foldl_ext_all. intros st'' result.
  unfold review_pr, pr_items. by rewrite foldl_fmap.
Qed.

Lemma counted_reviews_fresh since now seen items item :
  item ∈ counted_reviews since now seen items -> item_key item ∉ seen.
Proof.
  revert seen. induction items as [|i rest IH]; intros seen; simpl.
  - by intros ?%elem_of_nil.
  - destruct (qualifying_review since now i.1.2 i.2); [|by apply IH].
    destruct (decide (item_key i ∈ seen)); [by apply IH|].
    intros [->|Hin]%elem_of_cons; [done|].
    apply IH in Hin. intros Hseen. apply Hin, elem_of_union. by right.
Qed.

Lemma counted_reviews_keys_NoDup since now seen items :
  NoDup (item_key <$> counted_reviews since now seen items).
Proof.
  revert seen. induction items as [|i rest IH]; intros seen; simpl; [constructor|].
  destruct (qualifying_review since now i.1.2 i.2); [|by apply IH].
  destruct (decide (item_key i ∈ seen)); [by apply IH|].
  csimpl. apply NoDup_cons. split; [|apply IH].
  intros (j & Heq & Hin)%list_elem_of_fmap.
  apply counted_reviews_fresh in Hin. apply Hin, elem_of_union. left.
  apply elem_of_singleton. congruence.
Qed.

Definition key_of_triple (t : string * string * Z) : string :=
  t.1.1 +:+ ":" +:+ t.1.2 +:+ ":" +:+ template_num t.2.

Lemma counted_reviews_triples_NoDup since now seen items :
  NoDup (review_triple <$> counted_reviews since now seen items).
Proof.
  apply (NoDup_fmap_1 key_of_triple). rewrite <- list_fmap_compose.
  apply counted_reviews_keys_NoDup.
Qed.

Lemma reviews_of_credit users user date title link h :
  reviews_of (credit users user Review_submitted date title link) h =
  reviews_of users h ++
    (if decide (login user = h)
     then [{| act_type := Review_submitted; occured_at := date;
              act_title := of_option (sanitizeTitle title);
              act_link := of_option link; act_points := 4 |}]
     else []).
Proof.
  unfold reviews_of. destruct (decide (login user = h)) as [<-|Hne].
  - rewrite log_of_credit, filter_app. f_equal.
  - rewrite log_of_credit_other by done. by rewrite app_nil_r.
Qed.

Definition review_activity (item : ReviewItem) : RawActivity :=
  {| act_type := Review_submitted;
     occured_at := submitted_at item.2;
     act_title := of_option (sanitizeTitle (Some (review_title item.1.2)));
     act_link := val (review_link item.1.1 item.1.2);
     act_points := 4 |}.

Lemma item_steps_reviews since now items st h :
  reviews_of (foldl (item_step since now) st items).1 h =
  reviews_of st.1 h ++
    (review_activity <$>
       filter (fun item => login (review_user item.2) = h)
         (counted_reviews since now st.2 items)).
Proof.
  revert st. induction items as [|i rest IH]; intros st.
  - simpl. by rewrite app_nil_r.
  - change (foldl (item_step since now) st (i :: rest))
      with (foldl (item_step since now) (item_step since now st i) rest).
    rewrite IH. clear IH. unfold item_step, review_step.
    cbn [counted_reviews]. fold (item_key i).
    destruct (qualifying_review since now i.1.2 i.2); [|done].
    destruct (decide (item_key i ∈ st.2)); [done|]. cbn [fst snd].
    rewrite reviews_of_credit, filter_cons.
    destruct (decide (login (review_user i.2) = h)); csimpl.
    + by rewrite <- app_assoc.
    + by rewrite app_nil_r.
Qed.

(** C10.  In a run of [fetchAllReviews] a review whose reviewer,
    repository and pull request have already been counted leaves the
    contributors as they are, and a qualifying review is remembered as
    counted from then on; the reviews that are counted have pairwise
    distinct (reviewer, repository, pull request number); and the
    ["Review submitted"] activities a handle gains are exactly those of the
    counted reviews of that reviewer, one each. *)
Theorem one_review_per_reviewer_and_pr (users : JsMap Contributor) (since now : Z)
    (allRepos : list RepoReviews) :
  let counted := counted_reviews since now ∅ (review_items allRepos) in
  (forall st repoName pr review,
     dedupKey review repoName pr ∈ st.2 ->
     review_step since now repoName pr st review = st) /\
  (forall st repoName pr review,
     qualifying_review since now pr review = true ->
     dedupKey review repoName pr ∈ (review_step since now repoName pr st review).2) /\
  NoDup (review_triple <$> counted) /\
  (forall h,
     reviews_of (fetchAllReviews users since now allRepos) h =
     reviews_of users h ++
       (review_activity <$> filter (fun item => login (review_user item.2) = h) counted)).
Proof.
  cbv zeta. split; [|split; [|split]].
  - intros st repoName pr review Hseen. unfold review_step.
    destruct (qualifying_review since now pr review); [|done].
    by rewrite decide_True.
  - intros st repoName pr review Hq. unfold review_step. rewrite Hq.
    destruct (decide (dedupKey review repoName pr ∈ st.2)); [done|].
    simpl. apply elem_of_union. left. by apply elem_of_singleton.
  - apply counted_reviews_triples_NoDup.
  - intros h. unfold fetchAllReviews.
    rewrite review_loops_items. apply item_steps_reviews.
Qed.

(** *** Who gets an entry *)

Lemma handles_ensureUser users user h :
  h ∈ handles (ensureUser users user) -> h ∈ handles users \/ h = login user.
Proof.
  unfold ensureUser. destruct (map_has users (login user)); [by left|].
  by intros ?%handles_set.
Qed.

Lemma handles_credit users user type date title link h :
  h ∈ handles (credit users user type date title link) ->
  h ∈ handles users \/ h = login user.
Proof.
  unfold credit. rewrite handles_mutate by done. apply handles_ensureUser.
Qed.

Lemma handles_merge_existing_entry users entry h :
  h ∈ handles (merge_existing_entry users entry) ->
  h ∈ handles users \/ h = username entry.
Proof.
  unfold merge_existing_entry. rewrite handles_mutate by done.
  destruct (map_has users (username entry)); [by left|].
  by intros ?%handles_set.
Qed.

Lemma handles_recalculated users :
  handles (deduplicateAndRecalculate users) = handles users.
Proof.
  unfold handles, map_values, deduplicateAndRecalculate.
  rewrite <- !list_fmap_compose. apply list_fmap_ext.
  intros i [k u] _. simpl. by rewrite recalculate_fields.
Qed.

(** The handles for which a predicate holds. *)
Definition all_handles (Q : string -> Prop) (users : JsMap Contributor) : Prop :=
  forall h, h ∈ handles users -> Q h.

Lemma credit_created_handles Q type users item :
  (isBotUser (item_user item) = false -> Q (login (item_user item))) ->
  all_handles Q users -> all_handles Q (credit_created type users item).
Proof.
  intros Hq Hu h. unfold credit_created.
  destruct (isBotUser (item_user item)); [apply Hu|].
  intros [?| ->]%handles_credit; [by apply Hu|by apply Hq].
Qed.

Lemma credit_merged_handles Q users pr users' :
  (isBotUser (item_user pr) = false -> Q (login (item_user pr))) ->
  all_handles Q users -> credit_merged users pr = Some users' -> all_handles Q users'.
Proof.
  intros Hq Hu. unfold credit_merged.
  destruct (isBotUser (item_user pr)); [by intros [= <-]|].
  destruct (closed_at pr); [|done]. intros [= <-] h.
  intros [?| ->]%handles_credit; [by apply Hu|by apply Hq].
Qed.

Lemma qualifying_review_not_bot since now pr review :
  qualifying_review since now pr review = true -> isBotUser (review_user review) = false.
Proof.
  unfold qualifying_review, isBotUser.
  destruct (negb (truthy (login (review_user review)))); [done|].
  destruct (endsWith (login (review_user review)) "[bot]"); [done|].
  by destruct (match gh_type (review_user review) with Some _ => _ | None => _ end).
Qed.

Lemma item_step_handles Q since now st item :
  (isBotUser (review_user item.2) = false -> Q (login (review_user item.2))) ->
  all_handles Q st.1 -> all_handles Q (item_step since now st item).1.
Proof.
  intros Hq Hu h. unfold item_step, review_step.
  destruct (qualifying_review since now item.1.2 item.2) eqn:Hqual; [|apply Hu].
  destruct (decide (_ ∈ st.2)); [apply Hu|]. simpl.
  intros [?| ->]%handles_credit; [by apply Hu|].
  by eapply Hq, qualifying_review_not_bot.
Qed.

Lemma triage_event_handles Q since now issue issueNumber users ev :
  (isBotUser (actor ev) = false -> Q (login (actor ev))) ->
  all_handles Q users -> all_handles Q (triage_event since now issue issueNumber users ev).
Proof.
  intros Hq Hu. unfold triage_event.
  destruct (negb (truthy (login (actor ev))) || isBotUser (actor ev)) eqn:Hbot; [done|].
  apply orb_false_iff in Hbot as [_ Hbot].
  destruct (_ || _); [done|].
  assert (all_handles Q (ensureUser users (actor ev))) as Hens.
  { intros h [?| ->]%handles_ensureUser; [by apply Hu|by apply Hq]. }
  assert (forall type title,
            all_handles Q
              (map_mutate (ensureUser users (actor ev)) (login (actor ev))
                 (fun entry => addActivity entry type (event_created_at ev) (POINTS type)
                                 (Some title) (Some (html_url issue))))) as Hadd.
  { intros type title h. rewrite handles_mutate by done. apply Hens. }
  repeat (first [done | apply Hadd | case_match]).
Qed.

(** The actor objects of what was fetched. *)
Definition issue_actors (fetched : IssueEvents) : list GitHubUser :=
  actor <$> default [] fetched.2.

Definition actors (fetched : Fetched) : list GitHubUser :=
  (item_user <$> prs_opened fetched) ++
  (item_user <$> prs_merged fetched) ++
  (item_user <$> issues_opened fetched) ++
  ((fun item : ReviewItem => review_user item.2) <$> review_items (repo_reviews fetched)) ++
  (updated_issues fetched ≫= issue_actors).

(** The handle is that of an actor object that [isBotUser] lets pass. *)
Definition human_actor (fetched : Fetched) (h : string) : Prop :=
  exists user, user ∈ actors fetched /\ login user = h /\ isBotUser user = false.

(** The handle has an entry in the prior snapshot that the run merges. *)
Definition carried_over (existing : option YearData) (h : string) : Prop :=
  exists data entry,
    existing = Some data /\ is_Some (lastFetchedAt data) /\
    entry ∈ entries data /\ username entry = h.

Lemma collect_handles clock existing fetched users :
  collect clock existing fetched = Some users ->
  all_handles (fun h => human_actor fetched h \/ carried_over existing h) users.
Proof.
  unfold collect.
  set (Q := fun h => human_actor fetched h \/ carried_over existing h).
  set (since := since_of clock existing).
  assert (forall user, user ∈ actors fetched -> isBotUser user = false -> Q (login user))
    as Hactor.
  { intros user Hin Hbot. left. by exists user. }
  unfold actors in Hactor. setoid_rewrite elem_of_app in Hactor.
  setoid_rewrite elem_of_app in Hactor. setoid_rewrite elem_of_app in Hactor.
  setoid_rewrite elem_of_app in Hactor.
  assert (all_handles Q (foldl (credit_created PR_opened) [] (prs_opened fetched))) as H1.
  { apply (foldl_invariant (all_handles Q)).
    - by intros h ?%elem_of_nil.
    - intros s x Hx Hs. apply credit_created_handles; [|done].
      apply Hactor. left. by apply list_elem_of_fmap_2. }
  revert H1. generalize (foldl (credit_created PR_opened) [] (prs_opened fetched)).
  intros users1 H1.
  assert (forall acc, acc = foldl (fun acc pr => acc ≫= fun users => credit_merged users pr)
                               (Some users1) (prs_merged fetched) ->
                      forall users2, acc = Some users2 -> all_handles Q users2) as H2.
  { intros acc ->.
    apply (foldl_invariant (fun acc => forall users2, acc = Some users2 -> all_handles Q users2)).
    - by intros ? [= <-].
    - intros [s|] x Hx Hs users2; simpl; [|done].
      intros Hm. eapply credit_merged_handles; [| |done]; [|by apply Hs].
      apply Hactor. right. left. by apply list_elem_of_fmap_2. }
  destruct (foldl _ (Some users1) (prs_merged fetched)) as [users2|]; [|done].
  specialize (H2 _ eq_refl _ eq_refl). simpl.
  intros [= <-]. intros h. rewrite handles_recalculated. revert h.
  change (all_handles Q
    (if isIncremental existing
     then mergeExistingActivities
            (fetchIssueTriagingActivities
               (fetchAllReviews (foldl (credit_created Issue_opened) users2 (issues_opened fetched))
                  since (now clock) (repo_reviews fetched))
               since (now clock) (updated_issues fetched)) existing
     else fetchIssueTriagingActivities
            (fetchAllReviews (foldl (credit_created Issue_opened) users2 (issues_opened fetched))
               since (now clock) (repo_reviews fetched))
            since (now clock) (updated_issues fetched))).
  assert (all_handles Q (foldl (credit_created Issue_opened) users2 (issues_opened fetched))) as H3.
  { apply (foldl_invariant (all_handles Q)); [done|].
    intros s x Hx Hs. apply credit_created_handles; [|done].
    apply Hactor. right. right. left. by apply list_elem_of_fmap_2. }
  revert H3. generalize (foldl (credit_created Issue_opened) users2 (issues_opened fetched)).
  intros users3 H3.
  assert (all_handles Q (fetchAllReviews users3 since (now clock) (repo_reviews fetched))) as H4.
  { unfold fetchAllReviews. rewrite review_loops_items.
    apply (foldl_invariant (fun st : ReviewState => all_handles Q st.1)); [done|].
    intros s x Hx Hs. apply item_step_handles; [|done].
    apply Hactor. right. right. right. left.
    by apply (list_elem_of_fmap_2 (fun item : ReviewItem => review_user item.2)). }
  revert H4. generalize (fetchAllReviews users3 since (now clock) (repo_reviews fetched)).
  intros users4 H4.
  assert (all_handles Q (fetchIssueTriagingActivities users4 since (now clock)
                           (updated_issues fetched))) as H5.
  { unfold fetchIssueTriagingActivities. rewrite foldl_chunk by lia.
    apply (foldl_invariant (all_handles Q)); [done|].
    intros s x Hx Hs. unfold processIssueTriagingEvents.
    destruct (parse_issue_url _) as [[repoName issueNumber]|]; [|done].
    destruct x.2 as [events|] eqn:Hev; [|done].
    apply (foldl_invariant (all_handles Q)); [done|].
    intros s' ev Hin Hs'. apply triage_event_handles; [|done].
    apply Hactor. right. right. right. right.
    apply list_elem_of_bind. exists x. split; [|done].
    unfold issue_actors. rewrite Hev. by apply list_elem_of_fmap_2. }
  revert H5. generalize (fetchIssueTriagingActivities users4 since (now clock)
                           (updated_issues fetched)).
  intros users5 H5.
  destruct (isIncremental existing) eqn:Hinc; [|done].
  unfold mergeExistingActivities. destruct existing as [data|]; [|done].
  apply (foldl_invariant (all_handles Q)); [done|].
  intros s entry Hin Hs h [?| ->]%handles_merge_existing_entry; [by apply Hs|].
  right. exists data, entry. repeat split; try done.
  simpl in Hinc. by apply bool_decide_eq_true in Hinc.
Qed.

Lemma year_entries_handles users h :
  h ∈ username <$> year_entries users -> h ∈ handles users.
Proof.
  unfold year_entries, handles.
  intros (u & -> & Hu)%list_elem_of_fmap.
  apply elem_of_js_sort, list_elem_of_filter in Hu as [_ Hu].
  by apply list_elem_of_fmap_2.
Qed.

Lemma derivePeriod_handles source days clock period h :
  h ∈ ue_username <$> pd_entries (derivePeriod source days clock period) ->
  h ∈ username <$> entries source.
Proof.
  unfold derivePeriod. simpl.
  intros (e & -> & He)%list_elem_of_fmap.
  apply elem_of_js_sort, list_elem_of_omap in He as (c & Hc & Hd).
  apply derive_entry_Some in Hd as (-> & _). by apply list_elem_of_fmap_2.
Qed.

Lemma recent_step_items cut entry groups act x :
  x ∈ feed_items (recent_step cut entry groups act) ->
  x ∈ feed_items groups \/ x = recent_item entry act.
Proof.
  unfold recent_step. destruct (date_lt _ cut); [by left|].
  set (day := split_head "T"%char (occured_at act)).
  assert (forall y, y ∈ feed_items (map_set groups day (default [] (map_get groups day))) ->
                    y ∈ feed_items groups) as Hset.
  { intros y [?|Hy]%feed_items_set; [done|].
    destruct (map_get groups day) as [v|] eqn:Hget; simpl in Hy.
    - eapply feed_items_elem; [|done]. by apply map_get_elem_of.
    - by apply elem_of_nil in Hy. }
  intros [?|(v & Hv & Hx)]%feed_items_mutate; [left; by apply Hset|].
  apply elem_of_app in Hx as [Hx|Hx%list_elem_of_singleton]; [|by right].
  left. apply Hset. by eapply feed_items_elem.
Qed.

Lemma recent_handles source days started written h :
  h ∈ rai_username <$>
      feed_items (groups (generateRecentActivities source days started written)) ->
  h ∈ username <$> entries source.
Proof.
  unfold generateRecentActivities. simpl.
  intros (x & -> & Hx)%list_elem_of_fmap. revert x Hx.
  apply (foldl_invariant
           (fun groups => forall x, x ∈ feed_items groups ->
                                    rai_username x ∈ username <$> entries source)).
  - by intros x ?%elem_of_nil.
  - intros groups entry Hentry Hgroups.
    apply (foldl_invariant
             (fun groups => forall x, x ∈ feed_items groups ->
                                      rai_username x ∈ username <$> entries source));
      [done|].
    intros groups' act _ Hgroups' x [?| ->]%recent_step_items; [by apply Hgroups'|].
    simpl. by apply list_elem_of_fmap_2.
Qed.

(** The handles that appear in the files of a run. *)
Definition output_handles (out : Output) : list string :=
  (username <$> entries (year out)) ++
  (ue_username <$> pd_entries (week out)) ++
  (ue_username <$> pd_entries (month out)) ++
  (rai_username <$> feed_items (groups (recent out))).

Lemma generateYear_handles clock existing fetched out h :
  generateYear clock existing fetched = Some out ->
  h ∈ output_handles out ->
  human_actor fetched h \/ carried_over existing h.
Proof.
  unfold generateYear.
  destruct (collect clock existing fetched) as [users|] eqn:Hcollect; [|done].
  cbn [mbind option_bind]. intros [= <-]. unfold output_handles.
  cbn [year week month recent].
  pose proof (collect_handles _ _ _ _ Hcollect) as Hall.
  rewrite !elem_of_app.
  intros [Hy|[Hw|[Hm|Hr]]].
  - by apply Hall, year_entries_handles.
  - apply derivePeriod_handles in Hw. by apply Hall, year_entries_handles.
  - apply derivePeriod_handles in Hm. by apply Hall, year_entries_handles.
  - apply recent_handles in Hr. by apply Hall, year_entries_handles.
Qed.

(** The cursor a run writes is the clock reading taken when [yearData]
    is built. *)
Lemma generateYear_cursor clock existing fetched out :
  generateYear clock existing fetched = Some out ->
  lastFetchedAt (year out) = Some (fetched_now clock).
Proof.
  unfold generateYear.
  destruct (collect clock existing fetched) as [users|]; [|done].
  by intros [= <-].
Qed.

(** *** The snapshot a run writes is deduplicated *)

Lemma keyed_ensureUser users user : keyed users -> keyed (ensureUser users user).
Proof.
  intros Hk. unfold ensureUser, map_has.
  destruct (map_get users (login user)) eqn:Hget; [done|]. by apply keyed_set.
Qed.

Lemma keyed_credit users user type date title link :
  keyed users -> keyed (credit users user type date title link).
Proof. intros Hk. unfold credit. by apply keyed_mutate, keyed_ensureUser. Qed.

Lemma keyed_triage_event since now issue issueNumber users ev :
  keyed users -> keyed (triage_event since now issue issueNumber users ev).
Proof.
  intros Hk. unfold triage_event.
  pose proof (keyed_ensureUser users (actor ev) Hk) as Hens.
  repeat (first [done | apply keyed_mutate | case_match]).
Qed.

Lemma keyed_merge_existing_entry users entry :
  keyed users -> keyed (merge_existing_entry users entry).
Proof.
  intros Hk. unfold merge_existing_entry, map_has. apply keyed_mutate; [done|].
  destruct (map_get users (username entry)) eqn:Hget; [done|]. by apply keyed_set.
Qed.

Lemma keyed_recalculated users : keyed users -> keyed (deduplicateAndRecalculate users).
Proof.
  intros [Hnd Hh]. unfold keyed. rewrite handles_recalculated, Hh.
  assert (map_keys (deduplicateAndRecalculate users) = map_keys users) as ->; [|done].
  unfold map_keys, deduplicateAndRecalculate. by rewrite <- list_fmap_compose.
Qed.

Lemma collect_keyed clock existing fetched users :
  collect clock existing fetched = Some users -> keyed users.
Proof.
  unfold collect.
  assert (keyed (foldl (credit_created PR_opened) [] (prs_opened fetched))) as H1.
  { apply (foldl_preserves keyed); [by split; [constructor|]|].
    intros s x Hs. unfold credit_created.
    destruct (isBotUser (item_user x)); [done|by apply keyed_credit]. }
  revert H1. generalize (foldl (credit_created PR_opened) [] (prs_opened fetched)).
  intros users1 H1.
  assert (forall users2,
            foldl (fun acc pr => acc ≫= fun users => credit_merged users pr)
              (Some users1) (prs_merged fetched) = Some users2 -> keyed users2) as H2.
  { apply (foldl_preserves (fun acc => forall users2, acc = Some users2 -> keyed users2)).
    - by intros ? [= <-].
    - intros [s|] x Hs users2; simpl; [|done]. unfold credit_merged.
      destruct (isBotUser (item_user x)); [by intros [= <-]; apply Hs|].
      destruct (closed_at x); [|done]. intros [= <-]. by apply keyed_credit, Hs. }
  destruct (foldl _ (Some users1) (prs_merged fetched)) as [users2|]; [|done].
  specialize (H2 _ eq_refl). cbn [mbind option_bind]. intros [= <-].
  apply keyed_recalculated.
  assert (keyed (fetchIssueTriagingActivities
                   (fetchAllReviews
                      (foldl (credit_created Issue_opened) users2 (issues_opened fetched))
                      (since_of clock existing) (now clock) (repo_reviews fetched))
                   (since_of clock existing) (now clock) (updated_issues fetched))) as H5.
  { unfold fetchIssueTriagingActivities. rewrite foldl_chunk by lia.
    apply (foldl_preserves keyed).
    - unfold fetchAllReviews. rewrite review_loops_items.
      apply (foldl_preserves (fun st : ReviewState => keyed st.1)).
      + apply (foldl_preserves keyed); [done|].
        intros s x Hs. unfold credit_created.
        destruct (isBotUser (item_user x)); [done|by apply keyed_credit].
      + intros st item Hst. unfold item_step, review_step.
        destruct (qualifying_review _ _ _ _); [|done].
        destruct (decide (_ ∈ st.2)); [done|]. by apply keyed_credit.
    - intros s x Hs. unfold processIssueTriagingEvents.
      destruct (parse_issue_url _) as [[repoName issueNumber]|]; [|done].
      destruct x.2 as [events|]; [|done].
      apply (foldl_preserves keyed); [done|].
      intros s' ev Hs'. by apply keyed_triage_event. }
  destruct (isIncremental existing); [|done].
  unfold mergeExistingActivities. destruct existing as [data|]; [|done].
  apply (foldl_preserves keyed); [done|].
  intros s entry Hs. by apply keyed_merge_existing_entry.
Qed.

Lemma collect_recalculated clock existing fetched users :
  collect clock existing fetched = Some users ->
  exists users0, users = deduplicateAndRecalculate users0.
Proof.
  unfold collect.
  destruct (foldl _ (Some _) (prs_merged fetched)) as [users2|]; [|done].
  cbn [mbind option_bind]. intros [= <-]. eauto.
Qed.

(** The year snapshot of a run meets what [replay_reproduces_totals]
    asks of a prior snapshot. *)
Lemma written_snapshot_deduplicated clock existing fetched out :
  generateYear clock existing fetched = Some out ->
  deduplicated_snapshot (year out).
Proof.
  unfold generateYear.
  destruct (collect clock existing fetched) as [users|] eqn:Hcollect; [|done].
  cbn [mbind option_bind]. intros [= <-]. cbn [year]. unfold deduplicated_snapshot.
  cbn [entries]. split.
  - destruct (collect_keyed _ _ _ _ Hcollect) as [Hnd Hh].
    unfold year_entries. rewrite js_sort_perm.
    apply (sublist_NoDup _ (handles users)); [by rewrite Hh|].
    unfold handles. apply fmap_sublist, sublist_filter.
  - destruct (collect_recalculated _ _ _ _ Hcollect) as [users0 ->].
    apply Forall_forall. intros entry Hentry.
    unfold year_entries in Hentry.
    apply elem_of_js_sort, list_elem_of_filter in Hentry as [_ Hentry].
    unfold map_values, deduplicateAndRecalculate in Hentry.
    rewrite <- list_fmap_compose in Hentry.
    apply list_elem_of_fmap in Hentry as (e & -> & _). simpl. split.
    + rewrite recalculate_fields. apply dedup_keys_NoDup.
    + rewrite recalculate_total. by rewrite recalculate_fields.
Qed.
(** *** The counters of the recalculation *)

(** [m[k]]: the counters stored under [k] in a table of counters. *)
Fixpoint counter {K} `{EqDecision K} (k : K) (m : list (K * Stat)) : option Stat :=
  match m with
  | [] => None
  | (k', s) :: r => if decide (k = k') then Some s else counter k r
  end.

Lemma counter_bump_eq {K} `{EqDecision K} (k : K) p (m : list (K * Stat)) :
  counter k (bump k p m) =
  Some {| count := from_option count 0 (counter k m) + 1;
          points := from_option points 0 (counter k m) + p |}.
Proof.
  induction m as [|[k' s] r IH]; simpl.
  - by rewrite decide_True.
  - destruct (decide (k = k')) as [->|Hne]; simpl.
    + by rewrite decide_True.
    + by rewrite decide_False.
Qed.

Lemma counter_bump_ne {K} `{EqDecision K} (k k' : K) p (m : list (K * Stat)) :
  k ≠ k' -> counter k' (bump k p m) = counter k' m.
Proof.
  intros Hne. induction m as [|[k0 s] r IH]; simpl.
  - by rewrite decide_False.
  - destruct (decide (k = k0)) as [->|]; simpl.
    + by rewrite !decide_False.
    + destruct (decide (k' = k0)); [done|apply IH].
Qed.

Lemma counter_None {K} `{EqDecision K} (k : K) (m : list (K * Stat)) :
  counter k m = None <-> k ∉ m.*1.
Proof.
  induction m as [|[k' s] r IH]; csimpl.
  - split; [intros _; apply not_elem_of_nil|done].
  - rewrite not_elem_of_cons. destruct (decide (k = k')) as [->|Hne].
    + split; [done|]. by intros [? _].
    + rewrite IH. split; [by split|by intros [_ ?]].
Qed.

Lemma bump_keys {K} `{EqDecision K} (k : K) p (m : list (K * Stat)) :
  (bump k p m).*1 =
  match counter k m with
  | Some _ => m.*1
  | None => m.*1 ++ [k]
  end.
Proof.
  induction m as [|[k' s] r IH]; csimpl; [done|].
  destruct (decide (k = k')); csimpl; [done|].
  rewrite IH. by destruct (counter k r).
Qed.

Lemma bump_keys_NoDup {K} `{EqDecision K} (k : K) p (m : list (K * Stat)) :
  NoDup m.*1 -> NoDup (bump k p m).*1.
Proof.
  intros Hnd. rewrite bump_keys. destruct (counter k m) eqn:Hk; [done|].
  apply NoDup_app. split; [done|]. split; [|apply NoDup_singleton].
  intros k' Hin ->%list_elem_of_singleton. by apply counter_None in Hk.
Qed.

(** The table a loop of [bump]s builds: one entry per key met, with the
    number and the points of the items of that key. *)
Section Counters.
Context {A K : Type} `{EqDecision K} (key : A -> K) (pts : A -> Z).

Definition bump_all (m : list (K * Stat)) (l : list A) : list (K * Stat) :=
  foldl (fun m a => bump (key a) (pts a) m) m l.

Definition sum_pts (l : list A) : Z := foldr (fun a n => pts a + n) 0 l.

Definition hits (k : K) (l : list A) : list A := filter (fun a => key a = k) l.

Lemma bump_all_NoDup m l : NoDup m.*1 -> NoDup (bump_all m l).*1.
Proof.
  revert m. induction l as [|a r IH]; intros m Hm; simpl; [done|].
  by apply IH, bump_keys_NoDup.
Qed.

Lemma counter_bump_all m l k :
  counter k (bump_all m l) =
  match hits k l with
  | [] => counter k m
  | _ =>
      Some {| count := from_option count 0 (counter k m) + Z.of_nat (length (hits k l));
              points := from_option points 0 (counter k m) + sum_pts (hits k l) |}
  end.
Proof.
  revert m. induction l as [|a r IH]; intros m; [done|].
  cbn [bump_all foldl]. fold (bump_all (bump (key a) (pts a) m) r).
  rewrite IH. unfold hits. rewrite filter_cons.
  destruct (decide (key a = k)) as [<-|Hne].
  - rewrite counter_bump_eq. cbn [from_option count points].
    destruct (filter _ r) as [|b r'] eqn:Hr.
    + cbn [length sum_pts foldr]. do 2 f_equal; lia.
    + cbn [length sum_pts foldr]. do 2 f_equal; lia.
  - by rewrite counter_bump_ne.
Qed.
End Counters.

Lemma tally_breakdown acts acc :
  (foldl tally acc acts).1.2 = bump_all act_type act_points acc.1.2 acts.
Proof.
  revert acc. induction acts as [|a r IH]; intros acc; [done|].
  cbn [foldl bump_all]. rewrite IH. by destruct acc as [[? ?] ?].
Qed.

Lemma tally_dailyMap acts acc :
  (foldl tally acc acts).2 =
  bump_all (fun a => slice0 10 (occured_at a)) act_points acc.2 acts.
Proof.
  revert acc. induction acts as [|a r IH]; intros acc; [done|].
  cbn [foldl bump_all]. rewrite IH. by destruct acc as [[? ?] ?].
Qed.

Lemma sum_pts_points acts : sum_pts act_points acts = sum_points acts.
Proof. done. Qed.

(** After [deduplicateAndRecalculate] the breakdown of a contributor
    has, for every label, the number and the points of the activities of
    that label, and no entry for a label without activity. *)
Theorem breakdown_per_label (users : JsMap Contributor) (user : Contributor)
    (type : ActivityType) :
  user ∈ map_values (deduplicateAndRecalculate users) ->
  NoDup (activity_breakdown user).*1 /\
  counter type (activity_breakdown user) =
    match filter (fun a => act_type a = type) (raw_activities user) with
    | [] => None
    | labelled =>
        Some {| count := Z.of_nat (length labelled); points := sum_points labelled |}
    end.
Proof.
  unfold map_values, deduplicateAndRecalculate. rewrite <- list_fmap_compose.
  intros (e & -> & _)%list_elem_of_fmap. cbn [snd compose].
  rewrite recalculate_fields. cbn [activity_breakdown raw_activities].
  rewrite tally_breakdown. cbn [fst snd]. split.
  - apply bump_all_NoDup. constructor.
  - rewrite counter_bump_all. unfold hits. cbn [counter from_option].
    destruct (filter _ (dedup ∅ (raw_activities e.2))); [done|].
    rewrite sum_pts_points. do 2 f_equal; lia.
Qed.

Lemma filter_key_counter {K} `{EqDecision K} (k : K) (m : list (K * Stat)) :
  NoDup m.*1 ->
  filter (fun e => e.1 = k) m =
  match counter k m with
  | Some s => [(k, s)]
  | None => []
  end.
Proof.
  induction m as [|[k' s] r IH]; csimpl; intros Hnd; [done|].
  apply NoDup_cons in Hnd as [Hk' Hnd]. rewrite filter_cons. cbn [fst].
  destruct (decide (k' = k)) as [->|Hne].
  - rewrite decide_True by done. rewrite IH by done.
    by rewrite (proj2 (counter_None k r) Hk').
  - rewrite decide_False by done. by apply IH.
Qed.

(** After [deduplicateAndRecalculate] the daily activity of a contributor
    has one entry for every calendar day (the first ten characters of
    [occured_at]) on which there is an activity, with the number and the
    points of the activities of that day, and no other entry. *)
Theorem daily_per_day (users : JsMap Contributor) (user : Contributor) (day : string) :
  user ∈ map_values (deduplicateAndRecalculate users) ->
  filter (fun d => date d = day) (daily_activity user) =
    match filter (fun a => slice0 10 (occured_at a) = day) (raw_activities user) with
    | [] => []
    | on_day =>
        [{| date := day; day_count := Z.of_nat (length on_day);
            day_points := sum_points on_day |}]
    end.
Proof.
  unfold map_values, deduplicateAndRecalculate. rewrite <- list_fmap_compose.
  intros (e & -> & _)%list_elem_of_fmap. cbn [snd compose].
  rewrite recalculate_fields. cbn [daily_activity raw_activities].
  rewrite tally_dailyMap. cbn [snd].
  set (acts := dedup ∅ (raw_activities e.2)).
  set (m := bump_all (fun a => slice0 10 (occured_at a)) act_points [] acts).
  assert (NoDup m.*1) as Hnd by (apply bump_all_NoDup; constructor).
  assert (filter (fun d => date d = day) (daily_of_map m) ≡ₚ
          (fun e => {| date := e.1; day_count := count e.2; day_points := points e.2 |})
            <$> filter (fun e => e.1 = day) m) as Hperm.
  { unfold daily_of_map. rewrite js_sort_perm.
    clear. induction m as [|x r IH]; [done|].
    csimpl. rewrite !filter_cons. cbn [date].
    destruct (decide (x.1 = day)); csimpl; by rewrite IH. }
  rewrite filter_key_counter in Hperm by done.
  pose proof (counter_bump_all (fun a => slice0 10 (occured_at a)) act_points [] acts day)
    as Hc.
  fold m in Hc. rewrite Hc in Hperm. clear Hc.
  unfold hits in Hperm. cbn [counter from_option] in Hperm.
  destruct (filter _ acts) as [|a on_day].
  - by apply Permutation_nil_r in Hperm.
  - apply Permutation_singleton_r in Hperm. rewrite Hperm. csimpl.
    by rewrite !Z.add_0_l.
Qed.

(** The filter of [deduplicateAndRecalculate] keeps, of the activities of
    a key, the first one and only that one. *)
Lemma dedup_first seen acts k :
  filter (fun a => act_key a = k) (dedup seen acts) =
  if decide (k ∈ seen) then [] else take 1 (filter (fun a => act_key a = k) acts).
Proof.
  revert seen. induction acts as [|a r IH]; intros seen.
  - simpl. by destruct (decide (k ∈ seen)).
  - cbn [dedup]. rewrite (filter_cons _ a r).
    destruct (decide (act_key a ∈ seen)) as [Hin|Hnot].
    + rewrite IH. destruct (decide (k ∈ seen)); [done|].
      rewrite decide_False; [done|]. by intros <-.
    + rewrite filter_cons, IH.
      destruct (decide (act_key a = k)) as [<-|Hne].
      * rewrite decide_True by (apply elem_of_union; left; by apply elem_of_singleton).
        by rewrite decide_False.
      * destruct (decide (k ∈ seen)) as [Hk|Hk].
        -- rewrite decide_True; [done|]. apply elem_of_union. by right.
        -- rewrite decide_False; [done|].
           intros [Heq%elem_of_singleton|?]%elem_of_union; [by apply Hne|done].
Qed.

Lemma dedup_is_sublist seen acts : dedup seen acts `sublist_of` acts.
Proof.
  revert seen. induction acts as [|a r IH]; intros seen; simpl; [done|].
  destruct (decide (act_key a ∈ seen)).
  - apply sublist_cons, IH.
  - apply sublist_skip, IH.
Qed.

(** After [deduplicateAndRecalculate] the activities of a contributor are
    those it had, in their order, less the later ones of each key: of the
    activities of a key the first is kept, whatever the others carry. *)
Theorem first_occurrence_retained (users : JsMap Contributor) (h : string)
    (before : Contributor) (k : string) :
  map_get users h = Some before ->
  exists after,
    map_get (deduplicateAndRecalculate users) h = Some after /\
    raw_activities after `sublist_of` raw_activities before /\
    filter (fun a => act_key a = k) (raw_activities after) =
      take 1 (filter (fun a => act_key a = k) (raw_activities before)).
Proof.
  intros Hget. exists (recalculate before).
  rewrite map_get_recalculated, Hget. split; [done|].
  rewrite recalculate_fields. cbn [raw_activities]. split.
  - apply dedup_is_sublist.
  - rewrite dedup_first. by rewrite decide_False by apply not_elem_of_empty.
Qed.

(** *** The merge of a prior snapshot: logs and profiles *)

Lemma log_of_merge_existing_entry users entry h :
  log_of (merge_existing_entry users entry) h =
  log_of users h ++ (if decide (username entry = h) then raw_activities entry else []).
Proof.
  unfold merge_existing_entry, log_of, map_has.
  destruct (decide (username entry = h)) as [<-|Hne].
  - rewrite map_get_mutate_eq.
    destruct (map_get users (username entry)) as [u|] eqn:Hget.
    + by rewrite Hget.
    + by rewrite map_get_set_eq.
  - rewrite map_get_mutate_ne, app_nil_r by done.
    destruct (map_get users (username entry)); [done|].
    by rewrite map_get_set_ne.
Qed.

Lemma score_of_merge_existing_entry users entry h :
  score_of (merge_existing_entry users entry) h = score_of users h.
Proof.
  unfold merge_existing_entry, score_of, map_has.
  destruct (decide (username entry = h)) as [<-|Hne].
  - rewrite map_get_mutate_eq.
    destruct (map_get users (username entry)) as [u|] eqn:Hget.
    + by rewrite Hget.
    + by rewrite map_get_set_eq.
  - rewrite map_get_mutate_ne by done.
    destruct (map_get users (username entry)); [done|].
    by rewrite map_get_set_ne.
Qed.

Lemma merged_log_and_score users prior h :
  log_of (mergeExistingActivities users (Some prior)) h =
    log_of users h ++
    (filter (fun e => username e = h) (entries prior) ≫= raw_activities) /\
  score_of (mergeExistingActivities users (Some prior)) h = score_of users h.
Proof.
  unfold mergeExistingActivities. generalize (entries prior) as l. intros l.
  revert users. induction l as [|e r IH]; intros users.
  - simpl. by rewrite app_nil_r.
  - cbn [foldl]. destruct (IH (merge_existing_entry users e)) as [-> ->].
    rewrite log_of_merge_existing_entry, score_of_merge_existing_entry.
    split; [|done]. rewrite filter_cons.
    destruct (decide (username e = h)).
    + by rewrite bind_cons, app_assoc.
    + by rewrite app_nil_r.
Qed.

(** [mergeExistingActivities] appends to the log of every handle the
    activities of the entries of that handle in the snapshot, in order,
    after the activities fetched in this run, and leaves every
    [total_points] as it was: the totals are stale until the
    recalculation. *)
Theorem merge_appends_history (users : JsMap Contributor) (prior : YearData) (h : string) :
  log_of (mergeExistingActivities users (Some prior)) h =
    log_of users h ++
    (filter (fun e => username e = h) (entries prior) ≫= raw_activities) /\
  score_of (mergeExistingActivities users (Some prior)) h = score_of users h.
Proof.
  unfold mergeExistingActivities. generalize (entries prior) as l. intros l.
  revert users. induction l as [|e r IH]; intros users.
  - simpl. by rewrite app_nil_r.
  - cbn [foldl]. destruct (IH (merge_existing_entry users e)) as [-> ->].
    rewrite log_of_merge_existing_entry, score_of_merge_existing_entry.
    split; [|done]. rewrite filter_cons.
    destruct (decide (username e = h)).
    + by rewrite bind_cons, app_assoc.
    + by rewrite app_nil_r.
Qed.

(** What identifies a contributor on the board. *)
Definition profile (c : Contributor) : string * option string * option string * string :=
  (username c, name c, avatar_url c, role c).

Lemma merge_existing_entry_profile users entry h :
  match map_get users h with
  | Some u =>
      exists u', map_get (merge_existing_entry users entry) h = Some u' /\
                 profile u' = profile u
  | None =>
      if decide (username entry = h)
      then exists u', map_get (merge_existing_entry users entry) h = Some u' /\
                      profile u' = profile entry
      else map_get (merge_existing_entry users entry) h = None
  end.
Proof.
  unfold merge_existing_entry, map_has.
  destruct (decide (username entry = h)) as [<-|Hne].
  - rewrite map_get_mutate_eq.
    destruct (map_get users (username entry)) as [u|] eqn:Hget.
    + rewrite Hget. by eexists.
    + rewrite map_get_set_eq. by eexists.
  - rewrite map_get_mutate_ne by done.
    assert (map_get (if match map_get users (username entry) with
                        | Some _ => true
                        | None => false
                        end
                     then users
                     else map_set users (username entry)
                            {| username := username entry; name := name entry;
                               avatar_url := avatar_url entry; role := role entry;
                               total_points := 0; activity_breakdown := [];
                               daily_activity := []; raw_activities := [] |}) h =
            map_get users h) as ->.
    { destruct (map_get users (username entry)); [done|]. by rewrite map_get_set_ne. }
    destruct (map_get users h); [by eexists|done].
Qed.

Lemma merge_existing_profile_kept users prior h u :
  map_get users h = Some u ->
  exists u', map_get (foldl merge_existing_entry users prior) h = Some u' /\
             profile u' = profile u.
Proof.
  revert users u. induction prior as [|e r IH]; intros users u Hget; [by eexists|].
  cbn [foldl]. pose proof (merge_existing_entry_profile users e h) as He.
  rewrite Hget in He. destruct He as (u' & Hget' & <-). by eapply IH.
Qed.

Lemma merge_existing_profile_new users prior h :
  map_get users h = None ->
  match head (filter (fun e => username e = h) prior) with
  | Some e =>
      exists u', map_get (foldl merge_existing_entry users prior) h = Some u' /\
                 profile u' = profile e
  | None => map_get (foldl merge_existing_entry users prior) h = None
  end.
Proof.
  revert users. induction prior as [|e r IH]; intros users Hget; [done|].
  cbn [foldl]. rewrite filter_cons.
  pose proof (merge_existing_entry_profile users e h) as He. rewrite Hget in He.
  destruct (decide (username e = h)).
  - destruct He as (u' & Hget' & Hp). cbn [head].
    destruct (merge_existing_profile_kept _ r h u' Hget') as (u'' & Hget'' & Hp').
    exists u''. split; [done|congruence].
  - by apply IH.
Qed.

Lemma recalculate_profile user : profile (recalculate user) = profile user.
Proof. by rewrite recalculate_fields. Qed.

(** The merge and the recalculation leave the name, the avatar and the
    role of a contributor fetched in this run as [ensureUser] set them; a
    contributor known from the snapshot only gets the name, the avatar and
    the role of its first entry there: the role is not resolved again. *)
Theorem prior_profile_retained (users : JsMap Contributor) (prior : YearData) (h : string) :
  let merged := deduplicateAndRecalculate (mergeExistingActivities users (Some prior)) in
  match map_get users h, head (filter (fun e => username e = h) (entries prior)) with
  | Some u, _ => exists u', map_get merged h = Some u' /\ profile u' = profile u
  | None, Some e => exists u', map_get merged h = Some u' /\ profile u' = profile e
  | None, None => map_get merged h = None
  end.
Proof.
  cbv zeta. rewrite map_get_recalculated. unfold mergeExistingActivities.
  destruct (map_get users h) as [u|] eqn:Hget.
  - destruct (merge_existing_profile_kept users (entries prior) h u Hget) as (u' & -> & <-).
    eexists. split; [done|]. apply recalculate_profile.
  - pose proof (merge_existing_profile_new users (entries prior) h Hget) as Hnew.
    destruct (head _) as [e|].
    + destruct Hnew as (u' & -> & <-). eexists. split; [done|]. apply recalculate_profile.
    + by rewrite Hnew.
Qed.

(** *** The fetch passes *)

(** The five passes of [generateYear] that fill the map, before the merge
    and the recalculation. *)
Definition fetch_passes (since now : Z) (fetched : Fetched) : option (JsMap Contributor) :=
  let users := foldl (credit_created PR_opened) [] (prs_opened fetched) in
  users ← foldl (fun acc pr => acc ≫= fun users => credit_merged users pr)
            (Some users) (prs_merged fetched);
  let users := foldl (credit_created Issue_opened) users (issues_opened fetched) in
  let users := fetchAllReviews users since now (repo_reviews fetched) in
  Some (fetchIssueTriagingActivities users since now (updated_issues fetched)).

Lemma collect_fetch_passes clock existing fetched :
  collect clock existing fetched =
  (fun users =>
     deduplicateAndRecalculate
       (if isIncremental existing then mergeExistingActivities users existing else users))
    <$> fetch_passes (since_of clock existing) (now clock) fetched.
Proof.
  unfold collect, fetch_passes.
  by destruct (foldl _ (Some _) (prs_merged fetched)).
Qed.

Lemma values_set {V} (m : JsMap V) k v x :
  x ∈ map_values (map_set m k v) -> x ∈ map_values m \/ x = v.
Proof.
  unfold map_values. induction m as [|[k' v'] r IH]; csimpl.
  - intros ->%list_elem_of_singleton. by right.
  - destruct (decide (k = k')); csimpl; rewrite !elem_of_cons.
    + intros [->|?]; [by right|left; by right].
    + intros [->|Hin]; [left; by left|]. destruct (IH Hin); [left; by right|by right].
Qed.

Lemma values_mutate {V} (m : JsMap V) k f x :
  x ∈ map_values (map_mutate m k f) ->
  x ∈ map_values m \/ exists v, v ∈ map_values m /\ x = f v.
Proof.
  unfold map_values. induction m as [|[k' v'] r IH]; csimpl; [by left|].
  destruct (decide (k = k')); csimpl; rewrite !elem_of_cons.
  - intros [->|?]; [|left; by right].
    right. exists v'. split; [|done]. apply elem_of_cons. by left.
  - intros [->|Hin]; [left; by left|].
    destruct (IH Hin) as [?|(v & ? & ?)]; [left; by right|].
    right. exists v. split; [|done]. apply elem_of_cons. by right.
Qed.

(** A property of contributors that a new contributor has and that
    [addActivity], called as the passes call it, keeps. *)
Section Kept.
Context (P : Contributor -> Prop).
Context (P_new : forall handle nm avatar rl,
  P {| username := handle; name := nm; avatar_url := avatar; role := rl;
       total_points := 0; activity_breakdown := []; daily_activity := [];
       raw_activities := [] |}).
Context (P_add : forall entry type date title link,
  P entry -> P (addActivity entry type date (POINTS type) title (Some link))).

Definition all_kept (users : JsMap Contributor) : Prop :=
  forall c, c ∈ map_values users -> P c.

Lemma ensureUser_kept users user : all_kept users -> all_kept (ensureUser users user).
Proof using P_new.
  intros Hu c. unfold ensureUser. destruct (map_has users (login user)); [apply Hu|].
  intros [?| ->]%values_set; [by apply Hu|apply P_new].
Qed.

Lemma add_kept users k type date title link :
  all_kept users ->
  all_kept (map_mutate users k
              (fun entry => addActivity entry type date (POINTS type) title (Some link))).
Proof using P_add.
  intros Hu c [?|(v & Hv & ->)]%values_mutate; [by apply Hu|]. by apply P_add, Hu.
Qed.

Lemma credit_kept users user type date title link :
  all_kept users -> all_kept (credit users user type date title (Some link)).
Proof using P_new P_add.
  intros Hu. unfold credit. by apply add_kept, ensureUser_kept.
Qed.

Lemma triage_event_kept since now issue issueNumber users ev :
  all_kept users -> all_kept (triage_event since now issue issueNumber users ev).
Proof using P_new P_add.
  intros Hu. unfold triage_event.
  pose proof (ensureUser_kept users (actor ev) Hu) as Hens.
  repeat (first [done | apply add_kept | case_match]).
Qed.

Lemma fetch_passes_kept since now fetched users :
  fetch_passes since now fetched = Some users -> all_kept users.
Proof using P_new P_add.
  unfold fetch_passes.
  assert (all_kept (foldl (credit_created PR_opened) [] (prs_opened fetched))) as H1.
  { apply (foldl_preserves all_kept); [by intros c ?%elem_of_nil|].
    intros s x Hs. unfold credit_created.
    destruct (isBotUser (item_user x)); [done|by apply credit_kept]. }
  revert H1. generalize (foldl (credit_created PR_opened) [] (prs_opened fetched)).
  intros users1 H1.
  assert (forall users2,
            foldl (fun acc pr => acc ≫= fun users => credit_merged users pr)
              (Some users1) (prs_merged fetched) = Some users2 -> all_kept users2) as H2.
  { apply (foldl_preserves (fun acc => forall users2, acc = Some users2 -> all_kept users2)).
    - by intros ? [= <-].
    - intros [s|] x Hs users2; simpl; [|done]. unfold credit_merged.
      destruct (isBotUser (item_user x)); [by intros [= <-]; apply Hs|].
      destruct (closed_at x); [|done]. intros [= <-]. by apply credit_kept, Hs. }
  destruct (foldl _ (Some users1) (prs_merged fetched)) as [users2|]; [|done].
  specialize (H2 _ eq_refl). cbn [mbind option_bind]. intros [= <-].
  unfold fetchIssueTriagingActivities. rewrite foldl_chunk by lia.
  apply (foldl_preserves all_kept).
  - unfold fetchAllReviews. rewrite review_loops_items.
    apply (foldl_preserves (fun st : ReviewState => all_kept st.1)).
    + apply (foldl_preserves all_kept); [done|].
      intros s x Hs. unfold credit_created.
      destruct (isBotUser (item_user x)); [done|by apply credit_kept].
    + intros st item Hst. unfold item_step, review_step.
      destruct (qualifying_review _ _ _ _); [|done].
      destruct (decide (_ ∈ st.2)); [done|]. by apply credit_kept.
  - intros s x Hs. unfold processIssueTriagingEvents.
    destruct (parse_issue_url _) as [[repoName issueNumber]|]; [|done].
    destruct x.2 as [events|]; [|done].
    apply (foldl_preserves all_kept); [done|].
    intros s' ev Hs'. by apply triage_event_kept.
Qed.
End Kept.

(** The derived fields agree with the log. *)
Definition consistent (c : Contributor) : Prop :=
  total_points c = sum_points (raw_activities c) /\
  breakdown_points (activity_breakdown c) = sum_points (raw_activities c) /\
  daily_points (daily_activity c) = sum_points (raw_activities c) /\
  breakdown_count (activity_breakdown c) = Z.of_nat (length (raw_activities c)) /\
  daily_count (daily_activity c) = Z.of_nat (length (raw_activities c)).

Lemma addActivity_consistent entry type date pts title link :
  consistent entry -> consistent (addActivity entry type date pts title link).
Proof.
  intros (H1 & H2 & H3 & H4 & H5). unfold consistent, addActivity.
  cbn [total_points activity_breakdown daily_activity raw_activities].
  rewrite sum_points_app, length_app, breakdown_points_bump, daily_points_bump_day,
    breakdown_count_bump, daily_count_bump_day.
  cbn [sum_points foldr act_points length]. repeat split; lia.
Qed.

(** The bookkeeping of [addActivity] is exact: after the fetch passes, for
    every contributor, [total_points] and the points and counts of
    [activity_breakdown] and [daily_activity] are those of the activities
    logged, before any recalculation. *)
Theorem fetch_passes_consistent (since now : Z) (fetched : Fetched)
    (users : JsMap Contributor) (c : Contributor) :
  fetch_passes since now fetched = Some users ->
  c ∈ map_values users ->
  consistent c.
Proof.
  intros Hpasses.
  apply (fetch_passes_kept consistent) with (since := since) (now := now) (fetched := fetched)
                                            (users := users); [| |done].
  - intros. by repeat split.
  - intros. by apply addActivity_consistent.
Qed.

(** The activity is scored by the table and carries a link. *)
Definition table_scored (a : RawActivity) : Prop :=
  act_points a = POINTS (act_type a) /\ exists link, act_link a = val link.

(** In a run that merges no prior snapshot every activity of the year
    snapshot has the points the table [POINTS] gives its label and carries
    a link, so that the key of the deduplication never falls back on the
    title. *)
Theorem full_run_scores_by_table (clock : Clock) (existing : option YearData)
    (fetched : Fetched) (out : Output) (entry : Contributor) (a : RawActivity) :
  isIncremental existing = false ->
  generateYear clock existing fetched = Some out ->
  entry ∈ entries (year out) ->
  a ∈ raw_activities entry ->
  table_scored a.
Proof.
  intros Hfull. unfold generateYear. rewrite collect_fetch_passes, Hfull.
  destruct (fetch_passes _ _ fetched) as [users|] eqn:Hpasses; [|done].
  cbn [fmap option_fmap option_map mbind option_bind]. intros [= <-]. cbn [year entries].
  unfold year_entries. intros Hentry%elem_of_js_sort.
  apply list_elem_of_filter in Hentry as [_ Hentry].
  unfold map_values, deduplicateAndRecalculate in Hentry.
  rewrite <- list_fmap_compose in Hentry.
  apply list_elem_of_fmap in Hentry as (e & -> & He). cbn [compose snd].
  rewrite recalculate_fields. cbn [raw_activities]. intros Ha%dedup_sublist.
  revert a Ha.
  assert (all_kept (fun c => forall a, a ∈ raw_activities c -> table_scored a) users) as Hall.
  { apply (fetch_passes_kept (fun c => forall a, a ∈ raw_activities c -> table_scored a))
      with (since := since_of clock existing) (now := now clock) (fetched := fetched);
      [| |done].
    - intros ? ? ? ? a0 Ha0. by apply elem_of_nil in Ha0.
    - intros c type date title link Hc a0. unfold addActivity. cbn [raw_activities].
      intros [?|Ha0%list_elem_of_singleton]%elem_of_app; [by apply Hc|].
      subst a0. split; [done|]. by eexists. }
  apply Hall. unfold map_values. by apply list_elem_of_fmap_2.
Qed.

(** *** The logs only grow *)

Lemma triage_event_log since now issue issueNumber users ev h :
  log_of users h `prefix_of` log_of (triage_event since now issue issueNumber users ev) h.
Proof.
  unfold triage_event.
  assert (forall type title,
            log_of users h `prefix_of`
            log_of (map_mutate (ensureUser users (actor ev)) (login (actor ev))
                      (fun entry => addActivity entry type (event_created_at ev) (POINTS type)
                                      (Some title) (Some (html_url issue)))) h) as Hadd.
  { intros type title. destruct (decide (login (actor ev) = h)) as [<-|Hne].
    - rewrite log_of_addActivity by apply ensureUser_found.
      rewrite log_of_ensureUser. by apply prefix_app_r.
    - by rewrite log_of_mutate_other, log_of_ensureUser. }
  assert (log_of users h `prefix_of` log_of (ensureUser users (actor ev)) h) as Hens
    by (by rewrite log_of_ensureUser).
  repeat (first [done | apply Hadd | case_match]).
Qed.

(** No pass takes an activity back or reorders a log: the log a handle has
    before the reviews, the issue events or the merge of the prior
    snapshot is a prefix of the log it has after. *)
Theorem logs_are_append_only (users : JsMap Contributor) (since now : Z)
    (allRepos : list RepoReviews) (updatedIssues : list IssueEvents)
    (existing : option YearData) (h : string) :
  log_of users h `prefix_of` log_of (fetchAllReviews users since now allRepos) h /\
  log_of users h `prefix_of`
    log_of (fetchIssueTriagingActivities users since now updatedIssues) h /\
  log_of users h `prefix_of` log_of (mergeExistingActivities users existing) h.
Proof.
  split; [|split].
  - unfold fetchAllReviews. rewrite review_loops_items.
    apply (foldl_preserves
             (fun st : ReviewState => log_of users h `prefix_of` log_of st.1 h)); [done|].
    intros st item Hst. unfold item_step, review_step.
    destruct (qualifying_review _ _ _ _); [|done].
    destruct (decide (_ ∈ st.2)); [done|]. cbn [fst].
    etrans; [done|]. destruct (decide (login (review_user item.2) = h)) as [<-|Hne].
    + rewrite log_of_credit. by apply prefix_app_r.
    + by rewrite log_of_credit_other.
  - unfold fetchIssueTriagingActivities. rewrite foldl_chunk by lia.
    apply (foldl_preserves (fun s => log_of users h `prefix_of` log_of s h)); [done|].
    intros s x Hs. unfold processIssueTriagingEvents.
    destruct (parse_issue_url _) as [[repoName issueNumber]|]; [|done].
    destruct x.2 as [events|]; [|done].
    apply (foldl_preserves (fun s => log_of users h `prefix_of` log_of s h)); [done|].
    intros s' ev Hs'. etrans; [done|]. apply triage_event_log.
  - destruct existing as [prior|]; [|done]. unfold mergeExistingActivities.
    apply (foldl_preserves (fun s => log_of users h `prefix_of` log_of s h)); [done|].
    intros s e Hs. etrans; [done|]. rewrite log_of_merge_existing_entry.
    by apply prefix_app_r.
Qed.

(** *** Assignments and closures *)

Definition assigned_activity (issue : GitHubSearchItem) (issueNumber : string)
    (ev : GitHubIssueEvent) (assigneeLogin : string) : RawActivity :=
  {| act_type := Issue_assigned;
     occured_at := event_created_at ev;
     act_title :=
       of_option (sanitizeTitle
                    (Some ("Assigned issue #" +:+ issueNumber +:+ " to " +:+ assigneeLogin)));
     act_link := val (html_url issue);
     act_points := 2 |}.

Definition closed_activity (issue : GitHubSearchItem) (issueNumber : string)
    (ev : GitHubIssueEvent) : RawActivity :=
  {| act_type := Issue_closed;
     occured_at := event_created_at ev;
     act_title :=
       of_option (sanitizeTitle
                    (Some ("Closed issue #" +:+ issueNumber +:+ ": " +:+
                           template (of_option (sanitizeTitle (Some (item_title issue)))))));
     act_link := val (html_url issue);
     act_points := 1 |}.

(** The activities and the points of every handle are as they were. *)
Definition nothing_credited (users users' : JsMap Contributor) : Prop :=
  forall h, log_of users' h = log_of users h /\ score_of users' h = score_of users h.

(** The actor gains one activity and its points, the others nothing. *)
Definition credited (users users' : JsMap Contributor) (handle : string) (a : RawActivity)
    : Prop :=
  log_of users' handle = log_of users handle ++ [a] /\
  score_of users' handle = score_of users handle + act_points a /\
  forall h, h ≠ handle ->
    log_of users' h = log_of users h /\ score_of users' h = score_of users h.

Lemma ensureUser_nothing_credited users user : nothing_credited users (ensureUser users user).
Proof. intros h. by rewrite log_of_ensureUser, score_of_ensureUser. Qed.

Lemma add_credited users user type date title link :
  credited users
    (map_mutate (ensureUser users user) (login user)
       (fun entry => addActivity entry type date (POINTS type) (Some title) (Some link)))
    (login user)
    {| act_type := type; occured_at := date;
       act_title := of_option (sanitizeTitle (Some title));
       act_link := val link; act_points := POINTS type |}.
Proof.
  unfold credited.
  rewrite log_of_addActivity, score_of_addActivity by apply ensureUser_found.
  rewrite log_of_ensureUser, score_of_ensureUser. repeat split; try done.
  - by rewrite log_of_mutate_other, log_of_ensureUser.
  - by rewrite score_of_mutate_other, score_of_ensureUser.
Qed.

(** An ["assigned"] event of an actor that is not a bot, dated inside the
    fetch window, gives its actor one ["Issue assigned"] activity of 2
    points when it names an assignee other than the actor, and credits
    nothing when the actor assigns the issue to itself or no assignee is
    named. *)
Theorem assigned_event_scoring (since now : Z) (issue : GitHubSearchItem)
    (issueNumber : string) (users : JsMap Contributor) (ev : GitHubIssueEvent) :
  event ev = "assigned" ->
  isBotUser (actor ev) = false ->
  date_lt (event_created_at ev) since = false ->
  date_gt (event_created_at ev) now = false ->
  let users' := triage_event since now issue issueNumber users ev in
  match assignee ev with
  | Some assigneeLogin =>
      if decide (login (actor ev) = assigneeLogin)
      then nothing_credited users users'
      else credited users users' (login (actor ev))
             (assigned_activity issue issueNumber ev assigneeLogin)
  | None => nothing_credited users users'
  end.
Proof.
  intros Hev Hbot Hlt Hgt. cbv zeta. unfold triage_event.
  assert (truthy (login (actor ev)) = true) as Hlogin.
  { unfold isBotUser in Hbot. by destruct (truthy (login (actor ev))). }
  rewrite Hlogin, Hbot, Hlt, Hgt, Hev. cbn [negb orb]. unfold streq.
  rewrite (bool_decide_eq_false_2 ("assigned" = "labeled")) by done.
  rewrite (bool_decide_eq_true_2 ("assigned" = "assigned")) by done.
  destruct (assignee ev) as [assigneeLogin|]; [|apply ensureUser_nothing_credited].
  destruct (decide (login (actor ev) = assigneeLogin)) as [Heq|Hne].
  - rewrite (bool_decide_eq_true_2 _ Heq). apply ensureUser_nothing_credited.
  - rewrite (bool_decide_eq_false_2 _ Hne). apply add_credited.
Qed.

(** A ["closed"] event of an actor that is not a bot, dated inside the
    fetch window, gives its actor one ["Issue closed"] activity of 1 point
    when the actor is not the author of the issue, and credits nothing
    when the author closes the issue. *)
Theorem closed_event_scoring (since now : Z) (issue : GitHubSearchItem)
    (issueNumber : string) (users : JsMap Contributor) (ev : GitHubIssueEvent) :
  event ev = "closed" ->
  isBotUser (actor ev) = false ->
  date_lt (event_created_at ev) since = false ->
  date_gt (event_created_at ev) now = false ->
  let users' := triage_event since now issue issueNumber users ev in
  if decide (login (actor ev) = login (item_user issue))
  then nothing_credited users users'
  else credited users users' (login (actor ev)) (closed_activity issue issueNumber ev).
Proof.
  intros Hev Hbot Hlt Hgt. cbv zeta. unfold triage_event.
  assert (truthy (login (actor ev)) = true) as Hlogin.
  { unfold isBotUser in Hbot. by destruct (truthy (login (actor ev))). }
  rewrite Hlogin, Hbot, Hlt, Hgt, Hev. cbn [negb orb]. unfold streq.
  rewrite (bool_decide_eq_false_2 ("closed" = "labeled")) by done.
  rewrite (bool_decide_eq_false_2 ("closed" = "assigned")) by done.
  rewrite (bool_decide_eq_true_2 ("closed" = "closed")) by done.
  destruct (decide (login (actor ev) = login (item_user issue))) as [Heq|Hne].
  - rewrite (bool_decide_eq_true_2 _ Heq). apply ensureUser_nothing_credited.
  - rewrite (bool_decide_eq_false_2 _ Hne). apply add_credited.
Qed.

(** *** Reviews that do not count *)

(** What [fetchAllReviews] holds against a review. *)
Definition disqualified (since now : Z) (pr : GitHubPR) (review : GitHubReview) : Prop :=
  login (review_user review) = "" \/
  endsWith (login (review_user review)) "[bot]" = true \/
  (exists t, gh_type (review_user review) = Some t /\ t ≠ "" /\ t ≠ "User") \/
  login (review_user review) = login (pr_user pr) \/
  (state review ≠ "APPROVED" /\ state review ≠ "CHANGES_REQUESTED") \/
  date_lt (submitted_at review) since = true \/
  date_gt (submitted_at review) now = true.

Lemma truthy_false s : truthy s = false <-> s = "".
Proof. by destruct s. Qed.

Lemma disqualified_not_qualifying since now pr review :
  disqualified since now pr review -> qualifying_review since now pr review = false.
Proof.
  unfold disqualified, qualifying_review, streq.
  intros Hd.
  destruct (truthy (login (review_user review))) eqn:Hlogin; cbn [negb]; [|done].
  destruct (endsWith (login (review_user review)) "[bot]") eqn:Hbot; [done|].
  destruct (match gh_type (review_user review) with
            | Some t => truthy t && negb (bool_decide (t = "User"))
            | None => false
            end) eqn:Htype; [done|].
  destruct (bool_decide (login (review_user review) = login (pr_user pr))) eqn:Hself;
    [done|].
  destruct (bool_decide (state review = "APPROVED") ||
            bool_decide (state review = "CHANGES_REQUESTED")) eqn:Hstate; cbn [negb];
    [|done].
  destruct (date_lt (submitted_at review) since || date_gt (submitted_at review) now)
    eqn:Hdate; [done|].
  exfalso. apply orb_false_iff in Hdate as [Hlt Hgt].
  apply bool_decide_eq_false in Hself.
  destruct Hd as [Hd|[Hd|[(t & Ht & Hne & Huser)|[Hd|[[Ha Hc]|[Hd|Hd]]]]]].
  - rewrite Hd in Hlogin. done.
  - congruence.
  - rewrite Ht in Htype. apply andb_false_iff in Htype as [Htype|Htype].
    + by apply truthy_false in Htype.
    + apply negb_false_iff, bool_decide_eq_true in Htype. done.
  - done.
  - apply orb_true_iff in Hstate as [Hs|Hs]; apply bool_decide_eq_true in Hs; done.
  - congruence.
  - congruence.
Qed.

(** Reviews by the author of the pull request, by bots, in a state other
    than [APPROVED] and [CHANGES_REQUESTED], or dated outside the fetch
    window count for nothing: when every review fetched is one of these,
    [fetchAllReviews] leaves the map of contributors as it is. *)
Theorem unqualified_reviews_change_nothing (users : JsMap Contributor) (since now : Z)
    (allRepos : list RepoReviews) :
  (forall item, item ∈ review_items allRepos -> disqualified since now item.1.2 item.2) ->
  fetchAllReviews users since now allRepos = users.
Proof.
  intros Hall. unfold fetchAllReviews. rewrite review_loops_items.
  assert (forall st, foldl (item_step since now) st (review_items allRepos) = st) as Hid.
  { induction (review_items allRepos) as [|item r IH]; intros st; [done|].
    cbn [foldl]. unfold item_step at 2, review_step.
    rewrite disqualified_not_qualifying.
    - apply IH. intros i Hi. apply Hall, elem_of_cons. by right.
    - apply Hall, elem_of_cons. by left. }
  by rewrite Hid.
Qed.

(** *** The year snapshot *)

(** The year snapshot a run writes: one entry per handle, every entry
    with a positive [total_points] that is the sum of its activities, no
    two of which have the same key; the entries in descending order of
    [total_points]; and a cursor, so that the next run is incremental. *)
Theorem year_snapshot_wellformed (clock : Clock) (existing : option YearData)
    (fetched : Fetched) (out : Output) :
  generateYear clock existing fetched = Some out ->
  NoDup (username <$> entries (year out)) /\
  (forall entry, entry ∈ entries (year out) ->
     0 < total_points entry /\
     total_points entry = sum_points (raw_activities entry) /\
     NoDup (act_key <$> raw_activities entry)) /\
  Sorted (rank_ge total_points) (entries (year out)) /\
  isIncremental (Some (year out)) = true.
Proof.
  intros Hrun.
  destruct (written_snapshot_deduplicated _ _ _ _ Hrun) as [Hnd Hall].
  split; [done|]. revert Hrun Hall. unfold generateYear.
  destruct (collect clock existing fetched) as [users|]; [|done].
  cbn [mbind option_bind]. intros [= <-]. cbn [year entries]. intros Hall.
  split; [|split].
  - intros entry Hentry.
    destruct (proj1 (Forall_forall _ _) Hall entry Hentry) as [Hkeys Htotal].
    split; [|done]. unfold year_entries in Hentry.
    by apply elem_of_js_sort, list_elem_of_filter in Hentry as [? _].
  - apply js_sort_rank.
  - done.
Qed.

Lemma merged_passes_None acc prs :
  foldl (fun acc pr => acc ≫= fun users => credit_merged users pr) acc prs = None <->
  acc = None \/
  exists pr, pr ∈ prs /\ isBotUser (item_user pr) = false /\ closed_at pr = None.
Proof.
  revert acc. induction prs as [|pr r IH]; intros acc.
  - simpl. split; [by left|]. intros [?|(pr & ?%elem_of_nil & _)]; done.
  - cbn [foldl]. rewrite IH. split.
    + intros [Hstep|(pr' & Hin & Hbad)].
      * destruct acc as [users|]; [|by left]. right. exists pr.
        split; [apply elem_of_cons; by left|].
        cbn [mbind option_bind] in Hstep. unfold credit_merged in Hstep.
        destruct (isBotUser (item_user pr)); [done|]. by destruct (closed_at pr).
      * right. exists pr'. split; [apply elem_of_cons; by right|done].
    + intros [->|(pr' & [->|Hin]%elem_of_cons & Hbot & Hclosed)].
      * by left.
      * left. destruct acc as [users|]; [|done].
        cbn [mbind option_bind]. unfold credit_merged. by rewrite Hbot, Hclosed.
      * right. by exists pr'.
Qed.

(** Once the source has answered, a run is aborted, and nothing written,
    exactly when the search for merged pull requests has answered one of
    an account that is not a bot without a closing date. *)
Theorem run_aborts_on_missing_close_date (clock : Clock) (existing : option YearData)
    (fetched : Fetched) :
  generateYear clock existing fetched = None <->
  exists pr, pr ∈ prs_merged fetched /\
             isBotUser (item_user pr) = false /\ closed_at pr = None.
Proof.
  unfold generateYear, collect.
  pose proof (merged_passes_None
                (Some (foldl (credit_created PR_opened) [] (prs_opened fetched)))
                (prs_merged fetched)) as Hiff.
  destruct (foldl _ (Some _) (prs_merged fetched)) as [users|].
  - cbn [mbind option_bind]. split; [done|]. intros Hex.
    discriminate (proj2 Hiff (or_intror Hex)).
  - cbn [mbind option_bind]. split; [|done]. intros _.
    destruct (proj1 Hiff eq_refl) as [Hacc|Hex]; [discriminate Hacc|exact Hex].
Qed.

(** A prior snapshot that has no cursor is not used: the run fetches the
    last 365 days and writes what it would write without any snapshot. *)
Theorem snapshot_without_cursor_is_discarded (clock : Clock) (data : YearData)
    (fetched : Fetched) :
  lastFetchedAt data = None ->
  generateYear clock (Some data) fetched = generateYear clock None fetched.
Proof.
  intros Hcursor. unfold generateYear, collect, since_of, isIncremental.
  rewrite Hcursor. by rewrite bool_decide_eq_false_2 by (by intros [? ?]).
Qed.

(** *** Nothing of the prior snapshot is lost *)

Lemma dedup_covers seen acts a :
  a ∈ acts -> act_key a ∉ seen ->
  exists b, b ∈ dedup seen acts /\ act_key b = act_key a.
Proof.
  intros Hin Hseen.
  pose proof (dedup_first seen acts (act_key a)) as Hfirst.
  rewrite decide_False in Hfirst by done.
  destruct (filter (fun b => act_key b = act_key a) acts) as [|b r] eqn:Hf.
  - assert (a ∈ filter (fun b => act_key b = act_key a) acts) as Ha
      by (by apply list_elem_of_filter).
    rewrite Hf in Ha. by apply elem_of_nil in Ha.
  - assert (b ∈ filter (fun b => act_key b = act_key a) (dedup seen acts)) as Hb
      by (rewrite Hfirst; apply list_elem_of_here).
    apply list_elem_of_filter in Hb as [? ?]. by exists b.
Qed.

Lemma keyed_username users k v : keyed users -> (k, v) ∈ users -> username v = k.
Proof.
  intros [_ Hh]. unfold handles, map_values, map_keys in Hh.
  induction users as [|[k' v'] r IH]; [by intros ?%elem_of_nil|].
  csimpl in Hh. injection Hh as Hhead Htail.
  intros [[= -> ->]|Hin]%elem_of_cons; [done|by apply IH].
Qed.

Lemma sum_points_positive acts :
  acts ≠ [] -> (forall a, a ∈ acts -> 0 < act_points a) -> 0 < sum_points acts.
Proof.
  induction acts as [|a r IH]; [done|]. intros _ Hpos. cbn [sum_points foldr].
  assert (0 < act_points a) by (apply Hpos, elem_of_cons; by left).
  destruct r as [|b r']; [simpl; lia|].
  assert (0 < sum_points (b :: r')).
  { apply IH; [done|]. intros x Hx. apply Hpos, elem_of_cons. by right. }
  unfold sum_points in *. lia.
Qed.

Lemma POINTS_positive type : 0 < POINTS type.
Proof. by destruct type. Qed.

(** An incremental run loses nothing of the snapshot it starts from: when
    the activities of the prior snapshot have positive points, every one
    of them is, under its key, among the activities of the entry of its
    contributor in the year snapshot written. *)
Theorem history_is_kept (clock : Clock) (data : YearData) (fetched : Fetched)
    (out : Output) (entry : Contributor) (a : RawActivity) :
  is_Some (lastFetchedAt data) ->
  (forall e x, e ∈ entries data -> x ∈ raw_activities e -> 0 < act_points x) ->
  generateYear clock (Some data) fetched = Some out ->
  entry ∈ entries data ->
  a ∈ raw_activities entry ->
  exists entry' b,
    entry' ∈ entries (year out) /\
    username entry' = username entry /\
    b ∈ raw_activities entry' /\
    act_key b = act_key a.
Proof.
  intros Hcursor Hpos Hrun Hentry Ha. revert Hrun. unfold generateYear.
  destruct (collect clock (Some data) fetched) as [users|] eqn:Hcollect; [|done].
  cbn [mbind option_bind]. intros [= <-]. cbn [year entries].
  pose proof (collect_keyed _ _ _ _ Hcollect) as Hkeyed.
  rewrite collect_fetch_passes in Hcollect.
  destruct (fetch_passes _ _ fetched) as [fresh|] eqn:Hpasses; [|done].
  cbn [fmap option_fmap option_map] in Hcollect.
  assert (isIncremental (Some data) = true) as Hinc by (by apply bool_decide_eq_true_2).
  rewrite Hinc in Hcollect. injection Hcollect as <-.
  set (merged := mergeExistingActivities fresh (Some data)) in *.
  assert (forall x, x ∈ log_of merged (username entry) -> 0 < act_points x) as Hlogpos.
  { intros x. unfold merged.
    destruct (merged_log_and_score fresh data (username entry)) as [-> _].
    intros [Hx|Hx]%elem_of_app.
    - assert (all_kept (fun c => forall y, y ∈ raw_activities c -> 0 < act_points y) fresh)
        as Hfresh.
      { apply (fetch_passes_kept (fun c => forall y, y ∈ raw_activities c -> 0 < act_points y))
          with (since := since_of clock (Some data)) (now := now clock) (fetched := fetched);
          [| |done].
        - intros ? ? ? ? y Hy. by apply elem_of_nil in Hy.
        - intros c type date title link Hc y. unfold addActivity. cbn [raw_activities].
          intros [?|Hy%list_elem_of_singleton]%elem_of_app; [by apply Hc|].
          subst y. apply POINTS_positive. }
      unfold log_of in Hx.
      destruct (map_get fresh (username entry)) as [u|] eqn:Hget;
        [|by apply elem_of_nil in Hx].
      apply (Hfresh u); [|done]. unfold map_values.
      apply (list_elem_of_fmap_2 snd _ (username entry, u)). by apply map_get_elem_of.
    - apply list_elem_of_bind in Hx as (e & Hx & He).
      apply list_elem_of_filter in He as [_ He]. by eapply Hpos. }
  assert (a ∈ log_of merged (username entry)) as Hlog.
  { unfold merged.
    destruct (merged_log_and_score fresh data (username entry)) as [-> _].
    apply elem_of_app. right. apply list_elem_of_bind. exists entry.
    split; [done|]. by apply list_elem_of_filter. }
  unfold log_of in Hlog, Hlogpos.
  destruct (map_get merged (username entry)) as [u|] eqn:Hget;
    [|by apply elem_of_nil in Hlog].
  cbn [from_option] in Hlog, Hlogpos.
  destruct (dedup_covers ∅ (raw_activities u) a Hlog) as (b & Hb & Hkey);
    [apply not_elem_of_empty|].
  exists (recalculate u), b.
  assert (map_get (deduplicateAndRecalculate merged) (username entry) = Some (recalculate u))
    as Hget' by (by rewrite map_get_recalculated, Hget).
  pose proof (map_get_elem_of _ _ _ Hget') as Hin.
  split; [|split; [|split]].
  - unfold year_entries. apply elem_of_js_sort, list_elem_of_filter. split.
    + rewrite recalculate_total. apply sum_points_positive.
      * intros Hnil. rewrite Hnil in Hb. by apply elem_of_nil in Hb.
      * intros x Hx%dedup_sublist. by apply Hlogpos.
    + unfold map_values. by apply (list_elem_of_fmap_2 snd _ (username entry, recalculate u)).
  - by apply (keyed_username _ _ _ Hkeyed).
  - by rewrite recalculate_fields.
  - done.
Qed.


(** *** The week within the month *)

Lemma window_nested cut cut' (acts : list RawActivity) :
  cut' <= cut ->
  filter (fun a => date_ge (occured_at a) cut = true)
    (filter (fun a => date_ge (occured_at a) cut' = true) acts) =
  filter (fun a => date_ge (occured_at a) cut = true) acts.
Proof.
  intros Hle. induction acts as [|a r IH]; [done|].
  rewrite !(filter_cons _ a r).
  destruct (decide (date_ge (occured_at a) cut = true)) as [Hge|Hnot].
  - assert (date_ge (occured_at a) cut' = true) as Hge'.
    { unfold date_ge in *. destruct (parseDate (occured_at a)); [|done].
      apply Z.leb_le. apply Z.leb_le in Hge. lia. }
    rewrite decide_True by done. rewrite filter_cons, decide_True by done. by rewrite IH.
  - destruct (decide (date_ge (occured_at a) cut' = true)); [|done].
    by rewrite filter_cons, decide_False.
Qed.

Definition ue_profile (e : UserEntry) : string * option string * option string * string :=
  (ue_username e, ue_name e, ue_avatar_url e, ue_role e).

Lemma derive_entry_profile cut entry e :
  derive_entry cut entry = Some e ->
  ue_profile e = profile entry /\ ue_activities e = window_of cut entry.
Proof.
  unfold derive_entry, window_of.
  destruct (length _ =? 0)%nat; [done|].
  destruct (foldl period_tally _ _) as [[total breakdown] daily].
  by intros [= <-].
Qed.

(** A period derived with a later cutoff lies within one derived with an
    earlier cutoff (the week within the month, the cutoff of the month
    being read from the clock after that of the week): every contributor
    of the first has an entry in the second, with the same username, name,
    avatar and role, and its activities in the first are those of the
    second that are dated at or after the later cutoff. *)
Theorem shorter_period_within_longer (source : YearData)
    (days : Z) (clock : PeriodClock) (period : string)
    (days' : Z) (clock' : PeriodClock) (period' : string) (e : UserEntry) :
  daysAgo (started_at clock') days' <= daysAgo (started_at clock) days ->
  e ∈ pd_entries (derivePeriod source days clock period) ->
  exists e',
    e' ∈ pd_entries (derivePeriod source days' clock' period') /\
    ue_profile e' = ue_profile e /\
    ue_activities e =
      filter (fun a => date_ge (occured_at a) (daysAgo (started_at clock) days) = true)
        (ue_activities e').
Proof.
  intros Hle. unfold derivePeriod. cbn [pd_entries].
  set (cut := daysAgo (started_at clock) days) in *.
  set (cut' := daysAgo (started_at clock') days') in *.
  intros He%elem_of_js_sort. apply list_elem_of_omap in He as (c & Hc & Hd).
  destruct (derive_entry_profile _ _ _ Hd) as [Hp Hacts].
  destruct (derive_entry cut' c) as [e'|] eqn:Hd'.
  - destruct (derive_entry_profile _ _ _ Hd') as [Hp' Hacts'].
    exists e'. split; [|split].
    + apply elem_of_js_sort, list_elem_of_omap. by exists c.
    + congruence.
    + rewrite Hacts, Hacts'. unfold window_of. by rewrite window_nested.
  - exfalso. apply derive_entry_None, window_empty_inactive in Hd'.
    apply derive_entry_Some in Hd as (_ & Hw & Hne & _). apply Hne. rewrite Hw.
    unfold window_of in *. by rewrite <- (window_nested cut cut') , Hd'.
Qed.

(** *** The recent-activity feed, day by day *)

(** What the loop of [generateRecentActivities] pushes under a day: for
    every entry in turn, an item for each of its activities of that day. *)
Definition items_of_day (source : YearData) (day : string) : list RecentActivityItem :=
  entries source ≫= fun entry =>
    recent_item entry <$>
      filter (fun act => split_head "T"%char (occured_at act) = day) (raw_activities entry).

(** A group after more items have been pushed, if any. *)
Definition pushed {X} (group : option (list X)) (items : list X) : option (list X) :=
  match items with
  | [] => group
  | _ => Some (default [] group ++ items)
  end.

Lemma pushed_app {X} (group : option (list X)) (l1 l2 : list X) :
  pushed (pushed group l1) l2 = pushed group (l1 ++ l2).
Proof.
  destruct l1 as [|x l1]; [done|]. destruct l2 as [|y l2].
  - by rewrite app_nil_r.
  - unfold pushed. simpl. by rewrite <- app_assoc.
Qed.

Lemma recent_step_group cutoff entry groups act day :
  map_get (recent_step cutoff entry groups act) day =
  if date_lt day cutoff then map_get groups day
  else pushed (map_get groups day)
         (recent_item entry <$>
            filter (fun act => split_head "T"%char (occured_at act) = day) [act]).
Proof.
  unfold recent_step. rewrite filter_cons, filter_nil.
  destruct (decide (split_head "T" (occured_at act) = day)) as [Heq|Hne].
  - rewrite Heq. destruct (date_lt day cutoff); [done|].
    rewrite map_get_mutate_eq, map_get_set_eq. done.
  - assert (map_get (if date_lt (split_head "T" (occured_at act)) cutoff
                     then groups
                     else map_mutate
                            (map_set groups (split_head "T" (occured_at act))
                               (default [] (map_get groups (split_head "T" (occured_at act)))))
                            (split_head "T" (occured_at act))
                            (fun items => items ++ [recent_item entry act])) day =
            map_get groups day) as ->.
    { destruct (date_lt (split_head "T" (occured_at act)) cutoff); [done|].
      by rewrite map_get_mutate_ne, map_get_set_ne. }
    by destruct (date_lt day cutoff).
Qed.

Lemma recent_steps_group cutoff entry acts groups day :
  map_get (foldl (recent_step cutoff entry) groups acts) day =
  if date_lt day cutoff then map_get groups day
  else pushed (map_get groups day)
         (recent_item entry <$>
            filter (fun act => split_head "T"%char (occured_at act) = day) acts).
Proof.
  revert groups. induction acts as [|act r IH]; intros groups.
  - simpl. by destruct (date_lt day cutoff).
  - cbn [foldl]. rewrite IH, recent_step_group.
    destruct (date_lt day cutoff); [done|].
    rewrite pushed_app, <- fmap_app, <- filter_app. done.
Qed.

Lemma recent_step_keys cutoff entry groups act :
  NoDup (map_keys groups) -> NoDup (map_keys (recent_step cutoff entry groups act)).
Proof.
  intros Hnd. unfold recent_step. destruct (date_lt _ cutoff); [done|].
  rewrite map_keys_mutate, map_keys_set. unfold map_has.
  destruct (map_get groups _) eqn:Hget; [done|].
  apply NoDup_app. split; [done|]. split; [|apply NoDup_singleton].
  intros k Hk ->%list_elem_of_singleton. by apply map_get_None in Hget.
Qed.

(** The recent-activity feed has one group per day, under pairwise
    distinct days; the group of a day holds an item for every activity of
    that day, contributor after contributor in the order of the year
    snapshot; a day before the cutoff and a day without activity have no
    group.  A day that is not a date is not before the cutoff. *)
Theorem recent_feed_by_day (source : YearData) (days started written : Z) (day : string) :
  let feed := groups (generateRecentActivities source days started written) in
  NoDup (map_keys feed) /\
  map_get feed day =
    if date_lt day (daysAgo started days) then None
    else match items_of_day source day with
         | [] => None
         | item :: items => Some (item :: items)
         end.
Proof.
  cbv zeta. unfold generateRecentActivities. cbn [groups]. split.
  - apply (foldl_preserves (fun groups => NoDup (map_keys groups))); [constructor|].
    intros groups entry Hgroups.
    apply (foldl_preserves (fun groups => NoDup (map_keys groups))); [done|].
    intros groups' act. apply recent_step_keys.
  - unfold items_of_day. generalize (entries source) as l. intros l.
    assert (forall groups,
              map_get (foldl (fun groups entry =>
                                foldl (recent_step (daysAgo started days) entry) groups
                                  (raw_activities entry)) groups l) day =
              if date_lt day (daysAgo started days) then map_get groups day
              else pushed (map_get groups day)
                     (l ≫= fun entry =>
                        recent_item entry <$>
                          filter (fun act => split_head "T"%char (occured_at act) = day)
                            (raw_activities entry))) as Hall.
    { induction l as [|entry r IH]; intros groups.
      - simpl. by destruct (date_lt day (daysAgo started days)).
      - cbn [foldl]. rewrite IH, recent_steps_group, bind_cons.
        destruct (date_lt day (daysAgo started days)); [done|]. by rewrite pushed_app. }
    rewrite Hall. cbn [map_get]. destruct (date_lt day (daysAgo started days)); [done|].
    by destruct (l ≫= _).
Qed.


(** *** The listings of the source, page by page

    [pages page] is what the source answers to the request for a page of
    a listing: [None] when [res.ok] is false, else the array [res.json()]
    gives.  The loops run until the source stops them; [fuel] bounds the
    pages requested, and [None] is a loop that has not stopped by then. *)

Record GitHubRepo : Type := {
  repo_name : string
}.

Fixpoint fetchOrgRepos_from (fuel : nat) (pages : nat -> option (list GitHubRepo))
    (page : nat) (repos : list string) : option (list string) :=
  match fuel with
  | O => None
  | S fuel' =>
      match pages page with
      | None => Some repos
      | Some [] => Some repos
      | Some data => fetchOrgRepos_from fuel' pages (S page) (repos ++ (repo_name <$> data))
      end
  end.

Definition fetchOrgRepos (fuel : nat) (pages : nat -> option (list GitHubRepo))
    : option (list string) :=
  fetchOrgRepos_from fuel pages 1 [].

(** [pr.updated_at && new Date(pr.updated_at) >= since] *)
Definition updated_since (since : Z) (pr : GitHubPR) : bool :=
  match updated_at pr with
  | Some s => truthy s && date_ge s since
  | None => false
  end.

(** [lastPR?.updated_at && new Date(lastPR.updated_at) < since] *)
Definition updated_before (since : Z) (lastPR : option GitHubPR) : bool :=
  match lastPR with
  | Some pr =>
      match updated_at pr with
      | Some s => truthy s && date_lt s since
      | None => false
      end
  | None => false
  end.

Fixpoint fetchRepoPRs_from (fuel : nat) (pages : nat -> option (list GitHubPR))
    (since : Z) (page : nat) (prs : list GitHubPR) : option (list GitHubPR) :=
  match fuel with
  | O => None
  | S fuel' =>
      match pages page with
      | None => Some prs
      | Some [] => Some prs
      | Some data =>
          let prs := prs ++ filter (fun pr => updated_since since pr = true) data in
          if updated_before since (last data) then Some prs
          else fetchRepoPRs_from fuel' pages since (S page) prs
      end
  end.

Definition fetchRepoPRs (fuel : nat) (pages : nat -> option (list GitHubPR)) (since : Z)
    : option (list GitHubPR) :=
  fetchRepoPRs_from fuel pages since 1 [].

(** The items of the pages [first], ..., [first + n - 1] that were
    answered. *)
Definition items_of_pages {T} (pages : nat -> option (list T)) (first n : nat) : list T :=
  seq first n ≫= fun page => default [] (pages page).

Lemma items_of_pages_S {T} (pages : nat -> option (list T)) first n :
  items_of_pages pages first (S n) =
  default [] (pages first) ++ items_of_pages pages (S first) n.
Proof. done. Qed.

Lemma fetchOrgRepos_from_gap pages n : forall k fuel repos,
  (forall page, (S k <= page <= k + n)%nat ->
     exists data, pages page = Some data /\ data <> []) ->
  pages (S (k + n)) = None \/ pages (S (k + n)) = Some [] ->
  (n < fuel)%nat ->
  fetchOrgRepos_from fuel pages (S k) repos =
  Some (repos ++ (repo_name <$> items_of_pages pages (S k) n)).
Proof.
  induction n as [|n IH]; intros k fuel repos Hpages Hgap Hfuel.
  - destruct fuel as [|fuel]; [lia|]. rewrite Nat.add_0_r in Hgap.
    cbn [fetchOrgRepos_from]. rewrite app_nil_r. by destruct Hgap as [-> | ->].
  - destruct fuel as [|fuel]; [lia|].
    destruct (Hpages (S k)) as (data & Hdata & Hne); [lia|].
    cbn [fetchOrgRepos_from]. rewrite Hdata.
    destruct data as [|repo data]; [done|].
    rewrite IH.
    + rewrite items_of_pages_S, Hdata, fmap_app, app_assoc. done.
    + intros page Hpage. apply Hpages. lia.
    + by rewrite Nat.add_succ_comm.
    + lia.
Qed.

(** [fetchOrgRepos] returns the names of the repositories of the pages
    before the first page that the source refuses or answers empty, in
    their order, once it may request that many pages: a refused page ends
    the listing as an empty one does, without an error. *)
Theorem fetchOrgRepos_until_first_gap (pages : nat -> option (list GitHubRepo))
    (n fuel : nat) :
  (forall page, (1 <= page <= n)%nat ->
     exists data, pages page = Some data /\ data <> []) ->
  pages (S n) = None \/ pages (S n) = Some [] ->
  (n < fuel)%nat ->
  fetchOrgRepos fuel pages = Some (repo_name <$> items_of_pages pages 1 n).
Proof.
  intros Hpages Hgap Hfuel. unfold fetchOrgRepos.
  by rewrite (fetchOrgRepos_from_gap pages n 0 fuel []).
Qed.

(** The page makes [fetchRepoPRs] stop: refused, empty, or ending with a
    pull request updated before [since]. *)
Definition stops_listing (since : Z) (answer : option (list GitHubPR)) : bool :=
  match answer with
  | None => true
  | Some [] => true
  | Some data => updated_before since (last data)
  end.

Lemma fetchRepoPRs_from_stop pages since n : forall k fuel prs,
  (forall page, (S k <= page <= k + n)%nat -> stops_listing since (pages page) = false) ->
  stops_listing since (pages (S (k + n))) = true ->
  (n < fuel)%nat ->
  fetchRepoPRs_from fuel pages since (S k) prs =
  Some (prs ++ filter (fun pr => updated_since since pr = true)
                 (items_of_pages pages (S k) (S n))).
Proof.
  induction n as [|n IH]; intros k fuel prs Hpages Hstop Hfuel.
  - destruct fuel as [|fuel]; [lia|]. rewrite Nat.add_0_r in Hstop.
    cbn [fetchRepoPRs_from]. unfold items_of_pages. cbn [seq]. rewrite bind_cons, app_nil_r.
    destruct (pages (S k)) as [[|pr data]|]; [by rewrite app_nil_r| |by rewrite app_nil_r].
    cbn [stops_listing] in Hstop. by rewrite Hstop.
  - destruct fuel as [|fuel]; [lia|].
    assert (stops_listing since (pages (S k)) = false) as Hfirst by (apply Hpages; lia).
    cbn [fetchRepoPRs_from]. rewrite (items_of_pages_S pages (S k)).
    destruct (pages (S k)) as [[|pr data]|]; [done| |done].
    cbn [stops_listing] in Hfirst. rewrite Hfirst.
    rewrite IH.
    + by rewrite filter_app, app_assoc.
    + intros page Hpage. apply Hpages. lia.
    + by rewrite Nat.add_succ_comm.
    + lia.
Qed.

(** [fetchRepoPRs] requests the pages up to the first that is refused, is
    empty or ends with a pull request updated before [since], and returns,
    in the order of the pages, the pull requests of these pages that carry
    an [updated_at] at or after [since]. *)
Theorem fetchRepoPRs_until_first_stop (pages : nat -> option (list GitHubPR))
    (since : Z) (n fuel : nat) :
  (forall page, (1 <= page <= n)%nat -> stops_listing since (pages page) = false) ->
  stops_listing since (pages (S n)) = true ->
  (n < fuel)%nat ->
  exists prs,
    fetchRepoPRs fuel pages since = Some prs /\
    prs = filter (fun pr => updated_since since pr = true) (items_of_pages pages 1 (S n)) /\
    (forall pr, pr ∈ prs ->
       exists s t, updated_at pr = Some s /\ parseDate s = Some t /\ since <= t).
Proof.
  intros Hpages Hstop Hfuel. unfold fetchRepoPRs.
  rewrite (fetchRepoPRs_from_stop pages since n 0 fuel []) by done.
  eexists. split; [done|]. split; [done|].
  intros pr [Hpr _]%list_elem_of_filter. unfold updated_since, date_ge in Hpr.
  destruct (updated_at pr) as [s|]; [|done]. apply andb_true_iff in Hpr as [_ Hpr].
  destruct (parseDate s) as [t|] eqn:Ht; [|done]. exists s, t. apply Z.leb_le in Hpr.
  by repeat split.
Qed.


(** *** A run in which the source answers nothing *)

Definition nothing_fetched : Fetched :=
  {| prs_opened := []; prs_merged := []; issues_opened := [];
     repo_reviews := []; updated_issues := [] |}.

(** The contributor [mergeExistingActivities] makes of an entry of the
    snapshot whose handle is not in the map. *)
Definition carried (entry : Contributor) : Contributor :=
  {| username := username entry;
     name := name entry;
     avatar_url := avatar_url entry;
     role := role entry;
     total_points := 0;
     activity_breakdown := [];
     daily_activity := [];
     raw_activities := raw_activities entry |}.

Lemma js_sort_ranked {A} (rank : A -> Z) (l : list A) :
  Sorted (rank_ge rank) l -> js_sort (by_rank_desc rank) l = l.
Proof.
  induction 1 as [|x r Hs IH Hhd]; [done|].
  cbn [js_sort]. rewrite IH. destruct Hhd as [|y r' Hy]; [done|].
  cbn [insert_sorted]. unfold by_rank_desc at 1. unfold rank_ge in Hy.
  by rewrite (proj2 (Z.leb_le _ _)) by lia.
Qed.

Lemma map_set_absent {V} (m : JsMap V) k v :
  map_get m k = None -> map_set m k v = m ++ [(k, v)].
Proof.
  induction m as [|[k' v'] r IH]; simpl; [done|].
  destruct (decide (k = k')); [done|]. intros Hr. by rewrite IH.
Qed.

Lemma map_mutate_last {V} (m : JsMap V) k v f :
  map_get m k = None -> map_mutate (m ++ [(k, v)]) k f = m ++ [(k, f v)].
Proof.
  induction m as [|[k' v'] r IH]; simpl.
  - by rewrite decide_True.
  - destruct (decide (k = k')); [done|]. intros Hr. by rewrite IH.
Qed.

Lemma map_get_snoc_ne {V} (m : JsMap V) k k' v :
  k <> k' -> map_get (m ++ [(k, v)]) k' = map_get m k'.
Proof.
  intros Hne. induction m as [|[k0 v0] r IH]; simpl.
  - by rewrite decide_False.
  - by rewrite IH.
Qed.

Lemma merge_into_fresh (users : JsMap Contributor) (prior : list Contributor) :
  NoDup (username <$> prior) ->
  (forall e, e ∈ prior -> map_get users (username e) = None) ->
  foldl merge_existing_entry users prior =
  users ++ ((fun e => (username e, carried e)) <$> prior).
Proof.
  revert users. induction prior as [|e r IH]; intros users Hnd Hnew.
  - simpl. by rewrite app_nil_r.
  - csimpl in Hnd. apply NoDup_cons in Hnd as [He Hnd].
    assert (map_get users (username e) = None) as Hget
      by (apply Hnew, elem_of_cons; by left).
    cbn [foldl]. unfold merge_existing_entry at 2. unfold map_has. rewrite Hget.
    rewrite map_set_absent, map_mutate_last by done. rewrite IH.
    + csimpl. by rewrite <- app_assoc.
    + done.
    + intros e' He'. rewrite map_get_snoc_ne.
      * apply Hnew, elem_of_cons. by right.
      * intros Heq. apply He. rewrite Heq. by apply list_elem_of_fmap_2.
Qed.

Lemma recalculate_carried entry : recalculate (carried entry) = recalculate entry.
Proof. by rewrite !recalculate_fields. Qed.

Lemma filter_all {A} (P : A -> Prop) `{forall x, Decision (P x)} (l : list A) :
  (forall x, x ∈ l -> P x) -> filter P l = l.
Proof.
  induction l as [|x r IH]; intros Hall; [done|].
  rewrite filter_cons, decide_True by (apply Hall, elem_of_cons; by left).
  f_equal. apply IH. intros y Hy. apply Hall, elem_of_cons. by right.
Qed.

(** The next run on the year snapshot a run has written, when the source
    answers nothing for its window, completes and writes the same entries,
    in the same order: the merge, the deduplication, the recalculation
    and the sort give back what was read. *)
Theorem idle_run_keeps_the_board (clock : Clock) (existing : option YearData)
    (fetched : Fetched) (out : Output) (clock' : Clock) :
  generateYear clock existing fetched = Some out ->
  exists out',
    generateYear clock' (Some (year out)) nothing_fetched = Some out' /\
    entries (year out') = entries (year out).
Proof.
  intros Hrun. destruct (written_snapshot_deduplicated _ _ _ _ Hrun) as [Hnd _].
  revert Hrun Hnd. unfold generateYear at 1.
  destruct (collect clock existing fetched) as [users|] eqn:Hcollect; [|done].
  cbn [mbind option_bind]. intros [= <-]. cbn [year entries]. intros Hnd.
  destruct (collect_recalculated _ _ _ _ Hcollect) as [users0 ->].
  set (board := year_entries (deduplicateAndRecalculate users0)) in *.
  assert (forall e, e ∈ board -> 0 < total_points e /\ recalculate e = e) as Hboard.
  { intros e He. unfold board, year_entries in He.
    apply elem_of_js_sort, list_elem_of_filter in He as [Hpos He]. split; [done|].
    unfold map_values, deduplicateAndRecalculate in He. rewrite <- list_fmap_compose in He.
    apply list_elem_of_fmap in He as (x & -> & _). cbn [compose snd].
    apply recalculate_idempotent. }
  eexists. split.
  - unfold generateYear, collect, nothing_fetched, isIncremental.
    cbn [prs_opened prs_merged issues_opened repo_reviews updated_issues foldl lastFetchedAt
         entries mbind option_bind mergeExistingActivities].
    rewrite bool_decide_eq_true_2 by (by eexists). reflexivity.
  - cbn [year entries]. unfold fetchIssueTriagingActivities, fetchAllReviews. cbn.
    rewrite merge_into_fresh by done. rewrite app_nil_l.
    unfold deduplicateAndRecalculate, year_entries, map_values.
    rewrite <- !list_fmap_compose.
    assert ((snd ∘ (fun e : string * Contributor => (e.1, recalculate e.2)) ∘
               (fun e => (username e, carried e))) <$> board = board) as ->.
    { rewrite <- (list_fmap_id board) at 2. apply list_fmap_ext.
      intros i e He. cbn [compose fst snd]. rewrite recalculate_carried.
      apply Hboard. by eapply list_elem_of_lookup_2. }
    rewrite filter_all by (intros e He; by apply Hboard).
    apply js_sort_ranked. apply js_sort_rank.
Qed.


End Run.

(** *** A sample platform and sample data *)

(** The instants of the examples, as [Date] reads them. *)
Definition sample_parseDate (s : string) : option Z :=
  if streq s "2024-02-01T00:00:00Z" then Some 1706745600000
  else if streq s "2024-03-01T10:00:00Z" then Some 1709287200000
  else if streq s "2024-03-02T09:30:00Z" then Some 1709371800000
  else if streq s "2024-03-05T12:00:00Z" then Some 1709640000000
  else if streq s "2024-03-12T08:05:00Z" then Some 1710230700000
  else if streq s "2024-03-01" then Some 1709251200000
  else if streq s "2024-03-02" then Some 1709337600000
  else if streq s "2024-03-05" then Some 1709596800000
  else if streq s "2024-03-12" then Some 1710201600000
  else None.

(** Comparison by code units, which is how [localeCompare] orders dates
    written [YYYY-MM-DD]. *)
Definition sample_localeCompare (a b : string) : Z :=
  match String.compare a b with
  | Lt => -1
  | Eq => 0
  | Gt => 1
  end.

Definition sample_daysAgo (t n : Z) : Z := t - n * 86400000.

(** The days of the examples, the others left blank. *)
Definition sample_iso (t : Z) : string :=
  if (1710201600000 <=? t) && (t <? 1710288000000) then "2024-03-12"
  else if (1710806400000 <=? t) && (t <? 1710892800000) then "2024-03-19"
  else "".

Definition human (handle : string) : GitHubUser :=
  {| login := handle; gh_name := None; gh_avatar_url := None; gh_type := Some "User" |}.

Definition pr_opened_42 : RawActivity :=
  {| act_type := PR_opened;
     occured_at := "2024-03-01T10:00:00Z";
     act_title := val "Fix the wire tool";
     act_link := val "https://github.com/CircuitVerse/CircuitVerse/pull/42";
     act_points := 2 |}.

Definition pr_merged_42 : RawActivity :=
  {| act_type := PR_merged;
     occured_at := "2024-03-02T09:30:00Z";
     act_title := val "Fix the wire tool";
     act_link := val "https://github.com/CircuitVerse/CircuitVerse/pull/42";
     act_points := 5 |}.

Definition review_on_42 : RawActivity :=
  {| act_type := Review_submitted;
     occured_at := "2024-03-02T09:30:00Z";
     act_title := val "Review on PR #42";
     act_link := val "https://github.com/CircuitVerse/CircuitVerse/pull/42";
     act_points := 4 |}.

(** alice with the same pull request recorded twice, as the merge of a
    prior snapshot with an overlapping fetch leaves her. *)
Definition alice_logged : Contributor :=
  {| username := "alice"; name := Some "Alice"; avatar_url := None;
     role := "Contributor"; total_points := 9;
     activity_breakdown := []; daily_activity := [];
     raw_activities := [pr_opened_42; pr_opened_42; pr_merged_42] |}.

Definition alice_recomputed : Contributor :=
  Eval vm_compute in recalculate sample_localeCompare alice_logged.

Definition bob_recomputed : Contributor :=
  Eval vm_compute in
    recalculate sample_localeCompare
      {| username := "bob"; name := None; avatar_url := None;
         role := "Maintainer"; total_points := 0;
         activity_breakdown := []; daily_activity := [];
         raw_activities := [review_on_42] |}.

Definition sample_prior : YearData :=
  {| period := "year"; updatedAt := 1710230400000;
     lastFetchedAt := Some 1710230400000;
     startDate := "2023-03-12"; endDate := "2024-03-12";
     entries := [alice_recomputed; bob_recomputed] |}.

Example alice_recomputed_totals :
  total_points alice_recomputed = 7 /\
  activity_breakdown alice_recomputed =
    [(PR_opened, {| count := 1; points := 2 |}); (PR_merged, {| count := 1; points := 5 |})] /\
  daily_activity alice_recomputed =
    [{| date := "2024-03-02"; day_count := 1; day_points := 5 |};
     {| date := "2024-03-01"; day_count := 1; day_points := 2 |}] /\
  raw_activities alice_recomputed = [pr_opened_42; pr_merged_42].
Proof. repeat split. Qed.

Lemma recompute_invariants_witness :
  total_points alice_recomputed = sum_points (raw_activities alice_recomputed) /\
  total_points alice_recomputed = breakdown_points (activity_breakdown alice_recomputed) /\
  total_points alice_recomputed = daily_points (daily_activity alice_recomputed) /\
  NoDup (identity <$> raw_activities alice_recomputed).
Proof.
  apply (recompute_invariants sample_localeCompare [("alice", alice_logged)]).
  vm_compute. apply list_elem_of_here.
Defined.

Lemma sample_prior_deduplicated : deduplicated_snapshot sample_prior.
Proof.
  split.
  - apply (bool_decide_unpack _). by vm_compute.
  - apply (bool_decide_unpack _). by vm_compute.
Defined.

Lemma replay_reproduces_totals_witness :
  exists user,
    map_get (deduplicateAndRecalculate sample_localeCompare
               (mergeExistingActivities [] (Some sample_prior)))
      (username alice_recomputed) = Some user /\
    raw_activities user = raw_activities alice_recomputed /\
    total_points user = total_points alice_recomputed.
Proof.
  apply (replay_reproduces_totals sample_localeCompare sample_prior alice_recomputed).
  - exact sample_prior_deduplicated.
  - vm_compute. apply list_elem_of_here.
Defined.

(** The week before 9 March 2024 of [sample_prior] holds what alice and
    bob did on 2 March; on the day before 9 March nobody did anything. *)
Example week_of_sample_prior :
  (fun e => (ue_username e, ue_total_points e, ue_activities e)) <$>
    pd_entries (derivePeriod sample_parseDate sample_iso sample_daysAgo sample_prior 7
                  {| started_at := 1709942400000; written_at := 1709942400000;
                     ended_at := 1709942400000 |} "week") =
    [("alice", 5, [pr_merged_42]); ("bob", 4, [review_on_42])] /\
  pd_entries (derivePeriod sample_parseDate sample_iso sample_daysAgo sample_prior 1
                {| started_at := 1709942400000; written_at := 1709942400000;
                   ended_at := 1709942400000 |} "day") = [].
Proof. by vm_compute. Qed.

(** bob reviews alice's pull request twice, alice reviews it herself and
    a bot reviews it: one review is counted. *)
Definition reviews_of_42 : list RepoReviews :=
  [("CircuitVerse",
    [({| number := 42; pr_user := human "alice"; updated_at := Some "2024-03-05T12:00:00Z" |},
      [{| review_user := human "bob"; state := "CHANGES_REQUESTED";
          submitted_at := "2024-03-02T09:30:00Z" |};
       {| review_user := human "alice"; state := "APPROVED";
          submitted_at := "2024-03-02T09:30:00Z" |};
       {| review_user :=
            {| login := "review-helper[bot]"; gh_name := None; gh_avatar_url := None;
               gh_type := Some "Bot" |};
          state := "APPROVED"; submitted_at := "2024-03-02T09:30:00Z" |};
       {| review_user := human "bob"; state := "APPROVED";
          submitted_at := "2024-03-05T12:00:00Z" |}])])].

Example second_review_is_skipped :
  (fun e => (e.1, total_points e.2, raw_activities e.2)) <$>
    fetchAllReviews sample_parseDate [] [] [] 1706745600000 1710230400000 reviews_of_42 =
  [("bob", 4, [review_on_42])].
Proof. by vm_compute. Qed.

(** An issue and three ["labeled"] events on it, inside the window from
    1 February 2024 to 12 March 2024, 08:00. *)
Definition issue_7 : GitHubSearchItem :=
  {| item_user := human "dave";
     item_title := "Crash: on save";
     html_url := "https://github.com/CircuitVerse/CircuitVerse/issues/7";
     created_at := "2024-03-01T10:00:00Z";
     closed_at := None |}.

Definition labeled_by_carol (labelName : string) : GitHubIssueEvent :=
  {| event := "labeled";
     actor := human "carol";
     event_created_at := "2024-03-05T12:00:00Z";
     event_label := Some labelName;
     assignee := None |}.

Definition window_start : Z := 1706745600000.
Definition run_start : Z := 1710230400000.

Definition after_label (labelName : string) : JsMap Contributor :=
  triage_event sample_parseDate [] [] window_start run_start issue_7 "7" []
    (labeled_by_carol labelName).

Example bug_label_is_scored :
  log_of (after_label "bug") "carol" =
    [{| act_type := Issue_labeled;
        occured_at := "2024-03-05T12:00:00Z";
        act_title := val "Labeled issue #7 - bug";
        act_link := val "https://github.com/CircuitVerse/CircuitVerse/issues/7";
        act_points := 2 |}] /\
  score_of (after_label "bug") "carol" = 2.
Proof. by vm_compute. Qed.

Lemma labeled_event_scoring_witness :
  (automated_label (labeled_by_carol "bug") \/ unnamed_label (labeled_by_carol "bug") ->
     forall h, log_of (after_label "bug") h = log_of [] h /\
               score_of (after_label "bug") h = score_of [] h) /\
  (~ (automated_label (labeled_by_carol "bug") \/ unnamed_label (labeled_by_carol "bug")) ->
     exists labelName,
       event_label (labeled_by_carol "bug") = Some labelName /\
       log_of (after_label "bug") (login (actor (labeled_by_carol "bug"))) =
         log_of [] (login (actor (labeled_by_carol "bug"))) ++
           [labeled_activity issue_7 "7" (labeled_by_carol "bug") labelName] /\
       score_of (after_label "bug") (login (actor (labeled_by_carol "bug"))) =
         score_of [] (login (actor (labeled_by_carol "bug"))) + 2).
Proof.
  exact (labeled_event_scoring sample_parseDate [] [] window_start run_start
           issue_7 "7" [] (labeled_by_carol "bug") eq_refl eq_refl eq_refl eq_refl).
Defined.

(** C7, as the claim words it, fails: [ci-label] is on the claim's list
    and is scored; [github_actions] is not on it and is excluded, and so
    is any label that only contains a listed name. *)
Lemma ci_label_is_scored :
  isAutomatedLabel "ci-label" = false /\
  score_of (after_label "ci-label") "carol" = 2 /\
  length (log_of (after_label "ci-label") "carol") = 1%nat /\
  isAutomatedLabel "github_actions" = true /\
  log_of (after_label "github_actions") "carol" = [] /\
  score_of (after_label "github_actions") "carol" = 0 /\
  isAutomatedLabel "Needs-Security-Review" = true /\
  log_of (after_label "Needs-Security-Review") "carol" = [].
Proof. by vm_compute. Qed.

(** A run that starts on 12 March 2024 at 08:00:00 and writes
    [year.json] at 08:10:00, and a review that bob submits on alice's pull
    request at 08:05:00. *)
Definition pr_42 : GitHubPR :=
  {| number := 42; pr_user := human "alice"; updated_at := Some "2024-03-12T08:05:00Z" |}.

Definition review_by_bob : GitHubReview :=
  {| review_user := human "bob"; state := "APPROVED";
     submitted_at := "2024-03-12T08:05:00Z" |}.

Definition only_reviews : Fetched :=
  {| prs_opened := []; prs_merged := []; issues_opened := [];
     repo_reviews := [("CircuitVerse", [(pr_42, [review_by_bob])])];
     updated_issues := [] |}.

(** What the source answers a week later: the pull request has been
    updated since, its reviews are the same. *)
Definition pr_42_later : GitHubPR :=
  {| number := 42; pr_user := human "alice"; updated_at := Some "2024-03-18T00:00:00Z" |}.

Definition only_reviews_later : Fetched :=
  {| prs_opened := []; prs_merged := []; issues_opened := [];
     repo_reviews := [("CircuitVerse", [(pr_42_later, [review_by_bob])])];
     updated_issues := [] |}.

Definition clock_at (start written : Z) : Clock :=
  {| now := start;
     since_read := start;
     display_read := written;
     updated_now := written;
     fetched_now := written;
     week_clock := {| started_at := written; written_at := written; ended_at := written |};
     month_clock := {| started_at := written; written_at := written; ended_at := written |};
     recent_read := written;
     recent_written := written |}.

Definition sample_url (url : string) : option (string * string) :=
  if streq url "https://github.com/CircuitVerse/CircuitVerse/issues/7"
  then Some ("CircuitVerse", "7")
  else None.

Definition run (clock : Clock) (existing : option YearData) (fetched : Fetched) : option Output :=
  generateYear sample_parseDate sample_localeCompare sample_iso sample_daysAgo [] []
    sample_url clock existing fetched.

Definition first_run : option Output :=
  run (clock_at 1710230400000 1710231000000) None only_reviews.

(** The next run, a week later, on the snapshot the first run wrote. *)
Definition second_run : option Output :=
  run (clock_at 1710835200000 1710835800000) (year <$> first_run) only_reviews_later.

(** The same next run, had the first run written its start as cursor. *)
Definition with_cursor (t : Z) (data : YearData) : YearData :=
  {| period := period data; updatedAt := updatedAt data; lastFetchedAt := Some t;
     startDate := startDate data; endDate := endDate data; entries := entries data |}.

Definition second_run_from_start : option Output :=
  run (clock_at 1710835200000 1710835800000)
    (with_cursor 1710230400000 ∘ year <$> first_run) only_reviews_later.

(** C6 fails on the code.  The cursor the first run writes is the time of
    writing, ten minutes after the end of its fetch window; the review
    submitted in between is outside the window of the first run and before
    the window of the second, and bob is never credited.  With the start
    of the first run as cursor the second run credits him. *)
Theorem cursor_after_window_loses_review :
  (now (clock_at 1710230400000 1710231000000) = 1710230400000) /\
  (lastFetchedAt ∘ year <$> first_run) = Some (Some 1710231000000) /\
  (entries ∘ year <$> first_run) = Some [] /\
  (entries ∘ year <$> second_run) = Some [] /\
  ((fun out => (fun c => (username c, total_points c)) <$> entries (year out))
     <$> second_run_from_start) = Some [("bob", 4)].
Proof. by vm_compute. Qed.

(** A pull request opened by an account of type ["User"] whose handle
    ends in [-bot]. *)
Definition pr_by_deploy_bot : GitHubSearchItem :=
  {| item_user := human "deploy-bot";
     item_title := "Bump version";
     html_url := "https://github.com/CircuitVerse/CircuitVerse/pull/50";
     created_at := "2024-03-05T12:00:00Z";
     closed_at := None |}.

Definition only_deploy_bot : Fetched :=
  {| prs_opened := [pr_by_deploy_bot]; prs_merged := []; issues_opened := [];
     repo_reviews := []; updated_issues := [] |}.

(** C4, as the claim words it, fails for the files a run writes: a handle
    that ends in [-bot], of an account of type ["User"], has an entry in
    the year, week and month snapshots and in the recent-activity feed. *)
Lemma suffix_bot_handle_in_snapshots :
  endsWith (toLowerCase "deploy-bot") "-bot" = true /\
  (output_handles <$> run (clock_at 1710230400000 1710231000000) None only_deploy_bot) =
    Some ["deploy-bot"; "deploy-bot"; "deploy-bot"; "deploy-bot"].
Proof. by vm_compute. Qed.

(** *** A run with something of everything *)

(** alice's pull request #42, opened and merged, as the searches answer
    it. *)
Definition pr_item_42 : GitHubSearchItem :=
  {| item_user := human "alice";
     item_title := "Fix the wire tool";
     html_url := "https://github.com/CircuitVerse/CircuitVerse/pull/42";
     created_at := "2024-03-01T10:00:00Z";
     closed_at := Some "2024-03-02T09:30:00Z" |}.

Definition assigned_by_carol (assigneeLogin : string) : GitHubIssueEvent :=
  {| event := "assigned";
     actor := human "carol";
     event_created_at := "2024-03-05T12:00:00Z";
     event_label := None;
     assignee := Some assigneeLogin |}.

Definition closed_by (handle : string) : GitHubIssueEvent :=
  {| event := "closed";
     actor := human handle;
     event_created_at := "2024-03-05T12:00:00Z";
     event_label := None;
     assignee := None |}.

Definition busy_fortnight : Fetched :=
  {| prs_opened := [pr_item_42];
     prs_merged := [pr_item_42];
     issues_opened := [issue_7];
     repo_reviews := reviews_of_42;
     updated_issues :=
       [(issue_7, Some [labeled_by_carol "bug"; assigned_by_carol "erin"; closed_by "carol"])] |}.

Definition busy_passes : option (JsMap Contributor) :=
  fetch_passes sample_parseDate [] [] sample_url window_start run_start busy_fortnight.

Example busy_passes_scores :
  ((fun users : JsMap Contributor =>
      (fun e : string * Contributor => (e.1, total_points e.2)) <$> users) <$> busy_passes) =
  Some [("alice", 7); ("dave", 1); ("bob", 4); ("carol", 5)].
Proof. by vm_compute. Qed.

Lemma breakdown_per_label_witness :
  NoDup (activity_breakdown alice_recomputed).*1 /\
  counter PR_opened (activity_breakdown alice_recomputed) =
    Some {| count := 1; points := 2 |}.
Proof.
  apply (breakdown_per_label sample_localeCompare [("alice", alice_logged)]
           alice_recomputed PR_opened).
  vm_compute. apply list_elem_of_here.
Defined.

Lemma daily_per_day_witness :
  filter (fun d => date d = "2024-03-02") (daily_activity alice_recomputed) =
    [{| date := "2024-03-02"; day_count := 1; day_points := 5 |}].
Proof.
  apply (daily_per_day sample_localeCompare [("alice", alice_logged)]
           alice_recomputed "2024-03-02").
  vm_compute. apply list_elem_of_here.
Defined.

Lemma first_occurrence_retained_witness :
  exists after,
    map_get (deduplicateAndRecalculate sample_localeCompare [("alice", alice_logged)]) "alice" =
      Some after /\
    raw_activities after `sublist_of` raw_activities alice_logged /\
    filter (fun a => act_key a = act_key pr_opened_42) (raw_activities after) =
      take 1 (filter (fun a => act_key a = act_key pr_opened_42) (raw_activities alice_logged)).
Proof.
  apply (first_occurrence_retained sample_localeCompare [("alice", alice_logged)] "alice"
           alice_logged (act_key pr_opened_42)).
  reflexivity.
Defined.

Lemma fetch_passes_consistent_witness :
  exists users c,
    busy_passes = Some users /\ c ∈ map_values users /\ consistent c.
Proof.
  eexists. eexists. split; [by vm_compute|]. split; [apply list_elem_of_here|].
  eapply (fetch_passes_consistent sample_parseDate [] [] sample_url window_start run_start
            busy_fortnight).
  - by vm_compute.
  - apply list_elem_of_here.
Defined.

Lemma full_run_scores_by_table_witness :
  exists out entry a,
    run (clock_at 1710230400000 1710231000000) None busy_fortnight = Some out /\
    entry ∈ entries (year out) /\
    a ∈ raw_activities entry /\
    table_scored a.
Proof.
  eexists. eexists. eexists. split; [by vm_compute|].
  split; [apply list_elem_of_here|]. split; [apply list_elem_of_here|].
  eapply (full_run_scores_by_table sample_parseDate sample_localeCompare sample_iso
           sample_daysAgo [] [] sample_url
            (clock_at 1710230400000 1710231000000) None busy_fortnight).
  - reflexivity.
  - by vm_compute.
  - apply list_elem_of_here.
  - apply list_elem_of_here.
Defined.

Definition after_event (ev : GitHubIssueEvent) : JsMap Contributor :=
  triage_event sample_parseDate [] [] window_start run_start issue_7 "7" [] ev.

Example assignment_and_closure_scored :
  log_of (after_event (assigned_by_carol "erin")) "carol" =
    [{| act_type := Issue_assigned;
        occured_at := "2024-03-05T12:00:00Z";
        act_title := val "Assigned issue #7 to erin";
        act_link := val "https://github.com/CircuitVerse/CircuitVerse/issues/7";
        act_points := 2 |}] /\
  log_of (after_event (assigned_by_carol "carol")) "carol" = [] /\
  log_of (after_event (closed_by "carol")) "carol" =
    [{| act_type := Issue_closed;
        occured_at := "2024-03-05T12:00:00Z";
        act_title := val "Closed issue #7 - Crash - on save";
        act_link := val "https://github.com/CircuitVerse/CircuitVerse/issues/7";
        act_points := 1 |}] /\
  log_of (after_event (closed_by "dave")) "dave" = [].
Proof. by vm_compute. Qed.

Lemma assigned_event_scoring_witness :
  credited [] (after_event (assigned_by_carol "erin")) "carol"
    (assigned_activity issue_7 "7" (assigned_by_carol "erin") "erin").
Proof.
  exact (assigned_event_scoring sample_parseDate [] [] window_start run_start
           issue_7 "7" [] (assigned_by_carol "erin") eq_refl eq_refl eq_refl eq_refl).
Defined.

Lemma closed_event_scoring_witness :
  credited [] (after_event (closed_by "carol")) "carol"
    (closed_activity issue_7 "7" (closed_by "carol")).
Proof.
  exact (closed_event_scoring sample_parseDate [] [] window_start run_start
           issue_7 "7" [] (closed_by "carol") eq_refl eq_refl eq_refl eq_refl).
Defined.

(** Reviews that do not count: alice on her own pull request, a bot, bob
    only commenting, and bob approving before the window. *)
Definition idle_reviews : list RepoReviews :=
  [("CircuitVerse",
    [({| number := 42; pr_user := human "alice"; updated_at := Some "2024-03-05T12:00:00Z" |},
      [{| review_user := human "alice"; state := "APPROVED";
          submitted_at := "2024-03-02T09:30:00Z" |};
       {| review_user :=
            {| login := "review-helper[bot]"; gh_name := None; gh_avatar_url := None;
               gh_type := Some "Bot" |};
          state := "APPROVED"; submitted_at := "2024-03-02T09:30:00Z" |};
       {| review_user := human "bob"; state := "COMMENTED";
          submitted_at := "2024-03-02T09:30:00Z" |};
       {| review_user := human "bob"; state := "APPROVED";
          submitted_at := "2024-02-01T00:00:00Z" |}])])].

Lemma unqualified_reviews_change_nothing_witness :
  fetchAllReviews sample_parseDate [] [] [("alice", alice_recomputed)]
    1709251200000 run_start idle_reviews = [("alice", alice_recomputed)].
Proof.
  apply (unqualified_reviews_change_nothing sample_parseDate [] []
           [("alice", alice_recomputed)] 1709251200000 run_start idle_reviews).
  intros item Hin. vm_compute in Hin.
  repeat (apply elem_of_cons in Hin as [->|Hin]).
  - right. right. right. left. reflexivity.
  - right. left. reflexivity.
  - right. right. right. right. left. by split.
  - right. right. right. right. right. left. reflexivity.
  - by apply elem_of_nil in Hin.
Defined.

Lemma year_snapshot_wellformed_witness :
  exists out,
    run (clock_at 1710230400000 1710231000000) None busy_fortnight = Some out /\
    (username <$> entries (year out)) = ["alice"; "carol"; "bob"; "dave"] /\
    NoDup (username <$> entries (year out)) /\
    (forall entry, entry ∈ entries (year out) ->
       0 < total_points entry /\
       total_points entry = sum_points (raw_activities entry) /\
       NoDup (act_key <$> raw_activities entry)) /\
    Sorted (rank_ge total_points) (entries (year out)) /\
    isIncremental (Some (year out)) = true.
Proof.
  eexists. split; [by vm_compute|]. split; [by vm_compute|].
  eapply (year_snapshot_wellformed sample_parseDate sample_localeCompare sample_iso
            sample_daysAgo [] [] sample_url
            (clock_at 1710230400000 1710231000000) None busy_fortnight).
  by vm_compute.
Defined.

(** [sample_prior] as a file without [lastFetchedAt] holds it. *)
Definition sample_prior_without_cursor : YearData :=
  {| period := period sample_prior; updatedAt := updatedAt sample_prior;
     lastFetchedAt := None;
     startDate := startDate sample_prior; endDate := endDate sample_prior;
     entries := entries sample_prior |}.

Lemma snapshot_without_cursor_is_discarded_witness :
  run (clock_at 1710230400000 1710231000000) (Some sample_prior_without_cursor) only_reviews =
  run (clock_at 1710230400000 1710231000000) None only_reviews.
Proof.
  apply (snapshot_without_cursor_is_discarded sample_parseDate sample_localeCompare sample_iso
           sample_daysAgo [] [] sample_url
           (clock_at 1710230400000 1710231000000) sample_prior_without_cursor only_reviews).
  reflexivity.
Defined.

Lemma history_is_kept_witness :
  exists out,
    run (clock_at 1710835200000 1710835800000) (Some sample_prior) only_reviews_later =
      Some out /\
    exists entry' b,
      entry' ∈ entries (year out) /\
      username entry' = username bob_recomputed /\
      b ∈ raw_activities entry' /\
      act_key b = act_key review_on_42.
Proof.
  eexists. split; [by vm_compute|].
  eapply (history_is_kept sample_parseDate sample_localeCompare sample_iso
            sample_daysAgo [] [] sample_url
            (clock_at 1710835200000 1710835800000) sample_prior only_reviews_later _
            bob_recomputed review_on_42).
  - by eexists.
  - intros e x He Hx. vm_compute in He.
    repeat (apply elem_of_cons in He as [->|He]); [| |by apply elem_of_nil in He];
      vm_compute in Hx;
      repeat (apply elem_of_cons in Hx as [->|Hx]); by try apply elem_of_nil in Hx.
  - by vm_compute.
  - vm_compute. apply elem_of_cons. right. apply list_elem_of_here.
  - apply list_elem_of_here.
Defined.


(** On 9 March 2024 the week of [sample_prior] lies within its month. *)
Definition march_9 : PeriodClock :=
  {| started_at := 1709942400000; written_at := 1709942400000; ended_at := 1709942400000 |}.

Lemma shorter_period_within_longer_witness :
  exists e,
    e ∈ pd_entries (derivePeriod sample_parseDate sample_iso sample_daysAgo sample_prior 7
                      march_9 "week") /\
    exists e',
      e' ∈ pd_entries (derivePeriod sample_parseDate sample_iso sample_daysAgo sample_prior 30
                         march_9 "month") /\
      ue_profile e' = ue_profile e /\
      ue_activities e =
        filter (fun a => date_ge sample_parseDate (occured_at a)
                           (sample_daysAgo (started_at march_9) 7) = true)
          (ue_activities e').
Proof.
  eexists. split; [vm_compute; apply list_elem_of_here|].
  eapply (shorter_period_within_longer sample_parseDate sample_iso sample_daysAgo sample_prior
            7 march_9 "week" 30 march_9 "month").
  - by vm_compute.
  - vm_compute. apply list_elem_of_here.
Defined.


(** Two pages of repositories, then a page the source refuses; the page
    after it is never requested. *)
Definition repo_pages (page : nat) : option (list GitHubRepo) :=
  match page with
  | 1%nat => Some [{| repo_name := "CircuitVerse" |}; {| repo_name := "cv-frontend-vue" |}]
  | 2%nat => Some [{| repo_name := "Interactive-Book" |}]
  | 3%nat => None
  | _ => Some [{| repo_name := "never-requested" |}]
  end.

Lemma fetchOrgRepos_until_first_gap_witness :
  fetchOrgRepos 5 repo_pages = Some ["CircuitVerse"; "cv-frontend-vue"; "Interactive-Book"].
Proof.
  apply (fetchOrgRepos_until_first_gap repo_pages 2 5).
  - intros page Hpage. assert (page = 1 \/ page = 2)%nat as [-> | ->] by lia;
      eexists; by split.
  - by left.
  - lia.
Defined.

Definition pr_updated (n : Z) (updated : option string) : GitHubPR :=
  {| number := n; pr_user := human "alice"; updated_at := updated |}.

(** Pull requests by descending date of update; the second page ends
    with one updated before 1 March 2024. *)
Definition pr_pages (page : nat) : option (list GitHubPR) :=
  match page with
  | 1%nat => Some [pr_updated 44 (Some "2024-03-12T08:05:00Z"); pr_updated 43 None;
                   pr_updated 42 (Some "2024-03-05T12:00:00Z")]
  | 2%nat => Some [pr_updated 41 (Some "2024-03-02T09:30:00Z");
                   pr_updated 40 (Some "2024-02-01T00:00:00Z")]
  | _ => Some [pr_updated 39 (Some "2024-03-12T08:05:00Z")]
  end.

Lemma fetchRepoPRs_until_first_stop_witness :
  exists prs,
    fetchRepoPRs sample_parseDate 5 pr_pages 1709251200000 = Some prs /\
    prs = filter (fun pr => updated_since sample_parseDate 1709251200000 pr = true)
            (items_of_pages pr_pages 1 2) /\
    (forall pr, pr ∈ prs ->
       exists s t, updated_at pr = Some s /\ sample_parseDate s = Some t /\ 1709251200000 <= t).
Proof.
  apply (fetchRepoPRs_until_first_stop sample_parseDate pr_pages 1709251200000 1 5).
  - intros page Hpage. assert (page = 1)%nat as -> by lia. reflexivity.
  - reflexivity.
  - lia.
Defined.

Example pull_requests_listed :
  ((fun prs : list GitHubPR => number <$> prs)
     <$> fetchRepoPRs sample_parseDate 5 pr_pages 1709251200000) =
  Some [44; 42; 41].
Proof. by vm_compute. Qed.


Lemma idle_run_keeps_the_board_witness :
  exists out,
    run (clock_at 1710230400000 1710231000000) None busy_fortnight = Some out /\
    exists out',
      run (clock_at 1710835200000 1710835800000) (Some (year out)) nothing_fetched =
        Some out' /\
      entries (year out') = entries (year out).
Proof.
  eexists. split; [by vm_compute|].
  eapply (idle_run_keeps_the_board sample_parseDate sample_localeCompare sample_iso
            sample_daysAgo [] [] sample_url
            (clock_at 1710230400000 1710231000000) None busy_fortnight).
  by vm_compute.
Defined.


End Leaderboard.


(** ** The generator from a list of activities ([generateLeaderboard]) *)

Module Legacy.
Import Js.

Record Activity : Type := {
  act_username : string;
  act_name : nullable string;
  act_avatar_url : string;
  act_role : option string;
  act_type : string;
  act_points : Z;
  occured_at : string
}.

Record Contributor : Type := {
  username : string;
  name : option string;
  avatar_url : string;
  role : string;
  total_points : Z;
  activity_breakdown : list (string * Leaderboard.Stat);
  daily_activity : list Leaderboard.DailyActivity
}.

Definition normalizeActivityLabel (type : string) : option string :=
  let t := toLowerCase type in
  if streq t "pull_request_opened" then Some "PR opened"
  else if streq t "pull_request_merged" then Some "PR merged"
  else if includes t "issue" then Some "Issue opened"
  else if includes t "commit" then Some "Commit"
  else if includes t "star" then Some "Star"
  else None.

Definition addToBreakdown (breakdown : list (string * Leaderboard.Stat)) (label : string)
    (points : Z) : list (string * Leaderboard.Stat) :=
  Leaderboard.bump label points breakdown.

(** *** The object [contributors]

    [contributors] is an object literal: besides its own properties, kept
    here in the order of their creation, a read finds the properties of
    [Object.prototype], none of which is [null] or [undefined]. *)
Definition inherited_names : list string :=
  ["constructor"; "__defineGetter__"; "__defineSetter__"; "hasOwnProperty";
   "__lookupGetter__"; "__lookupSetter__"; "isPrototypeOf"; "propertyIsEnumerable";
   "toString"; "valueOf"; "__proto__"; "toLocaleString"].

Definition inherited (k : string) : bool := bool_decide (k ∈ inherited_names).

Fixpoint decimal (acc : Z) (s : string) : option Z :=
  match s with
  | EmptyString => Some acc
  | String c r =>
      let n := Z.of_nat (nat_of_ascii c) in
      if (48 <=? n) && (n <=? 57) then decimal (acc * 10 + (n - 48)) r else None
  end.

(** A key that is an array index: the canonical numeral of an integer
    from [0] to [2^32 - 2]. *)
Definition array_index (k : string) : option Z :=
  if truthy k && (streq k "0" || negb (startsWith k "0")) then
    match decimal 0 k with
    | Some n => if n <? 4294967295 then Some n else None
    | None => None
    end
  else None.

Example array_index_sample :
  array_index <$> [""; "0"; "42"; "042"; "4294967294"; "4294967295"; "4x"; "alice"] =
  [None; Some 0; Some 42; None; Some 4294967294; None; None; None].
Proof. reflexivity. Qed.

(** [Object.values]: the values of the keys that are array indices, by
    ascending index, then those of the other keys in the order of their
    creation. *)
Definition own_values {V} (o : JsMap V) : list V :=
  (snd <$> js_sort (fun a b : Z * V => a.1 - b.1)
             (omap (fun e => (fun n => (n, e.2)) <$> array_index e.1) o)) ++
  (snd <$> filter (fun e => ¬ is_Some (array_index e.1)) o).

Definition sum_points (l : list Activity) : Z :=
  foldr (fun a n => act_points a + n) 0 l.

(** The activities of a username, and those of them that have a label. *)
Definition of_user (u : string) (l : list Activity) : list Activity :=
  filter (fun a => act_username a = u) l.

Definition scored (u : string) (l : list Activity) : list Activity :=
  filter (fun a => is_Some (normalizeActivityLabel (act_type a))) (of_user u l).

Section Generator.
Local Set Default Proof Using "Type".

(** [isoDay s] is [new Date(s).toISOString().slice(0, 10)], [None] when
    [toISOString] throws (the date is not valid). *)
Context (isoDay : string -> option string).

Definition new_contributor (activity : Activity) : Contributor :=
  {| username := act_username activity;
     name := or_null (act_name activity);
     avatar_url := act_avatar_url activity;
     role := default "Contributor" (act_role activity);
     total_points := 0;
     activity_breakdown := [];
     daily_activity := [] |}.

(** What the loop does to the contributor once the label and the day are
    known. *)
Definition tally (label date : string) (points : Z) (contributor : Contributor)
    : Contributor :=
  {| username := username contributor;
     name := name contributor;
     avatar_url := avatar_url contributor;
     role := role contributor;
     total_points := total_points contributor + points;
     activity_breakdown := addToBreakdown (activity_breakdown contributor) label points;
     daily_activity := Leaderboard.bump_day date points (daily_activity contributor) |}.

(** The body of the loop; [None]: an exception is thrown.  When the
    username names a property of [Object.prototype], [??=] finds that
    property and assigns nothing, and [contributor.activity_breakdown] is
    [undefined]: [addToBreakdown] throws. *)
Definition step (contributors : JsMap Contributor) (activity : Activity)
    : option (JsMap Contributor) :=
  if negb (truthy (act_username activity)) then Some contributors
  else
    let own := map_has contributors (act_username activity) in
    let foreign := negb own && inherited (act_username activity) in
    let contributors :=
      if own || foreign then contributors
      else map_set contributors (act_username activity) (new_contributor activity) in
    match normalizeActivityLabel (act_type activity) with
    | None => Some contributors
    | Some label =>
        if foreign then None
        else
          match isoDay (occured_at activity) with
          | None => None
          | Some date =>
              Some (map_mutate contributors (act_username activity)
                      (tally label date (act_points activity)))
          end
    end.

Definition run_from (contributors : option (JsMap Contributor)) (activities : list Activity)
    : option (JsMap Contributor) :=
  foldl (fun acc activity => acc ≫= fun contributors => step contributors activity)
    contributors activities.

Definition generateLeaderboard (activities : list Activity) : option (list Contributor) :=
  own_values <$> run_from (Some []) activities.

(** *** What a contributor stands for *)

(** The name, the avatar and the role are those of the first activity of
    the username. *)
Definition profile_from (c : Contributor) (mine : list Activity) : Prop :=
  exists first,
    head mine = Some first /\
    name c = or_null (act_name first) /\
    avatar_url c = act_avatar_url first /\
    role c = default "Contributor" (act_role first).

(** The totals, the breakdown and the days add up to the activities. *)
Definition sums_of (c : Contributor) (labelled : list Activity) : Prop :=
  total_points c = sum_points labelled /\
  Leaderboard.breakdown_points (activity_breakdown c) = sum_points labelled /\
  Leaderboard.daily_points (daily_activity c) = sum_points labelled /\
  Leaderboard.breakdown_count (activity_breakdown c) = Z.of_nat (length labelled) /\
  Leaderboard.daily_count (daily_activity c) = Z.of_nat (length labelled).

(** The state of the loop once the activities [l] have been taken. *)
Definition holds (contributors : JsMap Contributor) (l : list Activity) : Prop :=
  NoDup (map_keys contributors) /\
  forall k,
    match map_get contributors k with
    | Some c =>
        username c = k /\ k <> "" /\ inherited k = false /\
        profile_from c (of_user k l) /\ sums_of c (scored k l)
    | None => k = "" \/ inherited k = true \/ of_user k l = []
    end.

Lemma of_user_snoc u l a :
  of_user u (l ++ [a]) = of_user u l ++ (if decide (act_username a = u) then [a] else []).
Proof. unfold of_user. by rewrite filter_app, filter_cons, filter_nil. Qed.

Lemma scored_snoc u l a :
  scored u (l ++ [a]) =
  scored u l ++
  (if decide (act_username a = u)
   then match normalizeActivityLabel (act_type a) with
        | Some _ => [a]
        | None => []
        end
   else []).
Proof.
  unfold scored. rewrite of_user_snoc, filter_app.
  destruct (decide (act_username a = u)); [|done].
  rewrite filter_cons, filter_nil.
  destruct (normalizeActivityLabel (act_type a)) eqn:Hlabel.
  - by rewrite decide_True.
  - rewrite decide_False; [done|]. by intros [? ?].
Qed.

Lemma sum_points_snoc l a : sum_points (l ++ [a]) = sum_points l + act_points a.
Proof. unfold sum_points. induction l as [|x r IH]; simpl; lia. Qed.

Lemma profile_from_more c mine more :
  profile_from c mine -> profile_from c (mine ++ more).
Proof.
  intros (first & Hhead & Hrest). exists first. split; [|done].
  destruct mine; [done|]. done.
Qed.

Lemma sums_of_tally c labelled label date a :
  sums_of c labelled ->
  sums_of (tally label date (act_points a) c) (labelled ++ [a]).
Proof.
  intros (H1 & H2 & H3 & H4 & H5). unfold sums_of, tally, addToBreakdown.
  cbn [total_points activity_breakdown daily_activity].
  rewrite sum_points_snoc, length_app, Leaderboard.breakdown_points_bump,
    Leaderboard.daily_points_bump_day, Leaderboard.breakdown_count_bump,
    Leaderboard.daily_count_bump_day.
  cbn [length]. repeat split; lia.
Qed.

Lemma truthy_nonempty s : truthy s = true <-> s <> "".
Proof. destruct s; [split; [done|by intros []]|done]. Qed.

(** An activity of another username leaves a contributor as it is. *)
Lemma holds_other k c l a :
  act_username a <> k ->
  username c = k /\ k <> "" /\ inherited k = false /\
    profile_from c (of_user k l) /\ sums_of c (scored k l) ->
  username c = k /\ k <> "" /\ inherited k = false /\
    profile_from c (of_user k (l ++ [a])) /\ sums_of c (scored k (l ++ [a])).
Proof.
  intros Hne. rewrite of_user_snoc, scored_snoc, !decide_False by done.
  by rewrite !app_nil_r.
Qed.

Lemma absent_other k l a :
  act_username a <> k ->
  k = "" \/ inherited k = true \/ of_user k l = [] ->
  k = "" \/ inherited k = true \/ of_user k (l ++ [a]) = [].
Proof.
  intros Hne. rewrite of_user_snoc, decide_False by done. by rewrite app_nil_r.
Qed.

Lemma step_holds contributors l a contributors' :
  holds contributors l ->
  step contributors a = Some contributors' ->
  holds contributors' (l ++ [a]).
Proof.
  intros [Hnd Hall]. unfold step.
  destruct (truthy (act_username a)) eqn:Hname; cbn [negb].
  2:{ intros [= <-]. split; [done|]. intros k. specialize (Hall k).
      destruct (map_get contributors k) as [c|].
      - apply holds_other; [|done]. destruct Hall as (_ & Hk & _).
        intros Heq. rewrite Heq in Hname. by apply truthy_nonempty in Hk; rewrite Hk in Hname.
      - destruct (decide (k = "")) as [->|Hk]; [by left|].
        apply absent_other; [|done]. intros Heq. rewrite Heq in Hname.
        by apply truthy_nonempty in Hk; rewrite Hk in Hname. }
  apply truthy_nonempty in Hname.
  set (u := act_username a) in *.
  pose proof (Hall u) as Hu. unfold map_has.
  destruct (map_get contributors u) as [c0|] eqn:Hget; cbn [negb andb orb].
  - (* the username has an entry *)
    destruct (normalizeActivityLabel (act_type a)) as [label|] eqn:Hlabel.
    + destruct (isoDay (occured_at a)) as [date|]; [|done]. intros [= <-].
      split; [by rewrite map_keys_mutate|]. intros k.
      destruct (decide (u = k)) as [<-|Hne].
      * rewrite map_get_mutate_eq, Hget. cbn [fmap option_fmap option_map].
        destruct Hu as (Hc & Hk & Hin & Hprofile & Hsums).
        cbn [tally username]. split; [done|]. split; [done|]. split; [done|].
        rewrite of_user_snoc, scored_snoc, Hlabel. fold u. rewrite !decide_True by done.
        split.
        -- destruct Hprofile as (first & ? & ?). exists first. split; [|done].
           by destruct (of_user u l).
        -- by apply sums_of_tally.
      * rewrite map_get_mutate_ne by done. specialize (Hall k).
        destruct (map_get contributors k); [by apply holds_other|by apply absent_other].
    + intros [= <-]. split; [done|]. intros k.
      destruct (decide (u = k)) as [<-|Hne].
      * rewrite Hget. destruct Hu as (Hc & Hk & Hin & Hprofile & Hsums).
        split; [done|]. split; [done|]. split; [done|].
        rewrite of_user_snoc, scored_snoc, Hlabel. fold u. rewrite !decide_True by done.
        rewrite app_nil_r. split; [|done]. by apply profile_from_more.
      * specialize (Hall k).
        destruct (map_get contributors k); [by apply holds_other|by apply absent_other].
  - (* the username has no entry *)
    destruct (inherited u) eqn:Hinherited.
    + destruct (normalizeActivityLabel (act_type a)); [done|]. intros [= <-].
      split; [done|]. intros k. destruct (decide (u = k)) as [<-|Hne].
      * rewrite Hget. right. by left.
      * specialize (Hall k).
        destruct (map_get contributors k); [by apply holds_other|by apply absent_other].
    + assert (of_user u l = []) as Hnone by (by destruct Hu as [?|[?|?]]).
      assert (NoDup (map_keys (map_set contributors u (new_contributor a)))) as Hkeys.
      { rewrite map_keys_set. unfold map_has. rewrite Hget.
        apply NoDup_app. split; [done|]. split; [|apply NoDup_singleton].
        intros k Hk ->%list_elem_of_singleton. by apply map_get_None in Hget. }
      destruct (normalizeActivityLabel (act_type a)) as [label|] eqn:Hlabel.
      * destruct (isoDay (occured_at a)) as [date|]; [|done]. intros [= <-].
        split; [by rewrite map_keys_mutate|]. intros k.
        destruct (decide (u = k)) as [<-|Hne].
        -- rewrite map_get_mutate_eq, map_get_set_eq. cbn [fmap option_fmap option_map].
           cbn [tally new_contributor username]. fold u.
           split; [done|]. split; [done|]. split; [done|].
           rewrite of_user_snoc, scored_snoc, Hlabel. fold u. rewrite !decide_True by done.
           unfold scored. rewrite Hnone. split.
           ++ by exists a.
           ++ apply (sums_of_tally (new_contributor a) [] label date a). by repeat split.
        -- rewrite map_get_mutate_ne, map_get_set_ne by done. specialize (Hall k).
           destruct (map_get contributors k); [by apply holds_other|by apply absent_other].
      * intros [= <-]. split; [done|]. intros k.
        destruct (decide (u = k)) as [<-|Hne].
        -- rewrite map_get_set_eq. cbn [new_contributor username]. fold u.
           split; [done|]. split; [done|]. split; [done|].
           rewrite of_user_snoc, scored_snoc, Hlabel. fold u. rewrite !decide_True by done.
           unfold scored. rewrite Hnone. split; [by exists a|by repeat split].
        -- rewrite map_get_set_ne by done. specialize (Hall k).
           destruct (map_get contributors k); [by apply holds_other|by apply absent_other].
Qed.

Lemma run_from_None activities : run_from None activities = None.
Proof. unfold run_from. by induction activities. Qed.

Lemma run_from_holds activities : forall contributors l contributors',
  holds contributors l ->
  run_from (Some contributors) activities = Some contributors' ->
  holds contributors' (l ++ activities).
Proof.
  induction activities as [|a r IH]; intros contributors l contributors' Hholds.
  - intros [= <-]. by rewrite app_nil_r.
  - unfold run_from. cbn [foldl mbind option_bind].
    destruct (step contributors a) as [next|] eqn:Hstep.
    + intros Hrun. rewrite (assoc_L (++) l [a] r : l ++ a :: r = (l ++ [a]) ++ r).
      apply (IH next); [by eapply step_holds|done].
    + fold (run_from None r). by rewrite run_from_None.
Qed.

Lemma holds_nothing : holds [] [].
Proof. split; [constructor|]. intros k. right. by right. Qed.

(** *** [Object.values] *)

Lemma own_values_perm {V} (o : JsMap V) : own_values o ≡ₚ map_values o.
Proof.
  unfold own_values, map_values. rewrite js_sort_perm.
  rewrite <- (filter_app_complement (fun e => is_Some (array_index e.1)) o) at 3.
  rewrite fmap_app. f_equiv; [|done]. clear.
  induction o as [|[k v] r IH]; [done|].
  rewrite filter_cons. csimpl. destruct (array_index k) as [n|] eqn:Hk; csimpl.
  - by rewrite IH.
  - done.
Qed.


Lemma fmap_agree {A B} (f g : A -> B) (l : list A) :
  (forall x, x ∈ l -> f x = g x) -> f <$> l = g <$> l.
Proof.
  induction l as [|x r IH]; intros Hfg; [done|]. csimpl.
  rewrite Hfg by (apply elem_of_cons; by left). f_equal.
  apply IH. intros y Hy. apply Hfg, elem_of_cons. by right.
Qed.

Lemma holds_usernames contributors l :
  holds contributors l -> username <$> map_values contributors = map_keys contributors.
Proof.
  intros [Hnd Hall]. unfold map_values, map_keys. rewrite <- list_fmap_compose.
  apply fmap_agree. intros [k c] Hin. cbn [compose fst snd].
  pose proof (elem_of_map_get _ _ _ Hnd Hin) as Hget.
  specialize (Hall k). rewrite Hget in Hall. by destruct Hall.
Qed.

(** *** The board *)

(** When [generateLeaderboard] returns, the board has one contributor for
    every username that is not empty and has an activity, whatever the
    types of its activities (a username that names a property of
    [Object.prototype] is not listed); the name, the avatar and the role of
    a contributor are those of the first activity of its username, and its
    [total_points], its breakdown and its days add up to the activities of
    its username that have a label. *)
Theorem board_of_activities (activities : list Activity) (out : list Contributor) :
  generateLeaderboard activities = Some out ->
  NoDup (username <$> out) /\
  (forall u, u ∈ username <$> out <->
     u <> "" /\ inherited u = false /\ exists a, a ∈ activities /\ act_username a = u) /\
  (forall c, c ∈ out ->
     profile_from c (of_user (username c) activities) /\
     sums_of c (scored (username c) activities)).
Proof.
  unfold generateLeaderboard.
  destruct (run_from (Some []) activities) as [contributors|] eqn:Hrun; [|done].
  intros [= <-].
  pose proof (run_from_holds activities [] [] contributors holds_nothing Hrun) as Hholds.
  rewrite app_nil_l in Hholds. pose proof Hholds as [Hnd Hall].
  split; [|split].
  - rewrite own_values_perm, (holds_usernames _ _ Hholds). done.
  - intros u. rewrite own_values_perm, (holds_usernames _ _ Hholds).
    specialize (Hall u). split.
    + intros Hu. destruct (map_get contributors u) as [c|] eqn:Hget.
      * destruct Hall as (_ & Hne & Hin & (first & Hhead & _) & _).
        split; [done|]. split; [done|]. exists first.
        assert (first ∈ of_user u activities) as Hfirst.
        { destruct (of_user u activities) as [|x r]; [done|].
          injection Hhead as ->. apply list_elem_of_here. }
        by apply list_elem_of_filter in Hfirst as [? ?].
      * by apply map_get_None in Hget.
    + intros (Hne & Hin & a & Ha & Hu).
      destruct (map_get contributors u) as [c|] eqn:Hget.
      * apply map_get_elem_of in Hget. by apply (list_elem_of_fmap_2 fst _ (u, c)).
      * destruct Hall as [?|[?|Hnone]]; [done|congruence|].
        assert (a ∈ of_user u activities) as Hmine by (by apply list_elem_of_filter).
        rewrite Hnone in Hmine. by apply elem_of_nil in Hmine.
  - intros c Hc. rewrite own_values_perm in Hc.
    apply list_elem_of_fmap in Hc as ([k c'] & -> & Hin). cbn [snd].
    pose proof (elem_of_map_get _ _ _ Hnd Hin) as Hget.
    specialize (Hall k). rewrite Hget in Hall.
    destruct Hall as (-> & _ & _ & Hprofile & Hsums). done.
Qed.

(** *** Exceptions *)

(** The activity makes [generateLeaderboard] throw: it has a username and
    a label, and its username names a property of [Object.prototype] or
    its date is not valid. *)
Definition fatal (a : Activity) : Prop :=
  act_username a <> "" /\
  is_Some (normalizeActivityLabel (act_type a)) /\
  (inherited (act_username a) = true \/ isoDay (occured_at a) = None).

Lemma step_None contributors l a :
  holds contributors l -> step contributors a = None <-> fatal a.
Proof.
  intros [_ Hall]. unfold step, fatal, map_has.
  destruct (truthy (act_username a)) eqn:Hname; cbn [negb].
  2:{ split; [done|]. intros [Hne _]. apply truthy_nonempty in Hne. congruence. }
  apply truthy_nonempty in Hname. specialize (Hall (act_username a)).
  destruct (map_get contributors (act_username a)) as [c|]; cbn [negb andb orb].
  - destruct Hall as (_ & _ & Hin & _). rewrite Hin.
    destruct (normalizeActivityLabel (act_type a)) as [label|].
    + destruct (isoDay (occured_at a)) as [date|].
      * split; [done|]. by intros (_ & _ & [?|?]).
      * split; [|done]. intros _. split; [done|]. split; [by eexists|by right].
    + split; [done|]. by intros (_ & [? ?] & _).
  - destruct (inherited (act_username a)).
    + destruct (normalizeActivityLabel (act_type a)) as [label|].
      * split; [|done]. intros _. split; [done|]. split; [by eexists|by left].
      * split; [done|]. by intros (_ & [? ?] & _).
    + destruct (normalizeActivityLabel (act_type a)) as [label|].
      * destruct (isoDay (occured_at a)) as [date|].
        -- split; [done|]. by intros (_ & _ & [?|?]).
        -- split; [|done]. intros _. split; [done|]. split; [by eexists|by right].
      * split; [done|]. by intros (_ & [? ?] & _).
Qed.

Lemma run_from_throws activities : forall contributors l,
  holds contributors l ->
  run_from (Some contributors) activities = None <-> exists a, a ∈ activities /\ fatal a.
Proof.
  induction activities as [|a r IH]; intros contributors l Hholds.
  - split; [done|]. by intros (a & ?%elem_of_nil & _).
  - unfold run_from. cbn [foldl mbind option_bind].
    pose proof (step_None contributors l a Hholds) as Hstep.
    destruct (step contributors a) as [next|] eqn:Hnext.
    + fold (run_from (Some next) r).
      rewrite (IH next (l ++ [a])) by (by eapply step_holds). split.
      * intros (a' & Hin & Hfatal). exists a'. split; [apply elem_of_cons; by right|done].
      * intros (a' & [->|Hin]%elem_of_cons & Hfatal); [|by exists a'].
        by apply Hstep in Hfatal.
    + fold (run_from None r). rewrite run_from_None. split; [|done]. intros _.
      exists a. split; [apply elem_of_cons; by left|by apply Hstep].
Qed.

(** [generateLeaderboard] throws exactly when one of the activities that
    have a username and a label has a date that is not valid or a username
    that names a property of [Object.prototype]; an activity without a
    username or without a label never makes it throw. *)
Theorem generateLeaderboard_throws (activities : list Activity) :
  generateLeaderboard activities = None <-> exists a, a ∈ activities /\ fatal a.
Proof.
  unfold generateLeaderboard.
  assert (forall o : option (JsMap Contributor), own_values <$> o = None <-> o = None)
    as Hvalues by (by intros [?|]).
  rewrite Hvalues. apply (run_from_throws activities [] [] holds_nothing).
Qed.


End Generator.

(** *** Sample activities *)

(** The days of the instants of the examples. *)
Definition sample_isoDay (s : string) : option string :=
  match Leaderboard.sample_parseDate s with
  | Some _ => Some (slice0 10 s)
  | None => None
  end.

Definition activity_of (handle type : string) (points : Z) (at_ : string) : Activity :=
  {| act_username := handle; act_name := undefined;
     act_avatar_url := "https://avatars/" +:+ handle; act_role := None;
     act_type := type; act_points := points; occured_at := at_ |}.

(** alice opens and merges a pull request, the account [42] comments on
    an issue, bob forks (a type without a label), an activity has no
    username, and an account named [toString] stars without a label. *)
Definition a_week : list Activity :=
  [activity_of "alice" "pull_request_opened" 2 "2024-03-01T10:00:00Z";
   activity_of "42" "ISSUE_COMMENT" 1 "2024-03-02T09:30:00Z";
   activity_of "bob" "fork" 3 "2024-03-02T09:30:00Z";
   activity_of "alice" "PULL_REQUEST_MERGED" 5 "2024-03-02T09:30:00Z";
   activity_of "" "commit" 1 "2024-03-05T12:00:00Z";
   activity_of "toString" "fork" 1 "yesterday"].

Example a_week_board :
  (fun out : list Contributor =>
     (fun c => (username c, total_points c, activity_breakdown c)) <$> out)
    <$> generateLeaderboard sample_isoDay a_week =
  Some [("42", 1, [("Issue opened", {| Leaderboard.count := 1; Leaderboard.points := 1 |})]);
        ("alice", 7, [("PR opened", {| Leaderboard.count := 1; Leaderboard.points := 2 |});
                      ("PR merged", {| Leaderboard.count := 1; Leaderboard.points := 5 |})]);
        ("bob", 0, [])].
Proof. by vm_compute. Qed.

Lemma board_of_activities_witness :
  exists out,
    generateLeaderboard sample_isoDay a_week = Some out /\
    NoDup (username <$> out) /\
    (forall u, u ∈ username <$> out <->
       u <> "" /\ inherited u = false /\ exists a, a ∈ a_week /\ act_username a = u) /\
    (forall c, c ∈ out ->
       profile_from c (of_user (username c) a_week) /\
       sums_of c (scored (username c) a_week)).
Proof.
  eexists. split; [by vm_compute|].
  eapply (board_of_activities sample_isoDay a_week). by vm_compute.
Defined.

(** A labelled activity of an account named [constructor], and one with a
    date that is not valid, make the generator throw. *)
Example a_week_throws :
  generateLeaderboard sample_isoDay
    (a_week ++ [activity_of "constructor" "commit" 1 "2024-03-05T12:00:00Z"]) = None /\
  generateLeaderboard sample_isoDay
    (a_week ++ [activity_of "bob" "commit" 1 "yesterday"]) = None.
Proof. by vm_compute. Qed.


End Legacy.



(** ** The people route ([GET]): the cross-snapshot merge *)

Module People.
Import Js.

Record Activity : Type := {
  act_type : string;
  act_title : string;
  occured_at : string;
  act_link : string;
  act_points : Z
}.

#[global] Instance Activity_eq_dec : EqDecision Activity.
Proof. solve_decision. Defined.

Record Stat : Type := {
  count : Z;
  points : Z
}.

Record DailyActivity : Type := {
  date : string;
  day_count : Z;
  day_points : Z
}.

(** [activity_breakdown] is the list of [Object.entries]: the keys are
    pairwise distinct. *)
Record ContributorEntry : Type := {
  username : string;
  name : option string;
  avatar_url : string;
  role : string;
  total_points : Z;
  activity_breakdown : list (string * Stat);
  daily_activity : list DailyActivity;
  activities : option (list Activity)
}.

Record LeaderboardData : Type := {
  period : string;
  updatedAt : Z;
  entries : option (list ContributorEntry)
}.

(** A file of [public/leaderboard]: its name and, when it can be read and
    parsed, its content. *)
Definition File : Type := string * option LeaderboardData.

Definition isBot (handle : string) : bool :=
  let username := toLowerCase handle in
  endsWith username "[bot]" ||
  endsWith username "-bot" ||
  endsWith username "_bot" ||
  streq username "dependabot" ||
  streq username "renovate" ||
  streq username "github-actions" ||
  startsWith username "renovate[" ||
  startsWith username "dependabot[".

Definition identifier (activity : Activity) : string :=
  if truthy (act_link activity)
  then act_type activity +:+ "-" +:+ act_link activity
  else act_type activity +:+ "-" +:+ act_title activity +:+ "-" +:+ occured_at activity.

(** The loop that fills [combined]: the first activity of each
    identifier. *)
Fixpoint union_activities (seen : gset string) (l : list Activity) : list Activity :=
  match l with
  | [] => []
  | activity :: rest =>
      if decide (identifier activity ∈ seen) then union_activities seen rest
      else activity :: union_activities ({[identifier activity]} ∪ seen) rest
  end.

Definition expectedCount (entry : ContributorEntry) : Z :=
  foldl (fun sum e => sum + count e.2) 0 (activity_breakdown entry).

Definition epoch : string := "1970-01-01T00:00:00.000Z".

Definition placeholder (type : string) (info : Stat) : Activity :=
  {| act_type := type;
     act_title := type +:+ " contribution";
     occured_at := epoch;
     act_link := "";
     act_points := points info |}.

Definition count_type (type : string) (combined : list Activity) : nat :=
  length (filter (fun a => act_type a = type) combined).

(** The body of the loop over [Object.entries(entry.activity_breakdown)]. *)
Definition fill_type (combined : list Activity) (e : string * Stat) : list Activity :=
  let existingCount := Z.of_nat (count_type e.1 combined) in
  let missing := count e.2 - existingCount in
  combined ++ replicate (Z.to_nat missing) (placeholder e.1 e.2).

Definition fill_missing (entry : ContributorEntry) (combined : list Activity) : list Activity :=
  if Z.of_nat (length combined) <? expectedCount entry
  then foldl fill_type combined (activity_breakdown entry)
  else combined.

Section Route.
Local Set Default Proof Using "Type".
Context (parseDate : string -> option Z).

(** [new Date(b.occured_at).getTime() - new Date(a.occured_at).getTime()];
    a comparison that is not a number counts as [0]. *)
Definition by_time_desc (a b : Activity) : Z :=
  match parseDate (occured_at b), parseDate (occured_at a) with
  | Some tb, Some ta => tb - ta
  | _, _ => 0
  end.

(** [combined], sorted, before the placeholders. *)
Definition combine (existing entry : ContributorEntry) : list Activity :=
  js_sort by_time_desc
    (union_activities ∅
       (default [] (activities existing) ++ default [] (activities entry))).

(** The entry stored for a handle seen before:
    [{ ...existing, ...entry, activities: combined.slice(0, 15) }]. *)
Definition merge_entry (existing entry : ContributorEntry) : ContributorEntry :=
  {| username := username entry;
     name := name entry;
     avatar_url := avatar_url entry;
     role := role entry;
     total_points := total_points entry;
     activity_breakdown := activity_breakdown entry;
     daily_activity := daily_activity entry;
     activities := Some (take 15 (fill_missing entry (combine existing entry))) |}.

(** The entry stored at first sight:
    [{ ...entry, activities: entry.activities ?? [] }]. *)
Definition first_sight (entry : ContributorEntry) : ContributorEntry :=
  {| username := username entry;
     name := name entry;
     avatar_url := avatar_url entry;
     role := role entry;
     total_points := total_points entry;
     activity_breakdown := activity_breakdown entry;
     daily_activity := daily_activity entry;
     activities := Some (default [] (activities entry)) |}.

(** The body of the loop over the entries of a file. *)
Definition add_entry (allContributors : JsMap ContributorEntry) (entry : ContributorEntry)
    : JsMap ContributorEntry :=
  if isBot (username entry) then allContributors
  else
    match map_get allContributors (username entry) with
    | None => map_set allContributors (username entry) (first_sight entry)
    | Some existing => map_set allContributors (username entry) (merge_entry existing entry)
    end.

(** The state of the loop over the files: [allContributors] and
    [latestUpdatedAt]. *)
Definition add_file (st : JsMap ContributorEntry * Z) (file : File) : JsMap ContributorEntry * Z :=
  match file.2 with
  | None => st
  | Some data =>
      (foldl add_entry st.1 (default [] (entries data)),
       if st.2 <? updatedAt data then updatedAt data else st.2)
  end.

Definition served (file : File) : bool :=
  endsWith file.1 ".json" && negb (streq file.1 "recent-activities.json").

Definition collect (dir : list File) : JsMap ContributorEntry * Z :=
  foldl add_file ([], 0) (filter (fun file => served file = true) dir).

Record Response : Type := {
  resp_updatedAt : Z;
  people : list ContributorEntry
}.

(** [GET]: the body of the answer; [None] is the answer of status 500,
    given when the directory cannot be listed.  The answer also carries
    [coreTeam] and [alumni], the constants of [lib/team-data]. *)
Definition GET (dir : option (list File)) : option Response :=
  files ← dir;
  let st := collect files in
  Some {| resp_updatedAt := st.2;
          people := js_sort (by_rank_desc total_points) (map_values st.1) |}.

(** *** Whose fields a merged entry carries *)

Definition base_fields (e : ContributorEntry)
    : option string * string * string * Z * list (string * Stat) * list DailyActivity :=
  (name e, avatar_url e, role e, total_points e, activity_breakdown e, daily_activity e).

Definition file_entries (file : File) : list ContributorEntry :=
  match file.2 with
  | Some data => default [] (entries data)
  | None => []
  end.

(** The entries the loops of [GET] take, in order: those of the files
    served, without the bots. *)
Definition taken (entries : list ContributorEntry) : list ContributorEntry :=
  filter (fun e => isBot (username e) = false) entries.

Definition taken_entries (dir : list File) : list ContributorEntry :=
  taken (filter (fun file => served file = true) dir ≫= file_entries).

(** The last entry of a handle. *)
Definition last_entry (handle : string) (l : list ContributorEntry) : option ContributorEntry :=
  last (filter (fun e => username e = handle) l).

(** What the map holds once the entries [processed] have been taken. *)
Definition holds_last (m : JsMap ContributorEntry) (processed : list ContributorEntry) : Prop :=
  forall handle,
    match map_get m handle with
    | Some v =>
        username v = handle /\
        exists e, last_entry handle processed = Some e /\ base_fields v = base_fields e
    | None => last_entry handle processed = None
    end.

Lemma last_entry_snoc handle l e :
  last_entry handle (l ++ [e]) =
  if decide (username e = handle) then Some e else last_entry handle l.
Proof.
  unfold last_entry. rewrite filter_app, filter_cons, filter_nil.
  destruct (decide (username e = handle)).
  - by rewrite last_snoc.
  - by rewrite app_nil_r.
Qed.

Lemma add_entry_holds_last m processed entry :
  holds_last m processed ->
  holds_last (add_entry m entry) (processed ++ taken [entry]).
Proof.
  intros Hm. unfold add_entry, taken. rewrite filter_cons, filter_nil.
  destruct (isBot (username entry)) eqn:Hbot.
  - rewrite decide_False by done. by rewrite app_nil_r.
  - rewrite decide_True by done. intros handle.
    assert (forall v, username v = username entry -> base_fields v = base_fields entry ->
              match map_get (map_set m (username entry) v) handle with
              | Some v' =>
                  username v' = handle /\
                  exists e, last_entry handle (processed ++ [entry]) = Some e /\
                            base_fields v' = base_fields e
              | None => last_entry handle (processed ++ [entry]) = None
              end) as Hset.
    { intros v Hname Hbase. rewrite last_entry_snoc.
      destruct (decide (username entry = handle)) as [<-|Hne].
      - rewrite map_get_set_eq. eauto.
      - rewrite map_get_set_ne by done. apply Hm. }
    destruct (map_get m (username entry)); by apply Hset.
Qed.

Lemma taken_app l1 l2 : taken (l1 ++ l2) = taken l1 ++ taken l2.
Proof. unfold taken. apply filter_app. Qed.

Lemma add_entries_hold_last m processed l :
  holds_last m processed ->
  holds_last (foldl add_entry m l) (processed ++ taken l).
Proof.
  revert m processed. induction l as [|e r IH]; intros m processed Hm.
  - simpl. unfold taken. by rewrite filter_nil, app_nil_r.
  - cbn [foldl]. change (taken (e :: r)) with (taken ([e] ++ r)).
    rewrite taken_app, app_assoc.
    by apply IH, add_entry_holds_last.
Qed.

Lemma add_files_hold_last st processed files :
  holds_last st.1 processed ->
  holds_last (foldl add_file st files).1 (processed ++ taken (files ≫= file_entries)).
Proof.
  revert st processed. induction files as [|f r IH]; intros st processed Hst.
  - simpl. unfold taken. by rewrite filter_nil, app_nil_r.
  - rewrite bind_cons, taken_app, app_assoc. cbn [foldl].
    apply IH. unfold add_file, file_entries.
    destruct f.2 as [data|]; simpl.
    + by apply add_entries_hold_last.
    + unfold taken. by rewrite filter_nil, app_nil_r.
Qed.

Lemma collect_holds_last dir : holds_last (collect dir).1 (taken_entries dir).
Proof.
  unfold collect, taken_entries.
  apply (add_files_hold_last ([], 0) []). by intros handle.
Qed.

(** The keys of the map stay pairwise distinct. *)
Lemma add_entry_keys m entry : NoDup (map_keys m) -> NoDup (map_keys (add_entry m entry)).
Proof.
  intros Hnd. unfold add_entry. destruct (isBot (username entry)); [done|].
  destruct (map_get m (username entry)) eqn:Hget; rewrite map_keys_set; unfold map_has;
    rewrite Hget; [done|].
  apply NoDup_app. repeat split; [done| |apply NoDup_singleton].
  intros k Hk ->%list_elem_of_singleton. by apply map_get_None in Hget.
Qed.

Lemma collect_keys dir : NoDup (map_keys (collect dir).1).
Proof.
  unfold collect.
  apply (foldl_preserves (fun st : JsMap ContributorEntry * Z => NoDup (map_keys st.1))).
  - constructor.
  - intros st f Hst. unfold add_file. destruct f.2 as [data|]; [|done]. simpl.
    revert Hst. generalize st.1. induction (default [] (entries data)) as [|e r IH];
      intros m Hm; simpl; [done|].
    by apply IH, add_entry_keys.
Qed.

Lemma last_entry_Some handle l e :
  last_entry handle l = Some e -> e ∈ l /\ username e = handle.
Proof.
  unfold last_entry. intros He%last_Some_elem_of.
  by apply list_elem_of_filter in He as [? ?].
Qed.

Lemma people_stored dir resp p :
  GET (Some dir) = Some resp ->
  p ∈ people resp ->
  map_get (collect dir).1 (username p) = Some p.
Proof.
  intros [= <-]. simpl. intros Hp%elem_of_js_sort.
  apply list_elem_of_fmap in Hp as ([k v] & -> & Hin). simpl.
  pose proof (elem_of_map_get _ _ _ (collect_keys dir) Hin) as Hget.
  pose proof (collect_holds_last dir k) as Hk. rewrite Hget in Hk.
  destruct Hk as [-> _]. done.
Qed.

(** C5, as the code has it.  In the answer of [GET] the base fields of
    the entry of a handle are those of the last entry of that handle the
    loops take (the last file served that has it): every later entry
    replaces them. *)
Theorem last_file_base_fields_win (dir : list File) (resp : Response) (p : ContributorEntry) :
  GET (Some dir) = Some resp ->
  p ∈ people resp ->
  exists e,
    last_entry (username p) (taken_entries dir) = Some e /\
    base_fields p = base_fields e.
Proof.
  intros Hget Hp. pose proof (people_stored dir resp p Hget Hp) as Hstored.
  pose proof (collect_holds_last dir (username p)) as Hlast.
  rewrite Hstored in Hlast. by destruct Hlast as [_ ?].
Qed.

(** No entry of the answer of [GET] has a handle that [isBot] rejects. *)
Lemma people_not_bots dir resp p :
  GET (Some dir) = Some resp -> p ∈ people resp -> isBot (username p) = false.
Proof.
  intros Hget Hp. pose proof (people_stored dir resp p Hget Hp) as Hstored.
  pose proof (collect_holds_last dir (username p)) as Hlast.
  rewrite Hstored in Hlast. destruct Hlast as (_ & e & He & _).
  apply last_entry_Some in He as [He <-].
  unfold taken_entries, taken in He. by apply list_elem_of_filter in He as [? _].
Qed.

(** *** Placeholders *)

(** The placeholders the loop adds for a label, counted against the
    activities [combined] holds before the loop. *)
Definition added_for (combined : list Activity) (e : string * Stat) : list Activity :=
  replicate (Z.to_nat (count e.2 - Z.of_nat (count_type e.1 combined)))
    (placeholder e.1 e.2).

Lemma count_type_app type l1 l2 :
  count_type type (l1 ++ l2) = (count_type type l1 + count_type type l2)%nat.
Proof. unfold count_type. by rewrite filter_app, length_app. Qed.

Lemma filter_placeholders type type' info n :
  filter (fun a => act_type a = type) (replicate n (placeholder type' info)) =
  if decide (type' = type) then replicate n (placeholder type' info) else [].
Proof.
  induction n as [|n IH]; simpl.
  - by destruct (decide (type' = type)).
  - rewrite filter_cons, IH. simpl. by destruct (decide (type' = type)).
Qed.

Lemma count_type_added type combined e :
  e.1 ≠ type -> count_type type (combined ++ added_for combined e) = count_type type combined.
Proof.
  intros Hne. rewrite count_type_app. unfold count_type at 2, added_for.
  rewrite filter_placeholders, decide_False by done. simpl. lia.
Qed.

Lemma bind_ext_elem {A B} (f g : A -> list B) (l : list A) :
  (forall x, x ∈ l -> f x = g x) -> l ≫= f = l ≫= g.
Proof.
  induction l as [|x r IH]; intros Hfg; [done|].
  rewrite !bind_cons, Hfg, IH; [done| |apply elem_of_cons; by left].
  intros y Hy. apply Hfg, elem_of_cons. by right.
Qed.

Lemma fill_types combined breakdown :
  NoDup (fst <$> breakdown) ->
  foldl fill_type combined breakdown = combined ++ (breakdown ≫= added_for combined).
Proof.
  revert combined. induction breakdown as [|e r IH]; intros combined Hnd.
  - simpl. by rewrite app_nil_r.
  - csimpl in Hnd. apply NoDup_cons in Hnd as [He Hnd].
    cbn [foldl]. rewrite bind_cons, IH by done.
    change (fill_type combined e) with (combined ++ added_for combined e).
    rewrite <- app_assoc. do 2 f_equal.
    apply bind_ext_elem. intros e' He'. unfold added_for at 1 3.
    rewrite count_type_added; [done|].
    intros Heq. apply He. rewrite Heq. by apply list_elem_of_fmap_2.
Qed.

Lemma added_other_labels type combined breakdown :
  type ∉ fst <$> breakdown ->
  filter (fun a => act_type a = type) (breakdown ≫= added_for combined) = [].
Proof.
  induction breakdown as [|e r IH]; intros Hnot; [done|].
  csimpl in Hnot. apply not_elem_of_cons in Hnot as [Hne Hnot].
  rewrite bind_cons, filter_app, IH by done.
  unfold added_for. rewrite filter_placeholders, decide_False by done. done.
Qed.

Lemma added_for_label type info combined breakdown :
  NoDup (fst <$> breakdown) ->
  (type, info) ∈ breakdown ->
  filter (fun a => act_type a = type) (breakdown ≫= added_for combined) =
  replicate (Z.to_nat (count info - Z.of_nat (count_type type combined)))
    (placeholder type info).
Proof.
  induction breakdown as [|e r IH]; intros Hnd Hin.
  - by apply elem_of_nil in Hin.
  - csimpl in Hnd. apply NoDup_cons in Hnd as [He Hnd].
    rewrite bind_cons, filter_app. unfold added_for at 1.
    rewrite filter_placeholders.
    apply elem_of_cons in Hin as [<-|Hin]; simpl.
    + rewrite decide_True by done. rewrite added_other_labels by done.
      by rewrite app_nil_r.
    + rewrite decide_False.
      * by apply IH.
      * intros Heq. apply He. rewrite Heq.
        by apply (list_elem_of_fmap_2 fst _ (type, info)).
Qed.

(** C8, as the code has it.  When the entry of a later file declares 3
    ["Issue opened"] and the union of the activities holds 1, the merge
    adds exactly 2 placeholders of that label (generic title, empty link,
    the epoch as time) provided the union holds fewer activities than all
    the counts the entry declares add up to; what is served is the first
    15 of the union followed by the placeholders.  When the union holds as
    many activities as declared in all, nothing is added. *)
Theorem placeholders_fill_declared_count (existing entry : ContributorEntry) (info : Stat) :
  NoDup (fst <$> activity_breakdown entry) ->
  ("Issue opened", info) ∈ activity_breakdown entry ->
  count info = 3 ->
  count_type "Issue opened" (combine existing entry) = 1%nat ->
  (Z.of_nat (length (combine existing entry)) < expectedCount entry ->
     exists added,
       fill_missing entry (combine existing entry) = combine existing entry ++ added /\
       filter (fun a => act_type a = "Issue opened") added =
         [ {| act_type := "Issue opened"; act_title := "Issue opened contribution";
              occured_at := "1970-01-01T00:00:00.000Z"; act_link := "";
              act_points := points info |};
           {| act_type := "Issue opened"; act_title := "Issue opened contribution";
              occured_at := "1970-01-01T00:00:00.000Z"; act_link := "";
              act_points := points info |} ] /\
       activities (merge_entry existing entry) =
         Some (take 15 (combine existing entry ++ added))) /\
  (expectedCount entry <= Z.of_nat (length (combine existing entry)) ->
     fill_missing entry (combine existing entry) = combine existing entry /\
     activities (merge_entry existing entry) = Some (take 15 (combine existing entry))).
Proof.
  intros Hnd Hin Hcount Hone. unfold merge_entry, fill_missing. simpl. split.
  - intros Hlt. rewrite (proj2 (Z.ltb_lt _ _) Hlt).
    exists (activity_breakdown entry ≫= added_for (combine existing entry)).
    rewrite fill_types by done. split; [done|]. split; [|done].
    rewrite (added_for_label _ info) by done. by rewrite Hcount, Hone.
  - intros Hge. by rewrite (proj2 (Z.ltb_ge _ _) Hge).
Qed.

(** *** The union of the activities of two files *)

Lemma union_fresh seen l a : a ∈ union_activities seen l -> identifier a ∉ seen.
Proof.
  revert seen. induction l as [|b rest IH]; intros seen; simpl.
  - by intros ?%elem_of_nil.
  - destruct (decide (identifier b ∈ seen)) as [|Hb]; [by apply IH|].
    intros [->|Hin]%elem_of_cons; [done|].
    apply IH in Hin. intros Hseen. apply Hin, elem_of_union. by right.
Qed.

Lemma union_keys_NoDup seen l : NoDup (identifier <$> union_activities seen l).
Proof.
  revert seen. induction l as [|b rest IH]; intros seen; simpl.
  - constructor.
  - destruct (decide (identifier b ∈ seen)); [apply IH|].
    csimpl. apply NoDup_cons. split; [|apply IH].
    intros (a & Heq & Hin)%list_elem_of_fmap.
    apply union_fresh in Hin. apply Hin, elem_of_union. left.
    by apply elem_of_singleton.
Qed.

Lemma union_first seen l k :
  filter (fun a => identifier a = k) (union_activities seen l) =
  if decide (k ∈ seen) then [] else take 1 (filter (fun a => identifier a = k) l).
Proof.
  revert seen. induction l as [|a r IH]; intros seen.
  - simpl. by destruct (decide (k ∈ seen)).
  - cbn [union_activities]. rewrite (filter_cons _ a r).
    destruct (decide (identifier a ∈ seen)) as [Hin|Hnot].
    + rewrite IH. destruct (decide (k ∈ seen)); [done|].
      rewrite decide_False; [done|]. by intros <-.
    + rewrite filter_cons, IH.
      destruct (decide (identifier a = k)) as [<-|Hne].
      * rewrite decide_True by (apply elem_of_union; left; by apply elem_of_singleton).
        by rewrite decide_False.
      * destruct (decide (k ∈ seen)) as [Hk|Hk].
        -- rewrite decide_True; [done|]. apply elem_of_union. by right.
        -- rewrite decide_False; [done|].
           intros [Heq%elem_of_singleton|?]%elem_of_union; [by apply Hne|done].
Qed.

(** The activities of a contributor met in two files, before the
    placeholders: no two have the same identifier; each is, of the
    activities of its identifier, the first in the list of the file read
    earlier followed by the list of the file read later, so that the
    earlier file's version of an activity stands; and every identifier
    of either list is kept. *)
Theorem combined_activities_distinct (existing entry : ContributorEntry) :
  let both := default [] (activities existing) ++ default [] (activities entry) in
  NoDup (identifier <$> combine existing entry) /\
  (forall b, b ∈ combine existing entry ->
     head (filter (fun a => identifier a = identifier b) both) = Some b) /\
  (forall a, a ∈ both ->
     exists b, b ∈ combine existing entry /\ identifier b = identifier a).
Proof.
  cbv zeta. unfold combine.
  set (both := default [] (activities existing) ++ default [] (activities entry)).
  split; [|split].
  - rewrite js_sort_perm. apply union_keys_NoDup.
  - intros b Hb%elem_of_js_sort.
    assert (b ∈ filter (fun a => identifier a = identifier b) (union_activities ∅ both))
      as Hf by (by apply list_elem_of_filter).
    rewrite union_first in Hf. rewrite decide_False in Hf by apply not_elem_of_empty.
    destruct (filter (fun a => identifier a = identifier b) both) as [|x r].
    + by apply elem_of_nil in Hf.
    + simpl in Hf. apply list_elem_of_singleton in Hf. by subst.
  - intros a Ha.
    pose proof (union_first ∅ both (identifier a)) as Hf.
    rewrite decide_False in Hf by apply not_elem_of_empty.
    destruct (filter (fun x => identifier x = identifier a) both) as [|x r] eqn:Hboth.
    + assert (a ∈ filter (fun x => identifier x = identifier a) both) as Hin
        by (by apply list_elem_of_filter).
      rewrite Hboth in Hin. by apply elem_of_nil in Hin.
    + assert (x ∈ filter (fun x => identifier x = identifier a) (union_activities ∅ both))
        as Hx by (rewrite Hf; apply list_elem_of_here).
      apply list_elem_of_filter in Hx as [Hid Hx].
      exists x. split; [by apply elem_of_js_sort|done].
Qed.

(** *** What the placeholders add up to *)

(** When the union holds fewer activities than the entry declares in
    all, the placeholders are added after the union, and bring every
    declared label to the count declared for it; a label of which the
    union holds more than declared keeps them all, and a label that is not
    declared gets nothing. *)
Theorem declared_counts_reached (entry : ContributorEntry) (combined : list Activity) :
  NoDup (fst <$> activity_breakdown entry) ->
  Z.of_nat (length combined) < expectedCount entry ->
  combined `prefix_of` fill_missing entry combined /\
  (forall type info, (type, info) ∈ activity_breakdown entry ->
     Z.of_nat (count_type type (fill_missing entry combined)) =
     Z.max (count info) (Z.of_nat (count_type type combined))) /\
  (forall type, type ∉ fst <$> activity_breakdown entry ->
     count_type type (fill_missing entry combined) = count_type type combined).
Proof.
  intros Hnd Hlt. unfold fill_missing. rewrite (proj2 (Z.ltb_lt _ _) Hlt).
  rewrite fill_types by done. split; [|split].
  - by apply prefix_app_r.
  - intros type info Hin. rewrite count_type_app. unfold count_type at 2.
    rewrite (added_for_label _ info) by done. rewrite length_replicate. lia.
  - intros type Hnot. rewrite count_type_app. unfold count_type at 2.
    rewrite added_other_labels by done. simpl. lia.
Qed.

(** *** The answer as a whole *)

Lemma collect_invariant (I : JsMap ContributorEntry -> list ContributorEntry -> Prop) :
  I [] [] ->
  (forall m processed entry,
     I m processed -> I (add_entry m entry) (processed ++ taken [entry])) ->
  forall dir, I (collect dir).1 (taken_entries dir).
Proof.
  intros Hinit Hstep dir. unfold collect, taken_entries.
  assert (forall l m processed,
            I m processed -> I (foldl add_entry m l) (processed ++ taken l)) as Hentries.
  { induction l as [|e r IH]; intros m processed Hm.
    - simpl. unfold taken. by rewrite filter_nil, app_nil_r.
    - cbn [foldl]. change (taken (e :: r)) with (taken ([e] ++ r)).
      rewrite taken_app, app_assoc. by apply IH, Hstep. }
  assert (forall files st processed,
            I st.1 processed ->
            I (foldl add_file st files).1 (processed ++ taken (files ≫= file_entries)))
    as Hfiles.
  { induction files as [|f r IH]; intros st processed Hst.
    - simpl. unfold taken. by rewrite filter_nil, app_nil_r.
    - rewrite bind_cons, taken_app, app_assoc. cbn [foldl].
      apply IH. unfold add_file, file_entries.
      destruct f.2 as [data|]; simpl.
      + by apply Hentries.
      + unfold taken. by rewrite filter_nil, app_nil_r. }
  by apply (Hfiles _ ([], 0) []).
Qed.

Lemma fmap_ext_elem {A B} (f g : A -> B) (l : list A) :
  (forall x, x ∈ l -> f x = g x) -> f <$> l = g <$> l.
Proof.
  induction l as [|x r IH]; intros Hfg; [done|]. csimpl.
  rewrite Hfg by (apply elem_of_cons; by left). f_equal.
  apply IH. intros y Hy. apply Hfg, elem_of_cons. by right.
Qed.

(** The people of the answer are in descending order of [total_points],
    and no two have the same username. *)
Theorem people_ranked (dir : list File) (resp : Response) :
  GET (Some dir) = Some resp ->
  Sorted (rank_ge total_points) (people resp) /\
  NoDup (username <$> people resp).
Proof.
  intros [= <-]. cbn [people]. split; [apply js_sort_rank|].
  rewrite js_sort_perm.
  assert (username <$> map_values (collect dir).1 = map_keys (collect dir).1) as ->.
  { unfold map_values, map_keys. rewrite <- list_fmap_compose.
    apply fmap_ext_elem. intros [k v] Hin. cbn [compose fst snd].
    pose proof (elem_of_map_get _ _ _ (collect_keys dir) Hin) as Hget.
    pose proof (collect_holds_last dir k) as Hk. rewrite Hget in Hk. by destruct Hk. }
  apply collect_keys.
Qed.

(** The contents of the files served that could be read. *)
Definition readable (dir : list File) : list LeaderboardData :=
  omap snd (filter (fun file => served file = true) dir).

Lemma add_files_latest files st :
  st.2 <= (foldl add_file st files).2 /\
  (forall data, data ∈ omap snd files -> updatedAt data <= (foldl add_file st files).2) /\
  ((foldl add_file st files).2 = st.2 \/
   exists data, data ∈ omap snd files /\ updatedAt data = (foldl add_file st files).2).
Proof.
  revert st. induction files as [|f r IH]; intros st.
  - simpl. split; [lia|]. split; [by intros data ?%elem_of_nil|by left].
  - cbn [foldl]. destruct (IH (add_file st f)) as (Hle & Hall & Hsome).
    unfold add_file in *. csimpl. destruct f.2 as [data|]; cbn [snd] in *.
    + destruct (Z.ltb_spec st.2 (updatedAt data)) as [Hlt|Hge].
      * split; [lia|]. split.
        -- intros d [->|Hd]%elem_of_cons; [done|by apply Hall].
        -- right. destruct Hsome as [->|(d & Hd & Heq)].
           ++ exists data. split; [apply elem_of_cons; by left|done].
           ++ exists d. split; [apply elem_of_cons; by right|done].
      * split; [done|]. split.
        -- intros d [->|Hd]%elem_of_cons; [lia|by apply Hall].
        -- destruct Hsome as [->|(d & Hd & Heq)]; [by left|].
           right. exists d. split; [apply elem_of_cons; by right|done].
    + done.
Qed.

(** [updatedAt] of the answer is the latest [updatedAt] of the files
    served that could be read, and [0] when there is none or none is
    later than [0]. *)
Theorem answer_updatedAt_is_latest (dir : list File) (resp : Response) :
  GET (Some dir) = Some resp ->
  0 <= resp_updatedAt resp /\
  (forall data, data ∈ readable dir -> updatedAt data <= resp_updatedAt resp) /\
  (resp_updatedAt resp = 0 \/
   exists data, data ∈ readable dir /\ updatedAt data = resp_updatedAt resp).
Proof.
  intros [= <-]. cbn [resp_updatedAt]. unfold collect, readable.
  apply (add_files_latest _ ([], 0)).
Qed.

(** A file that is not served (its name does not end in [.json], or it is
    [recent-activities.json]) and a file that cannot be read or parsed
    leave the answer as it is without them. *)
Theorem skipped_files_change_nothing (dir1 dir2 : list File) (file : File) :
  served file = false \/ file.2 = None ->
  GET (Some (dir1 ++ file :: dir2)) = GET (Some (dir1 ++ dir2)).
Proof.
  intros Hskip. unfold GET, collect. cbn [mbind option_bind].
  rewrite !filter_app, filter_cons.
  destruct (decide (served file = true)) as [Hserved|]; [|done].
  destruct Hskip as [Hnot|Hnone]; [congruence|].
  assert (forall st, add_file st file = st) as Hid
    by (intros st; unfold add_file; by rewrite Hnone).
  rewrite !foldl_app. cbn [foldl]. by rewrite !Hid.
Qed.

(** The entries of a handle among those taken. *)
Definition entries_of (handle : string) (l : list ContributorEntry) : list ContributorEntry :=
  filter (fun e => username e = handle) l.

(** What the map holds of the activities: all those of the entry for a
    handle met once, at most 15 for a handle met again. *)
Definition holds_activities (m : JsMap ContributorEntry) (processed : list ContributorEntry)
    : Prop :=
  forall handle,
    match map_get m handle, entries_of handle processed with
    | None, [] => True
    | Some v, [e] => activities v = Some (default [] (activities e))
    | Some v, _ :: _ :: _ =>
        exists l, activities v = Some l /\ (length l <= 15)%nat
    | _, _ => False
    end.

Lemma add_entry_holds_activities m processed entry :
  holds_activities m processed ->
  holds_activities (add_entry m entry) (processed ++ taken [entry]).
Proof.
  intros Hm. unfold add_entry, taken. rewrite filter_cons, filter_nil.
  destruct (isBot (username entry)) eqn:Hbot.
  - rewrite decide_False by done. by rewrite app_nil_r.
  - rewrite decide_True by done. intros handle. unfold entries_of.
    rewrite filter_app, filter_cons, filter_nil.
    destruct (decide (username entry = handle)) as [<-|Hne].
    + specialize (Hm (username entry)). unfold entries_of in Hm.
      destruct (map_get m (username entry)) as [existing|]; rewrite map_get_set_eq.
      * destruct (filter _ processed) as [|x [|y r]]; [done| |].
        -- cbn [app merge_entry activities]. eexists. split; [done|].
           rewrite length_take. lia.
        -- cbn [app merge_entry activities]. eexists. split; [done|].
           rewrite length_take. lia.
      * by destruct (filter _ processed) as [|x r].
    + rewrite app_nil_r.
      assert (map_get (match map_get m (username entry) with
                       | Some existing =>
                           map_set m (username entry) (merge_entry existing entry)
                       | None => map_set m (username entry) (first_sight entry)
                       end) handle = map_get m handle) as ->.
      { destruct (map_get m (username entry)); by rewrite map_get_set_ne. }
      apply Hm.
Qed.

(** A contributor met in one file only is served with all the activities
    of its entry there, however many; a contributor met in more files is
    served with at most 15. *)
Theorem activities_capped_when_merged (dir : list File) (resp : Response)
    (p : ContributorEntry) :
  GET (Some dir) = Some resp ->
  p ∈ people resp ->
  match entries_of (username p) (taken_entries dir) with
  | [e] => activities p = Some (default [] (activities e))
  | _ => exists l, activities p = Some l /\ (length l <= 15)%nat
  end.
Proof.
  intros Hget Hp. pose proof (people_stored dir resp p Hget Hp) as Hstored.
  pose proof (collect_invariant holds_activities) as Hinv.
  specialize (Hinv (fun handle => I) add_entry_holds_activities dir (username p)).
  rewrite Hstored in Hinv.
  by destruct (entries_of (username p) (taken_entries dir)) as [|x [|y r]].
Qed.


End Route.

(** *** Sample files *)

Definition parse : string -> option Z := Leaderboard.sample_parseDate.

Definition issue_opened_9 : Activity :=
  {| act_type := "Issue opened";
     act_title := "Simulator freezes";
     occured_at := "2024-03-05T12:00:00Z";
     act_link := "https://github.com/CircuitVerse/CircuitVerse/issues/9";
     act_points := 1 |}.

Definition pr_opened (n : Z) : Activity :=
  {| act_type := "PR opened";
     act_title := "Change " +:+ template_num n;
     occured_at := "2024-03-01T10:00:00Z";
     act_link := "https://github.com/CircuitVerse/CircuitVerse/pull/" +:+ template_num n;
     act_points := 2 |}.

(** alice in [month.json] and in [year.json], whose entries carry no
    [activities]. *)
Definition alice_month : ContributorEntry :=
  {| username := "alice"; name := Some "Alice"; avatar_url := "https://avatars/alice";
     role := "Contributor"; total_points := 1;
     activity_breakdown := [("Issue opened", {| count := 1; points := 1 |})];
     daily_activity := [{| date := "2024-03-05"; day_count := 1; day_points := 1 |}];
     activities := Some [issue_opened_9] |}.

Definition alice_year : ContributorEntry :=
  {| username := "alice"; name := Some "Alice A."; avatar_url := "https://avatars/alice";
     role := "Maintainer"; total_points := 3;
     activity_breakdown := [("Issue opened", {| count := 3; points := 3 |})];
     daily_activity := [];
     activities := None |}.

Definition two_files : list File :=
  [("month.json", Some {| period := "month"; updatedAt := 100; entries := Some [alice_month] |});
   ("recent-activities.json", None);
   ("year.json", Some {| period := "year"; updatedAt := 200; entries := Some [alice_year] |})].

Definition alice_merged : ContributorEntry :=
  Eval vm_compute in merge_entry parse (first_sight alice_month) alice_year.

Definition two_files_answer : Response :=
  {| resp_updatedAt := 200; people := [alice_merged] |}.

Example two_files_served : GET parse (Some two_files) = Some two_files_answer.
Proof. by vm_compute. Qed.

(** The example of the specification: 3 declared, 1 retained, 2
    placeholders. *)
Example alice_merged_activities :
  activities alice_merged =
    Some [issue_opened_9;
          placeholder "Issue opened" {| count := 3; points := 3 |};
          placeholder "Issue opened" {| count := 3; points := 3 |}].
Proof. reflexivity. Qed.

(** C5, as the claim words it, fails: alice is first seen in
    [month.json], and the base fields served are those of [year.json]. *)
Lemma first_file_fields_replaced :
  ((fun r => base_fields <$> people r) <$> GET parse (Some two_files)) =
    Some [base_fields alice_year] /\
  base_fields alice_year ≠ base_fields alice_month.
Proof. split; [by vm_compute|discriminate]. Qed.

Lemma last_file_base_fields_win_witness :
  exists e,
    last_entry (username alice_merged) (taken_entries two_files) = Some e /\
    base_fields alice_merged = base_fields e.
Proof.
  apply (last_file_base_fields_win parse two_files two_files_answer alice_merged).
  - by vm_compute.
  - apply list_elem_of_here.
Defined.

Lemma placeholders_fill_declared_count_witness :
  (Z.of_nat (length (combine parse (first_sight alice_month) alice_year))
     < expectedCount alice_year ->
     exists added,
       fill_missing alice_year (combine parse (first_sight alice_month) alice_year) =
         combine parse (first_sight alice_month) alice_year ++ added /\
       filter (fun a => act_type a = "Issue opened") added =
         [ {| act_type := "Issue opened"; act_title := "Issue opened contribution";
              occured_at := "1970-01-01T00:00:00.000Z"; act_link := "";
              act_points := 3 |};
           {| act_type := "Issue opened"; act_title := "Issue opened contribution";
              occured_at := "1970-01-01T00:00:00.000Z"; act_link := "";
              act_points := 3 |} ] /\
       activities (merge_entry parse (first_sight alice_month) alice_year) =
         Some (take 15 (combine parse (first_sight alice_month) alice_year ++ added))) /\
  (expectedCount alice_year
     <= Z.of_nat (length (combine parse (first_sight alice_month) alice_year)) ->
     fill_missing alice_year (combine parse (first_sight alice_month) alice_year) =
       combine parse (first_sight alice_month) alice_year /\
     activities (merge_entry parse (first_sight alice_month) alice_year) =
       Some (take 15 (combine parse (first_sight alice_month) alice_year))).
Proof.
  apply (placeholders_fill_declared_count parse (first_sight alice_month) alice_year
           {| count := 3; points := 3 |}).
  - apply NoDup_singleton.
  - apply list_elem_of_here.
  - reflexivity.
  - reflexivity.
Defined.

(** bob and carol, each in an earlier and in a later file. *)
Definition bob_earlier : ContributorEntry :=
  {| username := "bob"; name := None; avatar_url := "https://avatars/bob";
     role := "Contributor"; total_points := 5;
     activity_breakdown :=
       [("Issue opened", {| count := 1; points := 1 |});
        ("PR opened", {| count := 2; points := 4 |})];
     daily_activity := [];
     activities := Some [issue_opened_9; pr_opened 1; pr_opened 2] |}.

Definition bob_later : ContributorEntry :=
  {| username := "bob"; name := None; avatar_url := "https://avatars/bob";
     role := "Contributor"; total_points := 3;
     activity_breakdown := [("Issue opened", {| count := 3; points := 3 |})];
     daily_activity := [];
     activities := None |}.

Definition carol_earlier : ContributorEntry :=
  {| username := "carol"; name := None; avatar_url := "https://avatars/carol";
     role := "Contributor"; total_points := 29;
     activity_breakdown :=
       [("PR opened", {| count := 14; points := 28 |});
        ("Issue opened", {| count := 1; points := 1 |})];
     daily_activity := [];
     activities := Some (issue_opened_9 :: (pr_opened <$> seqZ 1 14)) |}.

Definition carol_later : ContributorEntry :=
  {| username := "carol"; name := None; avatar_url := "https://avatars/carol";
     role := "Contributor"; total_points := 43;
     activity_breakdown :=
       [("PR opened", {| count := 20; points := 40 |});
        ("Issue opened", {| count := 3; points := 3 |})];
     daily_activity := [];
     activities := None |}.

Definition placeholders_served (e : ContributorEntry) : list Activity :=
  filter (fun a => act_link a = "") (default [] (activities e)).

(** C8, as the claim words it, fails.  bob's later entry declares 3
    ["Issue opened"] and the union holds 1, with two pull requests from the
    earlier file: the union holds as many activities as declared, and no
    placeholder is added.  carol's later entry declares 3 ["Issue opened"]
    and 20 ["PR opened"] and the union holds 1 and 14: the 8 placeholders
    follow the 15 activities of the union, and none is served. *)
Lemma declared_count_not_filled :
  count_type "Issue opened" (combine parse (first_sight bob_earlier) bob_later) = 1%nat /\
  placeholders_served (merge_entry parse (first_sight bob_earlier) bob_later) = [] /\
  count_type "Issue opened" (combine parse (first_sight carol_earlier) carol_later) = 1%nat /\
  placeholders_served (merge_entry parse (first_sight carol_earlier) carol_later) = [].
Proof. by vm_compute. Qed.

(** A directory with a file that is not served and one that cannot be
    parsed. *)
Definition four_files : list File :=
  [("month.json",
    Some {| period := "month"; updatedAt := 100; entries := Some [alice_month; bob_earlier] |});
   ("notes.txt",
    Some {| period := "notes"; updatedAt := 900; entries := Some [carol_later] |});
   ("broken.json", None);
   ("year.json",
    Some {| period := "year"; updatedAt := 200;
            entries := Some [carol_earlier; alice_year; bob_later] |})].

Example four_files_served :
  (fun resp => (resp_updatedAt resp,
                (fun p => (username p, total_points p, length <$> activities p))
                  <$> people resp)) <$> GET parse (Some four_files) =
  Some (200, [("carol", 29, Some 15%nat); ("alice", 3, Some 3%nat); ("bob", 3, Some 3%nat)]).
Proof. by vm_compute. Qed.

Lemma declared_counts_reached_witness :
  [issue_opened_9] `prefix_of` fill_missing alice_year [issue_opened_9] /\
  (forall type info, (type, info) ∈ activity_breakdown alice_year ->
     Z.of_nat (count_type type (fill_missing alice_year [issue_opened_9])) =
     Z.max (count info) (Z.of_nat (count_type type [issue_opened_9]))) /\
  (forall type, type ∉ fst <$> activity_breakdown alice_year ->
     count_type type (fill_missing alice_year [issue_opened_9]) =
     count_type type [issue_opened_9]).
Proof.
  apply (declared_counts_reached alice_year [issue_opened_9]).
  - apply NoDup_singleton.
  - reflexivity.
Defined.

Lemma people_ranked_witness :
  exists resp,
    GET parse (Some four_files) = Some resp /\
    Sorted (rank_ge total_points) (people resp) /\
    NoDup (username <$> people resp).
Proof.
  eexists. split; [by vm_compute|].
  eapply (people_ranked parse four_files). by vm_compute.
Defined.

Lemma answer_updatedAt_is_latest_witness :
  exists resp,
    GET parse (Some four_files) = Some resp /\
    0 <= resp_updatedAt resp /\
    (forall data, data ∈ readable four_files -> updatedAt data <= resp_updatedAt resp) /\
    (resp_updatedAt resp = 0 \/
     exists data, data ∈ readable four_files /\ updatedAt data = resp_updatedAt resp).
Proof.
  eexists. split; [by vm_compute|].
  eapply (answer_updatedAt_is_latest parse four_files). by vm_compute.
Defined.

Lemma skipped_files_change_nothing_witness :
  GET parse (Some (take 2 four_files ++ ("broken.json", None) :: drop 3 four_files)) =
  GET parse (Some (take 2 four_files ++ drop 3 four_files)).
Proof.
  apply (skipped_files_change_nothing parse (take 2 four_files) (drop 3 four_files)
           ("broken.json", None)).
  right. reflexivity.
Defined.

Lemma activities_capped_when_merged_witness :
  exists l, activities alice_merged = Some l /\ (length l <= 15)%nat.
Proof.
  exact (activities_capped_when_merged parse two_files two_files_answer alice_merged
           eq_refl (list_elem_of_here _ _)).
Defined.


End People.


(** ** Bots, in the files of a run and in the answer of [GET] *)

(** C4, as the code has it.  A handle has an entry in the year, week or
    month snapshot or an item in the recent-activity feed of a run only if
    it is the handle of a fetched actor that [isBotUser] lets pass (a
    handle that is not empty and does not end in [[bot]], an account type
    that is absent or ["User"]) or it is carried over from the prior year
    snapshot; the handles that end in [-bot] or [_bot] or are on the list
    of automation accounts are dropped by [GET] only, whose answer has no
    entry that [isBot] rejects. *)
Theorem bots_kept_out
    (parseDate : string -> option Z) (localeCompare : string -> string -> Z)
    (iso : Z -> string) (daysAgo : Z -> Z -> Z)
    (coreTeamMembers alumniMembers : list string)
    (parse_issue_url : string -> option (string * string))
    (clock : Leaderboard.Clock) (existing : option Leaderboard.YearData)
    (fetched : Leaderboard.Fetched) (out : Leaderboard.Output)
    (dir : list People.File) (resp : People.Response) :
  Leaderboard.generateYear parseDate localeCompare iso daysAgo coreTeamMembers
    alumniMembers parse_issue_url clock existing fetched = Some out ->
  People.GET parseDate (Some dir) = Some resp ->
  (forall h, h ∈ Leaderboard.output_handles out ->
     Leaderboard.human_actor fetched h \/ Leaderboard.carried_over existing h) /\
  (forall p, p ∈ People.people resp -> People.isBot (People.username p) = false).
Proof.
  intros Hrun Hget. split.
  - intros h Hh. by eapply Leaderboard.generateYear_handles.
  - intros p Hp. by eapply People.people_not_bots.
Qed.

Definition deploy_bot_month : People.ContributorEntry :=
  {| People.username := "deploy-bot"; People.name := None;
     People.avatar_url := "https://avatars/deploy-bot";
     People.role := "Contributor"; People.total_points := 2;
     People.activity_breakdown := [("PR opened", {| People.count := 1; People.points := 2 |})];
     People.daily_activity := [];
     People.activities := Some [People.pr_opened 50] |}.

Definition files_with_bot : list People.File :=
  [("month.json",
    Some {| People.period := "month"; People.updatedAt := 100;
            People.entries := Some [deploy_bot_month; People.alice_month] |})].

Lemma bots_kept_out_witness :
  exists out resp,
    Leaderboard.run (Leaderboard.clock_at 1710230400000 1710231000000) None
      Leaderboard.only_deploy_bot = Some out /\
    People.GET People.parse (Some files_with_bot) = Some resp /\
    People.username <$> People.people resp = ["alice"] /\
    (forall h, h ∈ Leaderboard.output_handles out ->
       Leaderboard.human_actor Leaderboard.only_deploy_bot h \/
       Leaderboard.carried_over None h) /\
    (forall p, p ∈ People.people resp -> People.isBot (People.username p) = false).
Proof.
  eexists. eexists.
  split; [by vm_compute|]. split; [by vm_compute|]. split; [by vm_compute|].
  apply (bots_kept_out People.parse Leaderboard.sample_localeCompare Leaderboard.sample_iso
           Leaderboard.sample_daysAgo [] [] Leaderboard.sample_url
           (Leaderboard.clock_at 1710230400000 1710231000000) None
           Leaderboard.only_deploy_bot _ files_with_bot _).
  - by vm_compute.
  - by vm_compute.
Defined.
